(** * GTaskManager: the daily rollover engine

    A shallow embedding of [main.js] (dailyRunner, rolloverProcess,
    processInboxTasks, migrateIncompleteTasks) and of [services.js]
    (ListService, TaskService, CompletedTaskService), together with the
    properties of the rollover orchestration that the specification states.

    JavaScript strings are modelled by [string]; counters and timestamps by
    [Z]; the Google Tasks store, the script lock, the clock and the calls
    made to the platform are explicit state, threaded through a small
    state-and-exception monad.

    A second part embeds [config.js] (the getters and setup), [logging.js]
    (LoggingSheetUtil) and [digest.js] (DigestMailer) over the script
    properties, the spreadsheets, the triggers and the mail of the
    script. *)

From Stdlib Require Import ZArith NArith List Bool Lia.
From Stdlib Require Import Ascii String.
From Stdlib Require Import DecimalString DecimalN DecimalPos.
From Stdlib Require Import RelationClasses.
Import ListNotations.

Local Open Scope string_scope.

(** ** JavaScript strings *)

Module JsString.

(** The line-feed character, written [\n] in the source. *)
Definition nl : string := String (ascii_of_nat 10) EmptyString.

(** Truthiness of a string value: the empty string is falsy. *)
Definition truthy (s : string) : bool :=
  match s with
  | EmptyString => false
  | String _ _ => true
  end.

(** Truthiness of a possibly absent string ([undefined] is falsy). *)
Definition truthy_opt (o : option string) : bool :=
  match o with
  | Some s => truthy s
  | None => false
  end.

(** [x || ""] on a possibly absent string. *)
Definition or_empty (o : option string) : string :=
  match o with
  | Some s => s
  | None => EmptyString
  end.

(** [s.startsWith(p)], returning what follows the prefix. *)
Fixpoint strip_prefix (p s : string) : option string :=
  match p, s with
  | EmptyString, _ => Some s
  | String a p', String b s' =>
      if Ascii.eqb a b then strip_prefix p' s' else None
  | String _ _, EmptyString => None
  end.

Definition startsWith (s p : string) : bool :=
  match strip_prefix p s with
  | Some _ => true
  | None => false
  end.

(** [s.includes(sub)]: [sub] occurs at some position of [s]. *)
Fixpoint includes (s sub : string) : bool :=
  startsWith s sub ||
  match s with
  | EmptyString => false
  | String _ s' => includes s' sub
  end.

(** The class [\d] of the regular expressions: ASCII digits only. *)
Definition is_digit (c : ascii) : bool :=
  (48 <=? nat_of_ascii c)%nat && (nat_of_ascii c <=? 57)%nat.

(** A greedy [\d*]: the longest run of digits at the head, and the rest. *)
Fixpoint span_digits (s : string) : string * string :=
  match s with
  | EmptyString => (EmptyString, EmptyString)
  | String c s' =>
      if is_digit c
      then let (ds, r) := span_digits s' in (String c ds, r)
      else (EmptyString, s)
  end.

(** [parseInt(ds, 10)] on a run of digits.  The value is kept exact; a
    JavaScript number agrees with it below [2^53]. *)
Definition parseInt (ds : string) : N :=
  match NilZero.uint_of_string ds with
  | Some d => N.of_uint d
  | None => 0%N
  end.

(** The decimal rendering of a counter inside a template literal. *)
Definition numToString (n : N) : string :=
  NilZero.string_of_uint (N.to_uint n).

(** The largest range on which a JavaScript number counts exactly. *)
Definition maxSafe : N := (2 ^ 53)%N.

End JsString.
Import JsString.

(** ** JavaScript numbers with a non-negative integral value

    A number is a double: [Some n] is the double whose value is the
    integer [n], [None] is [Infinity].  Integers below [2^53] are all
    doubles; above, a double has 53 significant bits. *)

Module Double.

(** The double nearest to the integer [n], ties to the even significand;
    from [2^1024 - 2^970] on, [Infinity]. *)
Definition round (n : N) : option N :=
  if (n <? maxSafe)%N then Some n
  else
    let shift := (N.log2 n - 52)%N in
    let q := N.shiftr n shift in
    let r := N.land n (N.ones shift) in
    let half := N.shiftl 1 (shift - 1) in
    let q' :=
      if (half <? r)%N || ((r =? half)%N && N.odd q)
      then (q + 1)%N else q in
    let v := N.shiftl q' shift in
    if (v <? 2 ^ 1024)%N then Some v else None.

(** [parseInt(ds, 10)] on a run of digits, correctly rounded (beyond 20
    significant digits the standard lets an implementation approximate). *)
Definition ofDigits (ds : string) : option N := round (parseInt ds).

(** [x + 1]. *)
Definition succ (x : option N) : option N :=
  match x with
  | Some n => round (n + 1)
  | None => None
  end.

Definition readsBack (text x : N) : bool :=
  match round text with
  | Some v => (v =? x)%N
  | None => false
  end.

(** The decimal with the fewest significant digits that reads back as the
    double of value [x], the closest to [x] among those (the even one on a
    tie), as an integer: [k] significant digits are tried, then [k + 1],
    up to the [digits] digits of [x] itself. *)
Fixpoint shortest (fuel : nat) (k digits x : N) : N :=
  match fuel with
  | O => x
  | S fuel' =>
      let p := (10 ^ (digits - k))%N in
      let lo := (x / p * p)%N in
      let hi := (lo + p)%N in
      if readsBack lo x && readsBack hi x then
        if (x - lo <? hi - x)%N then lo
        else if (hi - x <? x - lo)%N then hi
        else if N.even (lo / p) then lo else hi
      else if readsBack lo x then lo
      else if readsBack hi x then hi
      else shortest fuel' (k + 1)%N digits x
  end.

(** The digits of a decimal without its trailing zeros. *)
Fixpoint significand (s : string) : string :=
  match s with
  | EmptyString => EmptyString
  | String c r =>
      match significand r with
      | EmptyString =>
          if Ascii.eqb c "0" then EmptyString else String c EmptyString
      | r' => String c r'
      end
  end.

(** The exponent form of a decimal of more than 21 digits. *)
Definition exponential (decimal : string) : string :=
  let e := numToString (N.of_nat (String.length decimal - 1)) in
  match significand decimal with
  | EmptyString => EmptyString
  | String d EmptyString => String d ("e+" ++ e)
  | String d more => String d ("." ++ more ++ "e+" ++ e)
  end.

(** [String(x)], also [`${x}`] in a template: an integer below [2^53] in
    full; a larger double by its shortest decimal, in exponent form from
    [10^21] on. *)
Definition toString (x : option N) : string :=
  match x with
  | None => "Infinity"
  | Some n =>
      if (n <? maxSafe)%N then numToString n
      else
        let digits := String.length (numToString n) in
        let v := shortest digits 1 (N.of_nat digits) n in
        if (v <? 10 ^ 21)%N then numToString v
        else exponential (numToString v)
  end.

End Double.

(** ** The rollover annotation: [/Rollover Count: (\d+)/] *)

Module Rollover.

Definition label : string := "Rollover Count: ".

(** The regular expression anchored at the head of [s]: the captured
    digits and what follows the match. *)
Definition match_here (s : string) : option (string * string) :=
  match strip_prefix label s with
  | Some r =>
      match span_digits r with
      | (EmptyString, _) => None
      | (ds, rest) => Some (ds, rest)
      end
  | None => None
  end.

(** [notes.match(/Rollover Count: (\d+)/)]: the leftmost match, as the text
    before it, the captured digits and the text after it. *)
Fixpoint regex_match (s : string) : option (string * string * string) :=
  match match_here s with
  | Some (ds, rest) => Some (EmptyString, ds, rest)
  | None =>
      match s with
      | EmptyString => None
      | String c s' =>
          match regex_match s' with
          | Some (pre, ds, rest) => Some (String c pre, ds, rest)
          | None => None
          end
      end
  end.

(** The number of positions of [s] at which the regular expression
    matches, that is the number of rollover fragments in [s]. *)
Fixpoint fragments (s : string) : nat :=
  (match match_here s with Some _ => 1 | None => 0 end) +
  match s with
  | EmptyString => 0
  | String _ s' => fragments s'
  end.

(** The notes computed by the loop body of migrateIncompleteTasks when
    rollover tracking is on (main.js, lines 151-158).  The count is a
    JavaScript number: [parseInt(match[1], 10) + 1], printed by the
    template. *)
Definition bump (task_notes : option string) : string :=
  let notes := or_empty task_notes in
  match regex_match notes with
  | Some (pre, ds, rest) =>
      let count := Double.succ (Double.ofDigits ds) in
      pre ++ label ++ Double.toString count ++ rest
  | None =>
      notes ++ (if truthy notes then nl ++ nl else "") ++ label ++ "1"
  end.

End Rollover.

(** ** Data model (Google Tasks schema, as far as the script reads it) *)

Inductive Status : Type :=
| needsAction
| completed.

Definition Status_eqb (a b : Status) : bool :=
  match a, b with
  | needsAction, needsAction => true
  | completed, completed => true
  | _, _ => false
  end.

(** An entry of [task.links]. *)
Record Link : Type := mkLink {
  link_type : string;
  link_link : option string
}.

Record TaskList : Type := mkTaskList {
  list_id : string;
  list_title : string
}.

Record Task : Type := mkTask {
  task_id : string;
  task_title : string;
  task_notes : option string;
  task_status : Status;
  task_due : option string;
  task_recurrence : option string;
  task_links : option (list Link);
  task_completed : option string
}.

(** The resource built by [Tasks.newTask()] and filled in by
    [TaskService.move]: only these three fields are ever assigned. *)
Record NewTask : Type := mkNewTask {
  new_title : string;
  new_notes : string;
  new_due : option string
}.

(** An element of [stats.completedTasks]. *)
Record CompletedEntry : Type := mkCompletedEntry {
  taskName : string;
  completed_timestamp : option string
}.

(** The [stats] object of one run. *)
Record RunStat : Type := mkRunStat {
  timestamp : Z;
  inboxAdds : Z;
  listDeleted : Z;
  listCreated : Z;
  inboxMoves : Z;
  completedTasks : list CompletedEntry;
  notes : string
}.

(** ** The platform seen from the script *)

(** Calls made to the collaborators, in the order the script makes them.
    Console output is diagnostic only and is not recorded. *)
Inductive Call : Type :=
| TryLock (waitMs : Z)
| ReleaseLock
| TasklistsList
| TasklistsInsert (title : string)
| TasklistsRemove (listId : string)
| TasksList (listId : string)
| TasksPatch (listId taskId newNotes : string)
| TasksInsert (listId : string) (resource : NewTask)
| TasksRemove (listId taskId : string)
| LogSetup
| LogRun (row : RunStat)
| SendWeeklyDigest
| SendEmail (subject body : string).

(** What one invocation cannot decide by itself: the resolved script
    properties (config.js) and the behaviour of the platform. *)
Record Host : Type := mkHost {
  (* script properties, after their defaults *)
  inboxListName : string;
  dailyListPrefix : string;
  executionTimeoutSeconds : Z;
  autoMoveDueTasks : bool;
  trackRolloverCount : bool;
  weeklyDigestDay : Z;
  (* the platform *)
  lockFree : bool;                     (* tryLock succeeds within its wait *)
  clock : nat -> Z;                    (* the n-th [new Date()], in ms *)
  fault : nat -> option string;        (* the n-th call throws this message *)
  formatDate : Z -> string -> string;  (* Utilities.formatDate in the local zone *)
  getDay : Z -> Z;                     (* Date.prototype.getDay *)
  freshId : nat -> string              (* identifiers chosen by the server *)
}.

(** The mutable world of one invocation. *)
Record State : Type := mkState {
  lists : list TaskList;               (* the task lists, in enumeration order *)
  tasks : string -> list Task;         (* the tasks of each list *)
  held : bool;                         (* this invocation holds the script lock *)
  reads : nat;                         (* clock reads so far *)
  calls : list Call;                   (* collaborator calls so far *)
  stats : RunStat                      (* the shared [stats] object *)
}.

Definition set_lists (f : list TaskList -> list TaskList) (s : State) : State :=
  mkState (f (lists s)) (tasks s) (held s) (reads s) (calls s) (stats s).

Definition set_tasks (listId : string) (f : list Task -> list Task)
  (s : State) : State :=
  mkState (lists s)
    (fun k => if String.eqb k listId then f (tasks s k) else tasks s k)
    (held s) (reads s) (calls s) (stats s).

Definition set_held (b : bool) (s : State) : State :=
  mkState (lists s) (tasks s) b (reads s) (calls s) (stats s).

Definition set_reads (n : nat) (s : State) : State :=
  mkState (lists s) (tasks s) (held s) n (calls s) (stats s).

Definition record_call (c : Call) (s : State) : State :=
  mkState (lists s) (tasks s) (held s) (reads s) (calls s ++ [c]) (stats s).

Definition set_stats (f : RunStat -> RunStat) (s : State) : State :=
  mkState (lists s) (tasks s) (held s) (reads s) (calls s) (f (stats s)).

(** Field updates of the [stats] object. *)
Definition with_inboxAdds (f : Z -> Z) (r : RunStat) : RunStat :=
  mkRunStat (timestamp r) (f (inboxAdds r)) (listDeleted r) (listCreated r)
    (inboxMoves r) (completedTasks r) (notes r).

Definition with_listDeleted (f : Z -> Z) (r : RunStat) : RunStat :=
  mkRunStat (timestamp r) (inboxAdds r) (f (listDeleted r)) (listCreated r)
    (inboxMoves r) (completedTasks r) (notes r).

Definition with_listCreated (f : Z -> Z) (r : RunStat) : RunStat :=
  mkRunStat (timestamp r) (inboxAdds r) (listDeleted r) (f (listCreated r))
    (inboxMoves r) (completedTasks r) (notes r).

Definition with_inboxMoves (f : Z -> Z) (r : RunStat) : RunStat :=
  mkRunStat (timestamp r) (inboxAdds r) (listDeleted r) (listCreated r)
    (f (inboxMoves r)) (completedTasks r) (notes r).

Definition with_completedTasks
  (f : list CompletedEntry -> list CompletedEntry) (r : RunStat) : RunStat :=
  mkRunStat (timestamp r) (inboxAdds r) (listDeleted r) (listCreated r)
    (inboxMoves r) (f (completedTasks r)) (notes r).

Definition with_notes (n : string) (r : RunStat) : RunStat :=
  mkRunStat (timestamp r) (inboxAdds r) (listDeleted r) (listCreated r)
    (inboxMoves r) (completedTasks r) n.

(** ** Computations: state passing with exceptions

    A thrown exception carries its message; the state reached when it was
    thrown is kept, as the mutations made before a JavaScript [throw] are. *)

Inductive Outcome (A : Type) : Type :=
| Ok (a : A)
| Throw (message : string).

Arguments Ok {A} a.
Arguments Throw {A} message.

Definition M (A : Type) : Type := State -> Outcome A * State.

Definition ret {A} (a : A) : M A := fun s => (Ok a, s).

Definition throw {A} (message : string) : M A := fun s => (Throw message, s).

Definition bind {A B} (m : M A) (k : A -> M B) : M B :=
  fun s =>
    match m s with
    | (Ok a, s1) => k a s1
    | (Throw e, s1) => (Throw e, s1)
    end.

Definition gets {A} (f : State -> A) : M A := fun s => (Ok (f s), s).

Definition modify (f : State -> State) : M unit := fun s => (Ok tt, f s).

Declare Scope js_scope.
Delimit Scope js_scope with js.
Notation "x <- m ;; k" := (bind m (fun x => k))
  (at level 100, m at next level, right associativity) : js_scope.
Notation "m ;;; k" := (bind m (fun _ => k))
  (at level 100, right associativity) : js_scope.
Local Open Scope js_scope.

(** [for (const x of l) body]. *)
Fixpoint forEach {A} (l : list A) (body : A -> M unit) : M unit :=
  match l with
  | [] => ret tt
  | x :: rest => body x ;;; forEach rest body
  end.

(** [try { body } catch (e) { handler } finally { cleanup }]: the cleanup
    runs on every path; an exception of the handler is rethrown after it,
    and an exception of the cleanup replaces any other. *)
Definition try_catch_finally
  (body : M unit) (handler : string -> M unit) (cleanup : M unit) : M unit :=
  fun s =>
    let (r1, s1) := body s in
    let (r2, s2) :=
      match r1 with
      | Ok _ => (r1, s1)
      | Throw e => handler e s1
      end in
    let (r3, s3) := cleanup s2 in
    match r3 with
    | Ok _ => (r2, s3)
    | Throw e => (Throw e, s3)
    end.

(** ** Collaborator calls *)

(** A call that can fail: it is recorded, and either throws the message the
    platform chooses for it or takes effect. *)
Definition service {A} (h : Host) (c : Call) (effect : M A) : M A :=
  fun s =>
    match fault h (List.length (calls s)) with
    | Some message => (Throw message, record_call c s)
    | None => effect (record_call c s)
    end.

(** [new Date()]. *)
Definition newDate (h : Host) : M Z :=
  fun s => (Ok (clock h (reads s)), set_reads (S (reads s)) s).

(** The task the server stores for an inserted resource: a fresh
    identifier, the three fields of the resource, and the defaults of the
    API for the rest (in particular status [needsAction]). *)
Definition stored (newId : string) (r : NewTask) : Task :=
  mkTask newId (new_title r) (Some (new_notes r)) needsAction (new_due r)
    None None None.

(** The task as the server answers it once its notes are replaced. *)
Definition withNotes (newNotes : string) (t : Task) : Task :=
  mkTask (task_id t) (task_title t) (Some newNotes) (task_status t)
    (task_due t) (task_recurrence t) (task_links t) (task_completed t).

(** Replaces the notes of the first task with the given identifier. *)
Fixpoint patch_notes (taskId newNotes : string) (l : list Task)
  : option (Task * list Task) :=
  match l with
  | [] => None
  | t :: rest =>
      if String.eqb (task_id t) taskId
      then Some (withNotes newNotes t, withNotes newNotes t :: rest)
      else
        match patch_notes taskId newNotes rest with
        | Some (t', rest') => Some (t', t :: rest')
        | None => None
        end
  end.

(** services.js: ListService *)
Module ListService.
Section WithHost.
Variable h : Host.

(** [Tasks.Tasklists.list().items || []] *)
Definition listAll : M (list TaskList) :=
  service h TasklistsList (gets lists).

Definition getListByTitle (title : string) : M (option TaskList) :=
  all <- listAll ;;
  ret (List.find (fun l => String.eqb (list_title l) title) all).

(** [Tasks.Tasklists.insert({title})]; the new list is enumerated last. *)
Definition createList (title : string) : M TaskList :=
  service h (TasklistsInsert title)
    (fun s =>
       let l := mkTaskList (freshId h (List.length (calls s))) title in
       (Ok l, set_lists (fun ls => (ls ++ [l])%list) s)).

(** [Tasks.Tasklists.remove(listId)]: the list goes, and its tasks with it. *)
Definition deleteList (listId : string) : M unit :=
  service h (TasklistsRemove listId)
    (modify (fun s =>
       set_tasks listId (fun _ => [])
         (set_lists
            (List.filter (fun l => negb (String.eqb (list_id l) listId))) s))).

End WithHost.
End ListService.

(** services.js: TaskService *)
Module TaskService.
Section WithHost.
Variable h : Host.

Definition listIncompleteTasks (listId : string) : M (list Task) :=
  allTasks <- service h (TasksList listId) (gets (fun s => tasks s listId)) ;;
  ret (List.filter (fun t => Status_eqb (task_status t) needsAction) allTasks).

(** Modelled from the spec: [TaskService.listAllTasks], called by
    processInboxTasks, is not in the sources at hand.  Section 4.3:
    it enumerates all tasks of the list, with no status filter, as one
    flattened sequence. *)
Definition listAllTasks (listId : string) : M (list Task) :=
  service h (TasksList listId) (gets (fun s => tasks s listId)).

(** [Tasks.Tasks.patch({notes}, listId, taskId)], which answers with the
    updated task; patching a task that is not there is an API error. *)
Definition updateNotes (listId taskId newNotes : string) : M Task :=
  service h (TasksPatch listId taskId newNotes)
    (fun s =>
       match patch_notes taskId newNotes (tasks s listId) with
       | Some (t', l') => (Ok t', set_tasks listId (fun _ => l') s)
       | None => (Throw "Task not found.", s)
       end).

Definition is_email (l : Link) : bool := String.eqb (link_type l) "email".

(** The link that [move] looks at: that of the first entry of
    [task.links] of type email, when there is one (lines 91-92). *)
Definition emailLink (task : Task) : option string :=
  match task_links task with
  | Some links =>
      if List.existsb is_email links then
        match List.find is_email links with
        | Some l => Some (or_empty (link_link l))
        | None => None
        end
      else None
  | None => None
  end.

(** The block appended to the notes for an email link. *)
Definition emailBlock (url : string) : string :=
  nl ++ nl ++ "---" ++ nl ++ "Original Email: " ++ url.

(** The title and notes that [move] gives the new task (lines 87-97). *)
Definition annotate (task : Task) : string * string :=
  let newTitle := task_title task in
  let newNotes := or_empty (task_notes task) in
  match emailLink task with
  | Some url =>
      if truthy url && negb (includes newNotes url)
      then (newTitle ++ " [from email]", newNotes ++ emailBlock url)
      else (newTitle, newNotes)
  | None => (newTitle, newNotes)
  end.

(** The resource that [move] inserts (lines 85-104). *)
Definition resourceOf (task : Task) : NewTask :=
  let (newTitle, newNotes) := annotate task in
  mkNewTask newTitle newNotes
    (if truthy_opt (task_due task) then task_due task else None).

(** [Tasks.Tasks.insert(newTask, destListId)]; the new task goes to the top
    of the destination list. *)
Definition insertTask (destListId : string) (r : NewTask) : M unit :=
  service h (TasksInsert destListId r)
    (modify (fun s =>
       set_tasks destListId
         (fun l => stored (freshId h (List.length (calls s))) r :: l) s)).

(** [Tasks.Tasks.remove(sourceListId, taskId)] *)
Definition removeTask (sourceListId taskId : string) : M unit :=
  service h (TasksRemove sourceListId taskId)
    (modify
       (set_tasks sourceListId
          (List.filter (fun t => negb (String.eqb (task_id t) taskId))))).

Definition move (task : Task) (sourceListId destListId : string) : M unit :=
  insertTask destListId (resourceOf task) ;;;
  removeTask sourceListId (task_id task).

End WithHost.
End TaskService.

(** services.js: CompletedTaskService *)
Module CompletedTaskService.
Section WithHost.
Variable h : Host.

(** The pages in which the server hands out a list of tasks
    ([maxResults: 100]); an empty list is one page without items. *)
Fixpoint pages (fuel : nat) (l : list Task) : list (list Task) :=
  match fuel with
  | O => [l]
  | S fuel' =>
      if (List.length l <=? 100)%nat then [l]
      else List.firstn 100 l :: pages fuel' (List.skipn 100 l)
  end.

(** The do-while loop: one [Tasks.Tasks.list] call per page. *)
Fixpoint fetch (listId : string) (ps : list (list Task)) (allTasks : list Task)
  : M (list Task) :=
  match ps with
  | [] => ret allTasks
  | p :: rest =>
      service h (TasksList listId) (ret tt) ;;;
      fetch listId rest (allTasks ++ p)%list
  end.

Definition listCompletedTasks (listId : string) : M (list Task) :=
  l <- gets (fun s => tasks s listId) ;;
  allTasks <- fetch listId (pages (List.length l) l) [] ;;
  ret (List.filter (fun t => Status_eqb (task_status t) completed) allTasks).

Definition getCompletedTasksFromList (listId : string)
  : M (list CompletedEntry) :=
  completedTasks <- listCompletedTasks listId ;;
  ret (List.map (fun t => mkCompletedEntry (task_title t) (task_completed t))
         completedTasks).

End WithHost.
End CompletedTaskService.

(** config.js, lines 196-277: LoggingSheetUtil, as main.js sees it.  Each
    entry point wraps its work on the spreadsheet in a try/catch whose
    handler reports the failure through [GmailApp.sendEmail]; when that
    mail fails too, the exception leaves the entry point.  Towards the
    orchestrator each is a call that returns or throws; what it does to
    the spreadsheet, and the mail of its handler, are inside the call
    (module [Logging] below). *)
Module LoggingSheetUtil.
Section WithHost.
Variable h : Host.

Definition setup : M unit := service h LogSetup (ret tt).

Definition logRun : M unit :=
  row <- gets stats ;;
  service h (LogRun row) (ret tt).

End WithHost.
End LoggingSheetUtil.

(** ** main.js *)

Section Main.
Variable h : Host.

(** The double-quote character of the error message. *)
Definition dq : string := String (ascii_of_nat 34) EmptyString.

Definition pausedNote : string :=
  "Run paused during rollover due to execution timeout.".

Definition failureSubject : string := "Google Tasks Script has failed!".

Definition failureBody (message : string) : string :=
  "The daily task rollover script encountered a fatal error and could not complete."
  ++ nl ++ nl ++ "Error: " ++ message.

Definition migrateIncompleteTasks (sourceListId destListId : string) : M Z :=
  tasksToMove <- TaskService.listIncompleteTasks h sourceListId ;;
  let trackRollover := trackRolloverCount h in
  forEach tasksToMove (fun task =>
    if trackRollover then
      let notes := Rollover.bump (task_notes task) in
      updatedTask <-
        TaskService.updateNotes h sourceListId (task_id task) notes ;;
      TaskService.move h updatedTask sourceListId destListId
    else
      TaskService.move h task sourceListId destListId) ;;;
  ret (Z.of_nat (List.length tasksToMove)).

(** [(new Date() - startTime) / 1000 > timeoutSeconds], on millisecond
    timestamps. *)
Definition timedOut (now startTime : Z) : bool :=
  (1000 * executionTimeoutSeconds h <? now - startTime)%Z.

(** The body of the loop over the stale lists, after the time check
    (lines 94-97). *)
Definition processStaleList (inboxId : string) (staleList : TaskList)
  : M unit :=
  moved <- migrateIncompleteTasks (list_id staleList) inboxId ;;
  modify (set_stats (with_inboxAdds (fun n => (n + moved)%Z))) ;;;
  found <-
    CompletedTaskService.getCompletedTasksFromList h (list_id staleList) ;;
  modify (set_stats (with_completedTasks (fun l => (l ++ found)%list))) ;;;
  ListService.deleteList h (list_id staleList) ;;;
  modify (set_stats (with_listDeleted Z.succ)).

(** The loop over the stale lists, with its [break] (lines 88-98). *)
Fixpoint sweep (inboxId : string) (startTime : Z) (staleLists : list TaskList)
  : M unit :=
  match staleLists with
  | [] => ret tt
  | staleList :: rest =>
      now <- newDate h ;;
      if timedOut now startTime
      then modify (set_stats (with_notes pausedNote))
      else processStaleList inboxId staleList ;;;
           sweep inboxId startTime rest
  end.

Definition todayListFullName (todayTitle : string) : string :=
  dailyListPrefix h ++ " " ++ todayTitle.

Definition isToday (todayTitle : string) (l : TaskList) : bool :=
  String.eqb (list_title l) (todayListFullName todayTitle).

Definition isStale (todayTitle : string) (l : TaskList) : bool :=
  startsWith (list_title l) (dailyListPrefix h)
  && negb (String.eqb (list_title l) (todayListFullName todayTitle)).

Definition rolloverProcess (todayTitle : string) (startTime : Z)
  : M (string * string) :=
  LoggingSheetUtil.setup h ;;;
  inboxList <- ListService.getListByTitle h (inboxListName h) ;;
  match inboxList with
  | None =>
      throw ("Inbox list " ++ dq ++ inboxListName h ++ dq ++ " not found.")
  | Some inbox =>
      let inboxId := list_id inbox in
      allLists <- ListService.listAll h ;;
      let todayList := List.find (isToday todayTitle) allLists in
      let staleLists := List.filter (isStale todayTitle) allLists in
      sweep inboxId startTime staleLists ;;;
      todayList' <-
        match todayList with
        | Some l => ret l
        | None =>
            l <- ListService.createList h (todayListFullName todayTitle) ;;
            modify (set_stats (with_listCreated Z.succ)) ;;;
            ret l
        end ;;
      ret (list_id todayList', inboxId)
  end.

(** The test of line 121 and of line 129 together: the task has a due
    value, no recurrence, and the first ten characters of its due value are
    today's date string. *)
Definition dueToday (todayDateString : string) (task : Task) : bool :=
  if negb (truthy_opt (task_due task)) || truthy_opt (task_recurrence task)
  then false
  else String.eqb (substring 0 10 (or_empty (task_due task))) todayDateString.

Definition processInboxTasks (todayListId inboxId : string) : M unit :=
  inboxTasks <- TaskService.listAllTasks h inboxId ;;
  today <- newDate h ;;
  let todayDateString := formatDate h today "yyyy-MM-dd" in
  forEach inboxTasks (fun task =>
    if negb (truthy_opt (task_due task)) || truthy_opt (task_recurrence task)
    then ret tt
    else
      let taskDueDate := substring 0 10 (or_empty (task_due task)) in
      if String.eqb taskDueDate todayDateString
      then TaskService.move h task inboxId todayListId ;;;
           modify (set_stats (with_inboxMoves Z.succ))
      else ret tt).

Definition tryLock (waitMs : Z) : M bool :=
  fun s =>
    (Ok (lockFree h),
     set_held (held s || lockFree h) (record_call (TryLock waitMs) s)).

Definition releaseLock : M unit :=
  modify (fun s => set_held false (record_call ReleaseLock s)).

Definition freshStats (startTime : Z) : RunStat :=
  mkRunStat startTime 0 0 0 0 [] "".

(** The [try] block of dailyRunner (lines 31-45). *)
Definition runBody (startTime : Z) : M unit :=
  let todayTitle := formatDate h startTime "MMMM d, yyyy" in
  ids <- rolloverProcess todayTitle startTime ;;
  let (todayListId, inboxId) := ids : string * string in
  (if autoMoveDueTasks h
   then processInboxTasks todayListId inboxId
   else ret tt) ;;;
  LoggingSheetUtil.logRun h ;;;
  if (getDay h startTime =? weeklyDigestDay h)%Z
  then service h SendWeeklyDigest (ret tt)
  else ret tt.

(** The [catch] block (lines 48-55). *)
Definition onFatal (message : string) : M unit :=
  modify (set_stats (with_notes ("FATAL: " ++ message))) ;;;
  LoggingSheetUtil.logRun h ;;;
  service h (SendEmail failureSubject (failureBody message)) (ret tt).

Definition dailyRunner : M unit :=
  acquired <- tryLock 30000 ;;
  if negb acquired then ret tt
  else
    startTime <- newDate h ;;
    modify (set_stats (fun _ => freshStats startTime)) ;;;
    try_catch_finally (runBody startTime) onFatal releaseLock.

End Main.

(** ** Vocabulary of the statements *)

(** A character that does not occur in a string. *)
Fixpoint absent (c : ascii) (p : string) : bool :=
  match p with
  | EmptyString => true
  | String x p' => negb (Ascii.eqb x c) && absent c p'
  end.

(** Strings made of digits only. *)
Fixpoint all_digits (s : string) : bool :=
  match s with
  | EmptyString => true
  | String c s' => is_digit c && all_digits s'
  end.

(** The head of a string is not a digit (or there is none). *)
Definition no_digit_ahead (s : string) : bool :=
  match s with
  | EmptyString => true
  | String c _ => negb (is_digit c)
  end.

(** A match found further to the right, reported from the start. *)
Definition shift (pre : string) (m : option (string * string * string))
  : option (string * string * string) :=
  match m with
  | Some (p, ds, r) => Some (pre ++ p, ds, r)
  | None => None
  end.

(** A text in front of which nothing of a fragment can start or end. *)
Definition inert (pre : string) : Prop :=
  forall b,
    Rollover.regex_match (pre ++ b) = shift pre (Rollover.regex_match b) /\
    Rollover.fragments (pre ++ b) = Rollover.fragments b.

(** The separator put before a first fragment. *)
Definition separator (notes : string) : string :=
  if truthy notes then nl ++ nl else "".

(** The task found in the destination list once [TaskService.move] has
    moved [task] there. *)
Definition moved (newId : string) (task : Task) : Task :=
  stored newId (TaskService.resourceOf task).

(** The task found in the destination list once migrateIncompleteTasks,
    with rollover tracking on, has migrated [task]: its notes are patched,
    then the patched task is moved. *)
Definition migrated (newId : string) (task : Task) : Task :=
  moved newId (withNotes (Rollover.bump (task_notes task)) task).

(** The same task with other links attached. *)
Definition withLinks (links : option (list Link)) (t : Task) : Task :=
  mkTask (task_id t) (task_title t) (task_notes t) (task_status t)
    (task_due t) (task_recurrence t) links (task_completed t).

(** ** Vocabulary for runs *)

(** [m] relates every state to the state it leaves, whatever its outcome. *)
Definition keeps {A} (R : State -> State -> Prop) (m : M A) : Prop :=
  forall s, R s (snd (m s)).

(** [m] leaves the observation [f] of the state as it was. *)
Definition stable {A X} (f : State -> X) (m : M A) : Prop :=
  keeps (fun s s' => f s' = f s) m.

(** The calls made between two states all satisfy [P]. *)
Definition emits (P : Call -> Prop) (s s' : State) : Prop :=
  exists cs, calls s' = (calls s ++ cs)%list /\ Forall P cs.

(** The list a call reads or writes, for the calls of the Tasks API that
    work on one existing list. *)
Definition target (c : Call) : option string :=
  match c with
  | TasklistsRemove l => Some l
  | TasksList l => Some l
  | TasksPatch l _ _ => Some l
  | TasksInsert l _ => Some l
  | TasksRemove l _ => Some l
  | _ => None
  end.

(** A call of the Tasks API on one of the lists allowed. *)
Definition onLists (allowed : string -> bool) (c : Call) : Prop :=
  exists l, target c = Some l /\ allowed l = true.

(** The effects between two states are confined to the lists allowed: the
    tasks of the other lists are the same, no other list disappears, no
    list appears, and every call made is a Tasks call on an allowed list. *)
Record confined (allowed : string -> bool) (s s' : State) : Prop :=
  mkConfined {
    confined_tasks : forall l, allowed l = false -> tasks s' l = tasks s l;
    confined_kept :
      forall x, allowed (list_id x) = false -> In x (lists s) -> In x (lists s');
    confined_old : forall x, In x (lists s') -> In x (lists s);
    confined_calls : emits (onLists allowed) s s';
    confined_held : held s' = held s
  }.

(** The lists a sweep over [done] may work on: those, and the inbox. *)
Definition sweepable (inboxId : string) (done : list TaskList) (l : string)
  : bool :=
  String.eqb l inboxId
  || List.existsb (fun x => String.eqb l (list_id x)) done.

(** The titles of the lists created by a sequence of calls. *)
Fixpoint creations (cs : list Call) : list string :=
  match cs with
  | [] => []
  | TasklistsInsert title :: rest => title :: creations rest
  | _ :: rest => creations rest
  end.

(** The platform makes no call fail. *)
Definition faultless (h : Host) : Prop := forall n, fault h n = None.

(** An observation of the state that looks neither at the store of the
    Tasks service nor at the calls made. *)
Record storeBlind {X} (f : State -> X) : Prop := mkStoreBlind {
  blind_call : forall c s, f (record_call c s) = f s;
  blind_tasks : forall l g s, f (set_tasks l g s) = f s;
  blind_lists : forall g s, f (set_lists g s) = f s
}.

(** ** Scenarios, for the examples *)

Module Scenario.

(** A platform with the default script properties, on Thursday
    July 10, 2025, given its clock and its failures. *)
Definition platform (clock : nat -> Z) (fault : nat -> option string) : Host :=
  mkHost "Inbox" "[Daily]" 270 true true 1
    true clock fault
    (fun _ fmt =>
       if String.eqb fmt "yyyy-MM-dd" then "2025-07-10" else "July 10, 2025")
    (fun _ => 4%Z)
    (fun n => "new" ++ numToString (N.of_nat n)).

Definition noFault : nat -> option string := fun _ => None.

(** A clock that advances by one second at each reading. *)
Definition steady : nat -> Z := fun n => (1000 * Z.of_nat n)%Z.

(** A clock that has passed the budget of 270 seconds from its fourth
    reading on. *)
Definition late : nat -> Z :=
  fun n => if (n <=? 2)%nat then (1000 * Z.of_nat n)%Z else 300000%Z.

Definition plain (id title : string) : Task :=
  mkTask id title None needsAction None None None None.

Definition inbox : TaskList := mkTaskList "inbox" "Inbox".
Definition july5 : TaskList := mkTaskList "d5" "[Daily] July 5, 2025".
Definition july6 : TaskList := mkTaskList "d6" "[Daily] July 6, 2025".
Definition july7 : TaskList := mkTaskList "d7" "[Daily] July 7, 2025".
Definition july8 : TaskList := mkTaskList "d8" "[Daily] July 8, 2025".
Definition july9 : TaskList := mkTaskList "d9" "[Daily] July 9, 2025".
Definition july10 : TaskList := mkTaskList "d10" "[Daily] July 10, 2025".

Definition emptyStats : RunStat := mkRunStat 0 0 0 0 0 [] "".

(** Five stale lists with one open task each, and the inbox. *)
Definition backlog : State :=
  mkState [inbox; july5; july6; july7; july8; july9]
    (fun l =>
       if String.eqb l "inbox" then []
       else if String.eqb l "d5" then [plain "a5" "Task of July 5"]
       else if String.eqb l "d6" then [plain "a6" "Task of July 6"]
       else if String.eqb l "d7" then [plain "a7" "Task of July 7"]
       else if String.eqb l "d8" then [plain "a8" "Task of July 8"]
       else if String.eqb l "d9" then [plain "a9" "Task of July 9"]
       else [])
    true 1 [] emptyStats.

(** The platform fails its [n]-th call with the given message. *)
Definition failAt (n : nat) (message : string) : nat -> option string :=
  fun k => if (k =? n)%nat then Some message else None.

(** The same platform when another invocation holds the script lock. *)
Definition busy : Host :=
  mkHost "Inbox" "[Daily]" 270 true true 1
    false steady noFault
    (fun _ fmt =>
       if String.eqb fmt "yyyy-MM-dd" then "2025-07-10" else "July 10, 2025")
    (fun _ => 4%Z)
    (fun n => "new" ++ numToString (N.of_nat n)).

(** The end-to-end scenario of the specification: yesterday's list holds
    one open task and one completed task, and today's list does not exist
    yet. *)
Definition morning : State :=
  mkState [inbox; july9]
    (fun l =>
       if String.eqb l "d9"
       then [plain "a" "Buy milk";
             mkTask "b" "Call Bob" None completed None None None
               (Some "2025-07-09T17:00:00.000Z")]
       else [])
    false 0 [] emptyStats.

(** An inbox on July 10, 2025, beside today's list: a task due late today,
    a recurring task due today, a completed task due today, a task
    without due value and a task due tomorrow. *)
Definition dueLate : Task :=
  mkTask "p" "Pay rent" None needsAction (Some "2025-07-10T23:59:00Z")
    None None None.

Definition recurring : Task :=
  mkTask "q" "Water plants" None needsAction (Some "2025-07-10T00:00:00Z")
    (Some "RRULE:FREQ=DAILY") None None.

Definition finished : Task :=
  mkTask "r" "Send report" (Some "sent") completed
    (Some "2025-07-10T00:00:00Z") None None
    (Some "2025-07-09T18:30:00.000Z").

Definition undated : Task := plain "u" "Some day".

Definition tomorrow : Task :=
  mkTask "v" "Book train" None needsAction (Some "2025-07-11T00:00:00Z")
    None None None.

Definition inboxDay : State :=
  mkState [inbox; july10]
    (fun l =>
       if String.eqb l "inbox"
       then [dueLate; recurring; finished; undated; tomorrow]
       else [])
    true 1 [] emptyStats.

(** The task of testing_utils.js that was rolled over before. *)
Definition rolledBefore : Task :=
  mkTask "w" "Task with existing rollover"
    (Some ("This task has been rolled over before." ++ nl ++ nl
           ++ "Rollover Count: 3"))
    needsAction None None None None.

(** A task made from a mail, with notes of its own. *)
Definition fromMail : Task :=
  mkTask "m" "Reply to Ann" (Some "Before Friday.") needsAction None None
    (Some [mkLink "related" (Some "https://example.org/doc");
           mkLink "email" (Some "https://mail.google.com/mail/#all/18c2")])
    None.

End Scenario.

(** Between two states no list was created and the counter of created
    lists did not move. *)
Record quiet (s s' : State) : Prop := mkQuiet {
  quiet_calls : emits (fun c => creations [c] = []) s s';
  quiet_created : listCreated (stats s') = listCreated (stats s)
}.


(** The calls that the [try] block of dailyRunner can make: neither the
    lock nor the mail is among them. *)
Definition bodyCall (c : Call) : Prop :=
  match c with
  | TryLock _ | ReleaseLock | SendEmail _ _ => False
  | _ => True
  end.

(** The state in which dailyRunner enters its [try] block, having taken
    the lock, read the clock and made the fresh [stats] object. *)
Definition entered (h : Host) (s : State) : State :=
  set_stats (fun _ => freshStats (clock h (reads s)))
    (set_reads (S (reads s))
       (set_held (held s || lockFree h) (record_call (TryLock 30000) s))).

(** What the loop of processInboxTasks does for a task that passes its
    two tests (lines 130-131). *)
Definition relocate (h : Host) (todayListId inboxId : string) (task : Task)
  : M unit :=
  bind (TaskService.move h task inboxId todayListId)
    (fun _ => modify (set_stats (with_inboxMoves Z.succ))).

(** The calls that relocate the tasks [l], in order. *)
Definition relocations (todayListId inboxId : string) (l : list Task)
  : list Call :=
  List.flat_map
    (fun task =>
       [TasksInsert todayListId (TaskService.resourceOf task);
        TasksRemove inboxId (task_id task)]) l.

(** Between two states the task [t] has stayed in the list [listId] and no
    call has removed a task with its identifier from that list. *)
Record spared (listId : string) (t : Task) (s s' : State) : Prop :=
  mkSpared {
    spared_there : In t (tasks s listId) -> In t (tasks s' listId);
    spared_calls :
      emits (fun c => c <> TasksRemove listId (task_id t)) s s'
  }.

(** No other task of the list bears the identifier of [t]. *)
Definition uniqueIn (l : list Task) (t : Task) : Prop :=
  forall t', In t' l -> task_id t' = task_id t -> t' = t.

(** The count that the leftmost fragment of the notes shows; zero for
    notes without fragment. *)
Definition counted (notes : string) : N :=
  match Rollover.regex_match notes with
  | Some (_, ds, _) => parseInt ds
  | None => 0%N
  end.



(** Successive migrations by migrateIncompleteTasks: from [src] to the
    first list of the route, from there to the second, and so on. *)
Fixpoint migrateAlong (h : Host) (src : string) (route : list string)
  : M unit :=
  match route with
  | [] => ret tt
  | dst :: rest =>
      bind (migrateIncompleteTasks h src dst)
        (fun _ => migrateAlong h dst rest)
  end.




(** ** Further vocabulary *)

(** Between two states the list [x] has stayed in the store with the
    tasks it had, and no call has been made on it. *)
Record untouched (x : TaskList) (s s' : State) : Prop := mkUntouched {
  untouched_tasks : tasks s' (list_id x) = tasks s (list_id x);
  untouched_there : In x (lists s) -> In x (lists s');
  untouched_calls : emits (fun c => target c <> Some (list_id x)) s s'
}.

(** The calls that rolloverProcess and processInboxTasks can make: calls
    of the Tasks API and the set-up of the log sheet. *)
Definition storeCall (c : Call) : Prop :=
  match c with
  | TryLock _ | ReleaseLock | SendEmail _ _ | LogRun _ | SendWeeklyDigest =>
      False
  | _ => True
  end.

(** The copy that migrateIncompleteTasks leaves in the destination list,
    with rollover tracking on or off. *)
Definition copyOf (track : bool) (newId : string) (task : Task) : Task :=
  if track then migrated newId task else moved newId task.

(** No two tasks of the list bear the same identifier. *)
Definition distinctIds (l : list Task) : Prop :=
  NoDup (List.map task_id l).

(** Further scenarios. *)
Module Cases.

Definition projects : TaskList := mkTaskList "prj" "Projects".

(** A store with the inbox, yesterday's list, a list of the user's own and
    today's list. *)
Definition desk : State :=
  mkState [Scenario.inbox; Scenario.july9; projects; Scenario.july10]
    (fun l =>
       if String.eqb l "d9"
       then [Scenario.plain "a" "Buy milk";
             mkTask "b" "Call Bob" None completed None None None
               (Some "2025-07-09T17:00:00.000Z");
             Scenario.rolledBefore]
       else if String.eqb l "prj" then [Scenario.plain "k" "Write plan"]
       else if String.eqb l "d10" then [Scenario.plain "n" "Stand-up"]
       else [])
    true 1 [] Scenario.emptyStats.

End Cases.

(** The tasks that do not bear the identifier of [t]. *)
Definition others (t : Task) (l : list Task) : list Task :=
  List.filter (fun y => negb (String.eqb (task_id y) (task_id t))) l.

(** What is left of a list once the tasks [todo] are taken out of it. *)
Definition leftover (todo cur : list Task) : list Task :=
  List.fold_left (fun c t => others t c) todo cur.

(** The body of the loop of migrateIncompleteTasks (lines 150-163). *)
Definition migrateBody (h : Host) (sourceListId destListId : string)
  (task : Task) : M unit :=
  if trackRolloverCount h then
    bind (TaskService.updateNotes h sourceListId (task_id task)
            (Rollover.bump (task_notes task)))
      (fun updatedTask =>
         TaskService.move h updatedTask sourceListId destListId)
  else TaskService.move h task sourceListId destListId.

(** * Configuration, logging, set-up and digest *)

(** ** Numbers read from text *)

Module JsNumber.

(** The white space and line terminators that [parseInt] skips, among the
    code units below 256: TAB, LF, VT, FF, CR, SP and NBSP. *)
Definition is_space (c : ascii) : bool :=
  let n := nat_of_ascii c in
  ((9 <=? n) && (n <=? 13) || (n =? 32) || (n =? 160))%nat.

Fixpoint trimStart (s : string) : string :=
  match s with
  | EmptyString => EmptyString
  | String c s' => if is_space c then trimStart s' else s
  end.

(** An optional sign at the head: whether it is a minus, and what follows. *)
Definition sign (s : string) : bool * string :=
  match s with
  | String c r =>
      if Ascii.eqb c "-" then (true, r)
      else if Ascii.eqb c "+" then (false, r)
      else (false, s)
  | EmptyString => (false, s)
  end.

(** [parseInt(s, 10)]: leading white space, an optional sign, then the
    longest run of decimal digits; whatever follows is ignored.  [None] is
    NaN, the answer when there is no digit.  The value is kept exact. *)
Definition parseInt (s : string) : option Z :=
  let (negative, body) := sign (trimStart s) in
  let (ds, _) := span_digits body in
  match ds with
  | EmptyString => None
  | String _ _ =>
      let n := Z.of_N (JsString.parseInt ds) in
      Some (if negative then (- n)%Z else n)
  end.

(** [String(v)] for a value that is a string or [null]. *)
Definition toString (v : option string) : string :=
  match v with
  | Some s => s
  | None => "null"
  end.

(** [x || d] on a number: zero and NaN are falsy. *)
Definition orElse (x : option Z) (d : Z) : Z :=
  match x with
  | Some z => if (z =? 0)%Z then d else z
  | None => d
  end.

(** [String(z)], also [`${z}`] in a template, for an integer. *)
Definition toText (z : Z) : string :=
  if (z <? 0)%Z then "-" ++ numToString (Z.to_N (- z))
  else numToString (Z.to_N z).

End JsNumber.

(** ** config.js: the script properties *)

(** The property store of the script: [getProperty] answers [null] for a
    key that is not set. *)
Definition ScriptProperties : Type := string -> option string.

Definition setProperty (key value : string) (p : ScriptProperties)
  : ScriptProperties :=
  fun k => if String.eqb k key then Some value else p k.

(** [v || d] on a string that may be [null]. *)
Definition orString (v : option string) (d : string) : string :=
  if truthy_opt v then or_empty v else d.

(** [v === text] and [v !== text] on a string that may be [null]. *)
Definition strictEq (v : option string) (text : string) : bool :=
  match v with
  | Some s => String.eqb s text
  | None => false
  end.

(** The getters declared as functions (lines 129-186). *)
Module Config.
Section WithProperties.
Variable p : ScriptProperties.

Definition getProperty (key : string) : option string := p key.

Definition getInboxListName : string :=
  orString (getProperty "INBOX_LIST_NAME") "Inbox".

Definition getInboxListId : option string :=
  if truthy_opt (getProperty "INBOX_LIST_ID")
  then getProperty "INBOX_LIST_ID" else None.

Definition getDailyListPrefix : string :=
  orString (getProperty "DAILY_LIST_PREFIX") "[Daily]".

Definition getLocalTimeZone (scriptTimeZone : string) : string :=
  orString (getProperty "LOCAL_TIME_ZONE") scriptTimeZone.

Definition getDailyTriggerHour : option Z :=
  JsNumber.parseInt (orString (getProperty "DAILY_TRIGGER_HOUR") "0").

Definition getLogSheetId : option string := getProperty "LOG_SHEET_ID".

Definition getWeeklyDigestDay : option Z :=
  JsNumber.parseInt (orString (getProperty "WEEKLY_DIGEST_DAY") "1").

Definition getWeeklyDigestHour : option Z :=
  JsNumber.parseInt (orString (getProperty "WEEKLY_DIGEST_HOUR") "9").

Definition getAddSummaryTask : bool :=
  negb (strictEq (getProperty "ADD_SUMMARY_TASK") "false").

Definition getTrackRolloverCount : bool :=
  negb (strictEq (getProperty "TRACK_ROLLOVER_COUNT") "false").

Definition getExecutionTimeoutSeconds : option Z :=
  JsNumber.parseInt (orString (getProperty "EXECUTION_TIMEOUT_SECONDS") "270").

Definition getAutoMoveDueTasks : bool :=
  negb (strictEq (getProperty "AUTO_MOVE_DUE_TASKS") "false").

End WithProperties.
End Config.

(** The getters declared as arrow functions, beside [setup] (lines
    69-120). *)
Module SetupConfig.
Section WithProperties.
Variable p : ScriptProperties.

Definition getProperties : ScriptProperties := p.

Definition getInboxListName : string :=
  orString (getProperties "INBOX_LIST_NAME") "Inbox".

Definition getDailyListPrefix : string :=
  orString (getProperties "DAILY_LIST_PREFIX") "[Daily]".

Definition getLocalTimeZone (scriptTimeZone : string) : string :=
  orString (getProperties "LOCAL_TIME_ZONE") scriptTimeZone.

Definition getDailyTriggerHour : Z :=
  JsNumber.orElse
    (JsNumber.parseInt (JsNumber.toString (getProperties "DAILY_TRIGGER_HOUR")))
    2.

Definition getLogSheetId : option string := getProperties "LOG_SHEET_ID".

Definition getWeeklyDigestDay : Z :=
  JsNumber.orElse
    (JsNumber.parseInt (JsNumber.toString (getProperties "WEEKLY_DIGEST_DAY")))
    1.

Definition getTrackRolloverCount : bool :=
  let prop := getProperties "TRACK_ROLLOVER_COUNT" in
  match prop with
  | None => true
  | Some _ => strictEq prop "true"
  end.

Definition getExecutionTimeoutSeconds : Z :=
  JsNumber.orElse
    (JsNumber.parseInt
       (JsNumber.toString (getProperties "EXECUTION_TIMEOUT_SECONDS")))
    270.

End WithProperties.
End SetupConfig.

(** ** The spreadsheet, the triggers and the mail of the script *)

Inductive Cell : Type :=
| DateCell (ms : Z)
| NumberCell (z : Z)
| TextCell (text : string).

(** A tab of a spreadsheet: its name and its rows with content. *)
Record Sheet : Type := mkSheet {
  sheet_name : string;
  sheet_rows : list (list Cell)
}.

Inductive Schedule : Type :=
| EveryDays (days : Z) (atHour : Z)
| OtherSchedule.

Record Trigger : Type := mkTrigger {
  trigger_uid : string;
  handlerFunction : string;
  trigger_schedule : Schedule
}.

(** A mail to the effective user of the script: subject, plain body and,
    when the call gives one, the HTML body. *)
Record Mail : Type := mkMail {
  mail_subject : string;
  mail_body : string;
  mail_htmlBody : option string
}.

(** The services the script uses beside Google Tasks.  A spreadsheet is the
    list of its tabs, first tab first; for an identifier that cannot be
    opened the store holds the message of the exception that
    [SpreadsheetApp.openById] throws.  The other calls are taken to
    answer. *)
Record Office : Type := mkOffice {
  scriptProperties : ScriptProperties;
  spreadsheets : string -> list Sheet + string;
  projectTriggers : list Trigger;
  outbox : list Mail
}.

Definition openById (id : string) (o : Office) : list Sheet + string :=
  spreadsheets o id.

Definition save (id : string) (ss : list Sheet) (o : Office) : Office :=
  mkOffice (scriptProperties o)
    (fun k => if String.eqb k id then inl ss else spreadsheets o k)
    (projectTriggers o) (outbox o).

Definition sendEmail (subject body : string) (o : Office) : Office :=
  mkOffice (scriptProperties o) (spreadsheets o) (projectTriggers o)
    (outbox o ++ [mkMail subject body None]).

Definition set_properties (f : ScriptProperties -> ScriptProperties)
  (o : Office) : Office :=
  mkOffice (f (scriptProperties o)) (spreadsheets o) (projectTriggers o)
    (outbox o).

Definition set_triggers (f : list Trigger -> list Trigger) (o : Office)
  : Office :=
  mkOffice (scriptProperties o) (spreadsheets o) (f (projectTriggers o))
    (outbox o).

(** [ss.getSheetByName(name)]. *)
Definition getSheetByName (name : string) (ss : list Sheet) : option Sheet :=
  List.find (fun sh => String.eqb (sheet_name sh) name) ss.

(** [ss.insertSheet(name, 0)]: a new, empty tab in first position. *)
Definition insertSheet (name : string) (ss : list Sheet) : list Sheet :=
  mkSheet name [] :: ss.

(** [sheet.appendRow(row)] on the tab that [getSheetByName] finds. *)
Fixpoint appendRow (name : string) (row : list Cell) (ss : list Sheet)
  : list Sheet :=
  match ss with
  | [] => []
  | sh :: rest =>
      if String.eqb (sheet_name sh) name
      then mkSheet (sheet_name sh) (sheet_rows sh ++ [row]) :: rest
      else sh :: appendRow name row rest
  end.

(** logging.js (lines 196-277): what the two entry points of
    LoggingSheetUtil do to the spreadsheet and to the mail.  The
    orchestration of main.js, above, sees them as calls only. *)
Module Logging.

Definition SHEET_NAME : string := "Runs".

Definition HEADER_ROW : list Cell :=
  [TextCell "Timestamp"; TextCell "InboxAdds"; TextCell "ListDeleted";
   TextCell "ListCreated"; TextCell "Notes"].

Definition setupError (message : string) : string :=
  "Failed to set up logging sheet. Please check that LOG_SHEET_ID is valid. Error: "
  ++ message.

Definition setup (o : Office) : Office :=
  let sheetId := Config.getLogSheetId (scriptProperties o) in
  if negb (truthy_opt sheetId) then o
  else
    match openById (or_empty sheetId) o with
    | inr message =>
        sendEmail "GTaskManager Setup Error" (setupError message) o
    | inl ss =>
        match getSheetByName SHEET_NAME ss with
        | Some _ => o
        | None =>
            save (or_empty sheetId)
              (appendRow SHEET_NAME HEADER_ROW (insertSheet SHEET_NAME ss)) o
        end
    end.

(** The five properties that logRun reads from its argument; each may be
    missing from the object. *)
Record Entry : Type := mkEntry {
  entry_timestamp : option Z;
  entry_inboxAdds : option Z;
  entry_listDeleted : option Z;
  entry_listCreated : option Z;
  entry_notes : option string
}.

(** The [stats] object of main.js, as logRun reads it. *)
Definition entryOf (r : RunStat) : Entry :=
  mkEntry (Some (timestamp r)) (Some (inboxAdds r)) (Some (listDeleted r))
    (Some (listCreated r)) (Some (notes r)).

(** The row that logRun appends (lines 251-266); [now] is [new Date()]. *)
Definition rowData (stats : Entry) (now : Z) : list Cell :=
  [DateCell (match entry_timestamp stats with Some t => t | None => now end);
   NumberCell (JsNumber.orElse (entry_inboxAdds stats) 0);
   NumberCell (JsNumber.orElse (entry_listDeleted stats) 0);
   NumberCell (JsNumber.orElse (entry_listCreated stats) 0);
   TextCell (orString (entry_notes stats) "")].

Definition loggingFailure (message : string) : string :=
  "The script could not write to the log sheet." ++ nl ++ nl ++ "Error: "
  ++ message.

Definition logRun (stats : Entry) (now : Z) (o : Office) : Office :=
  let sheetId := Config.getLogSheetId (scriptProperties o) in
  if negb (truthy_opt sheetId) then o
  else
    match openById (or_empty sheetId) o with
    | inr message =>
        sendEmail "GTaskManager Logging Failure" (loggingFailure message) o
    | inl ss =>
        match getSheetByName SHEET_NAME ss with
        | None => o
        | Some _ =>
            save (or_empty sheetId)
              (appendRow SHEET_NAME (rowData stats now) ss) o
        end
    end.

End Logging.

(** config.js: [setup] (lines 12-63). *)
Module Setup.

(** What the platform chooses when [setup] creates things: the identifier
    and the initial tabs of a new spreadsheet, the identifier of a new
    trigger. *)
Record Fresh : Type := mkFresh {
  newSpreadsheetId : string;
  newSpreadsheetTabs : list Sheet;
  newTriggerId : string
}.

(** [ScriptApp.deleteTrigger(trigger)]. *)
Definition deleteTrigger (trigger : Trigger) (o : Office) : Office :=
  set_triggers
    (List.filter
       (fun t => negb (String.eqb (trigger_uid t) (trigger_uid trigger)))) o.

(** The logging sheet after the check of lines 14-28: the configured
    identifier, or [null] when it is missing or cannot be opened. *)
Definition usableSheetId (o : Office) : option string :=
  let sheetId := SetupConfig.getLogSheetId (scriptProperties o) in
  if truthy_opt sheetId then
    match openById (or_empty sheetId) o with
    | inl _ => sheetId
    | inr _ => None
    end
  else sheetId.

(** The logging sheet is settled (lines 30-37): without a usable
    identifier a spreadsheet is created and its identifier stored. *)
Definition settled (f : Fresh) (o : Office) : Office :=
  if negb (truthy_opt (usableSheetId o)) then
    set_properties (setProperty "LOG_SHEET_ID" (newSpreadsheetId f))
      (save (newSpreadsheetId f) (newSpreadsheetTabs f) o)
  else o.

(** The clean-up loop of lines 40-46, over the triggers listed in [l]. *)
Definition purge (l : list Trigger) (o : Office) : Office :=
  List.fold_left
    (fun acc trigger =>
       if String.eqb (handlerFunction trigger) "dailyRunner"
       then deleteTrigger trigger acc else acc) l o.

Definition setup (f : Fresh) (o : Office) : Office :=
  let o1 := settled f o in
  let existingTriggers := projectTriggers o1 in
  let o2 := purge existingTriggers o1 in
  let triggerHour := SetupConfig.getDailyTriggerHour (scriptProperties o2) in
  set_triggers
    (fun ts =>
       (ts ++ [mkTrigger (newTriggerId f) "dailyRunner"
                 (EveryDays 1 triggerHour)])%list) o2.

End Setup.


(** ** Vocabulary and cases for the office *)

(** A trigger of dailyRunner. *)
Definition isDaily (t : Trigger) : bool :=
  String.eqb (handlerFunction t) "dailyRunner".

(** A trigger that shares its identifier with a trigger of dailyRunner
    listed in [l]. *)
Definition purged (l : list Trigger) (t : Trigger) : bool :=
  List.existsb
    (fun d => isDaily d && String.eqb (trigger_uid t) (trigger_uid d)) l.

Module Desk.

Definition props : ScriptProperties :=
  fun k => if String.eqb k "LOG_SHEET_ID" then Some "book" else None.

Definition runs : Sheet :=
  mkSheet "Runs"
    [Logging.HEADER_ROW;
     [DateCell 1000; NumberCell 2; NumberCell 1; NumberCell 1; TextCell ""]].

Definition book : list Sheet := [mkSheet "Sheet1" []; runs].

Definition office : Office :=
  mkOffice props
    (fun k => if String.eqb k "book" then inl book else inr "No item with the given ID could be found.")
    [mkTrigger "t1" "dailyRunner" (EveryDays 1 2);
     mkTrigger "t2" "sendReport" OtherSchedule;
     mkTrigger "t3" "dailyRunner" (EveryDays 1 5)]
    [].

Definition run : RunStat :=
  mkRunStat 90000 3 1 1 2 [mkCompletedEntry "Done" (Some "2025-07-09")] "".

End Desk.

Module Fresh.

Definition first : Setup.Fresh :=
  Setup.mkFresh "logs" [mkSheet "Sheet1" []] "t4".

End Fresh.

(** ** Vocabulary for the inbox and for runs under failures *)

(** Between two states the list [listId] has only received tasks: the
    tasks it had are all there, below the new ones, and no list with that
    identifier has left the store. *)
Record grown (listId : string) (s s' : State) : Prop := mkGrown {
  grown_tasks :
    exists added, tasks s' listId = (added ++ tasks s listId)%list;
  grown_there :
    forall x, list_id x = listId -> In x (lists s) -> In x (lists s')
}.

(** The same platform and configuration, with no call failing. *)
Definition calm (h : Host) : Host :=
  mkHost (inboxListName h) (dailyListPrefix h) (executionTimeoutSeconds h)
    (autoMoveDueTasks h) (trackRolloverCount h) (weeklyDigestDay h)
    (lockFree h) (clock h) (fun _ => None) (formatDate h) (getDay h)
    (freshId h).

(** A store whose daily lists are empty but for the list [src], which
    holds the task [t]. *)
Definition carried (src : string) (t : Task) : State :=
  mkState [Scenario.july7; Scenario.july8; Scenario.july9; Scenario.inbox]
    (fun l => if String.eqb l src then [t] else [])
    true 1 [] Scenario.emptyStats.

(** A platform on which the calls [n] and [m] fail. *)
Definition failingTwice (n m : nat) : Host :=
  Scenario.platform Scenario.steady
    (fun k =>
       if (k =? n)%nat || (k =? m)%nat then Some "Service unavailable"
       else None).

(** A platform on which the [n]-th call fails. *)
Definition failing (n : nat) : Host :=
  Scenario.platform Scenario.steady (Scenario.failAt n "Service unavailable").

(** ** digest.js: the weekly digest *)

Module DigestMailer.

(** What sendWeeklyDigest takes from the platform: the clock, the calendar
    of the script, the formatter and the reading of a date from text. *)
Record Calendar : Type := mkCalendar {
  nowAt : nat -> Z;                  (* the n-th [new Date()] of the call *)
  addDays : Z -> Z -> Z;             (* [d.setDate(d.getDate() + k)] *)
  format : Z -> string -> string;    (* Utilities.formatDate, configured zone *)
  dateOfText : string -> option Z    (* [new Date(text)]; None: invalid date *)
}.

(** [row[k]] in the values of the data range, where a cell without content
    reads as the empty text. *)
Definition cellAt (k : nat) (row : list Cell) : Cell :=
  List.nth k row (TextCell "").

(** The time value of [new Date(cell)]. *)
Definition timeOf (cal : Calendar) (c : Cell) : option Z :=
  match c with
  | DateCell ms => Some ms
  | NumberCell z => Some z
  | TextCell text => dateOfText cal text
  end.

(** [parseInt(cell, 10) || 0]; the text of a date starts with no digit. *)
Definition countOf (c : Cell) : Z :=
  JsNumber.orElse
    match c with
    | NumberCell z => JsNumber.parseInt (JsNumber.toText z)
    | TextCell text => JsNumber.parseInt text
    | DateCell _ => None
    end 0.

(** [cell || '']. *)
Definition noteOf (c : Cell) : Cell :=
  match c with
  | TextCell EmptyString => TextCell ""
  | NumberCell 0 => TextCell ""
  | _ => c
  end.

Record DayStat : Type := mkDayStat {
  rolledOver : Z;
  note : Cell
}.

(** One turn of the loop over the rows (lines 40-49). *)
Definition collectRow (cal : Calendar) (sevenDaysAgo : Z)
  (dailyStats : string -> option DayStat) (row : list Cell)
  : string -> option DayStat :=
  match timeOf cal (cellAt 0 row) with
  | Some timestamp =>
      if (sevenDaysAgo <=? timestamp)%Z then
        let dateString := format cal timestamp "yyyy-MM-dd" in
        fun k =>
          if String.eqb k dateString
          then Some (mkDayStat (countOf (cellAt 1 row)) (noteOf (cellAt 4 row)))
          else dailyStats k
      else dailyStats
  | None => dailyStats
  end.

(** The loop over the rows, from the second row on (lines 36-50). *)
Definition collect (cal : Calendar) (sevenDaysAgo : Z)
  (data : list (list Cell)) : string -> option DayStat :=
  List.fold_left (collectRow cal sevenDaysAgo) (List.tl data) (fun _ => None).

Definition tableRow (dayName count : string) : string :=
  "<tr><td style=" ++ dq ++ "padding: 8px; border-bottom: 1px solid #ddd;"
  ++ dq ++ ">" ++ dayName ++ "</td><td style=" ++ dq
  ++ "padding: 8px; border-bottom: 1px solid #ddd; text-align: center;"
  ++ dq ++ ">" ++ count ++ "</td></tr>".

(** The loop [for (let i = 0; i > -7; i--)] (lines 53-67); [reads] counts
    the clock reads made so far. *)
Fixpoint table (cal : Calendar) (dailyStats : string -> option DayStat)
  (fuel : nat) (i : Z) (reads : nat) (tableRows : string) : string :=
  match fuel with
  | O => tableRows
  | S fuel' =>
      if (i >? -7)%Z then
        let day := addDays cal (nowAt cal reads) i in
        let dateString := format cal day "yyyy-MM-dd" in
        let dayName := format cal day "EEEE, MMMM d" in
        let rolledOverCount :=
          match dailyStats dateString with
          | Some stats => rolledOver stats
          | None => 0%Z
          end in
        table cal dailyStats fuel' (i - 1) (S reads)
          (tableRow dayName (JsNumber.toText rolledOverCount) ++ tableRows)
      else tableRows
  end.

Definition pageHead : string :=
  nl ++ "        <html>"
  ++ nl ++ "          <body style=" ++ dq ++ "font-family: sans-serif; margin: 20px;" ++ dq ++ ">"
  ++ nl ++ "            <h2>GTaskManager Weekly Summary</h2>"
  ++ nl ++ "            <p>Here is your daily breakdown of rolled-over tasks for the past 7 days:</p>"
  ++ nl ++ "            <table style=" ++ dq ++ "width: 100%; border-collapse: collapse;" ++ dq ++ ">"
  ++ nl ++ "              <thead>"
  ++ nl ++ "                <tr>"
  ++ nl ++ "                  <th style=" ++ dq ++ "padding: 12px; border-bottom: 2px solid #333; text-align: left;" ++ dq ++ ">Day</th>"
  ++ nl ++ "                  <th style=" ++ dq ++ "padding: 12px; border-bottom: 2px solid #333; text-align: center;" ++ dq ++ ">Tasks Rolled Over</th>"
  ++ nl ++ "                </tr>"
  ++ nl ++ "              </thead>"
  ++ nl ++ "              <tbody>"
  ++ nl ++ "                ".

Definition pageFoot : string :=
  nl ++ "              </tbody>"
  ++ nl ++ "            </table>"
  ++ nl ++ "            <p style=" ++ dq ++ "font-size: 12px; color: #777; margin-top: 20px;" ++ dq ++ ">This is an automated report from your GTaskManager script.</p>"
  ++ nl ++ "          </body>"
  ++ nl ++ "        </html>"
  ++ nl ++ "      ".

Definition digestFailure (message : string) : string :=
  "The script could not generate or send the weekly digest." ++ nl ++ nl
  ++ "Error: " ++ message.

(** [GmailApp.sendEmail(recipient, subject, '', { htmlBody })]. *)
Definition sendHtml (subject htmlBody : string) (o : Office) : Office :=
  mkOffice (scriptProperties o) (spreadsheets o) (projectTriggers o)
    (outbox o ++ [mkMail subject "" (Some htmlBody)]).

Definition sendWeeklyDigest (cal : Calendar) (o : Office) : Office :=
  let sheetId := Config.getLogSheetId (scriptProperties o) in
  if negb (truthy_opt sheetId) then o
  else
    match openById (or_empty sheetId) o with
    | inr message =>
        sendEmail "GTaskManager Digest Failure" (digestFailure message) o
    | inl ss =>
        match getSheetByName "Runs" ss with
        | None => o
        | Some sheet =>
            let data := sheet_rows sheet in
            let sevenDaysAgo := addDays cal (nowAt cal 0) (-7) in
            let dailyStats := collect cal sevenDaysAgo data in
            let tableRows := table cal dailyStats 7 0 1 "" in
            sendHtml "GTaskManager - Weekly Digest"
              (pageHead ++ tableRows ++ pageFoot) o
        end
    end.

End DigestMailer.

(** ** Vocabulary for the digest *)

(** The row was logged on the day [dateString], not before [since]. *)
Definition loggedOn (cal : DigestMailer.Calendar) (since : Z)
  (dateString : string) (row : list Cell) : bool :=
  match DigestMailer.timeOf cal (DigestMailer.cellAt 0 row) with
  | Some timestamp =>
      (since <=? timestamp)%Z
      && String.eqb dateString
           (DigestMailer.format cal timestamp "yyyy-MM-dd")
  | None => false
  end.

(** The count that the digest shows for the day [dateString]: that of the
    last row logged on that day, zero without one. *)
Definition shownFor (cal : DigestMailer.Calendar) (since : Z)
  (body : list (list Cell)) (dateString : string) : Z :=
  match List.find (loggedOn cal since dateString) (List.rev body) with
  | Some row => DigestMailer.countOf (DigestMailer.cellAt 1 row)
  | None => 0%Z
  end.

(** The day that is [k] days before the day of the call, as the loop of
    the table computes it. *)
Definition dayBefore (cal : DigestMailer.Calendar) (k : nat) : Z :=
  DigestMailer.addDays cal (DigestMailer.nowAt cal (S k)) (- Z.of_nat k).

(** The row of the table for a day. *)
Definition rowFor (cal : DigestMailer.Calendar) (since : Z)
  (body : list (list Cell)) (day : Z) : string :=
  DigestMailer.tableRow (DigestMailer.format cal day "EEEE, MMMM d")
    (JsNumber.toText
       (shownFor cal since body
          (DigestMailer.format cal day "yyyy-MM-dd"))).

(** A calendar for the examples: time in days, a date string per day. *)
Module Week.

Definition calendar : DigestMailer.Calendar :=
  DigestMailer.mkCalendar (fun _ => 20%Z) (fun t k => (t + k)%Z)
    (fun t pattern => pattern ++ "/" ++ JsNumber.toText t)
    (fun _ => None).

Definition runs : Sheet :=
  mkSheet "Runs"
    [Logging.HEADER_ROW;
     [DateCell 12; NumberCell 9; NumberCell 1; NumberCell 1; TextCell ""];
     [DateCell 18; NumberCell 2; NumberCell 1; NumberCell 1; TextCell ""];
     [DateCell 18; NumberCell 5; NumberCell 0; NumberCell 0; TextCell ""]].

Definition office : Office :=
  mkOffice Desk.props (fun _ => inl [runs]) [] [].

End Week.

(** * Properties *)

(** ** Strings *)

Section StringFacts.

Lemma append_nil_r (s : string) : s ++ "" = s.
Proof. induction s as [|c s IH]; simpl; [reflexivity | now rewrite IH]. Qed.

Lemma append_assoc (a b c : string) : (a ++ b) ++ c = a ++ (b ++ c).
Proof. induction a as [|x a IH]; simpl; [reflexivity | now rewrite IH]. Qed.

Lemma strip_prefix_app (p r : string) : strip_prefix p (p ++ r) = Some r.
Proof.
  induction p as [|c p IH]; simpl; [reflexivity|].
  now rewrite Ascii.eqb_refl.
Qed.

Lemma startsWith_app (p r : string) : startsWith (p ++ r) p = true.
Proof. unfold startsWith. now rewrite strip_prefix_app. Qed.

Lemma includes_here (s u : string) :
  startsWith s u = true -> includes s u = true.
Proof. intros H. destruct s; simpl; now rewrite H. Qed.

Lemma includes_later (c : ascii) (s u : string) :
  includes s u = true -> includes (String c s) u = true.
Proof. intros H. simpl. rewrite H. apply orb_true_r. Qed.

Lemma includes_app_mid (a u b : string) : includes (a ++ u ++ b) u = true.
Proof.
  induction a as [|c a IH]; cbn [append].
  - apply includes_here, startsWith_app.
  - now apply includes_later.
Qed.

Lemma includes_app_r (a u : string) : includes (a ++ u) u = true.
Proof.
  rewrite <- (append_nil_r u) at 1. apply includes_app_mid.
Qed.

Lemma strip_prefix_barrier (c : ascii) (p a b : string) :
  absent c p = true ->
  strip_prefix p (a ++ String c b) =
  match strip_prefix p a with
  | Some r => Some (r ++ String c b)
  | None => None
  end.
Proof.
  revert a. induction p as [|x p IH]; intros a Hp; simpl in *.
  - reflexivity.
  - apply andb_prop in Hp. destruct Hp as [Hx Hp].
    destruct a as [|y a]; simpl.
    + apply negb_true_iff in Hx. now rewrite Hx.
    + destruct (Ascii.eqb x y); [now apply IH | reflexivity].
Qed.

Lemma span_digits_barrier (c : ascii) (r b : string) :
  is_digit c = false ->
  span_digits (r ++ String c b) =
  (fst (span_digits r), snd (span_digits r) ++ String c b).
Proof.
  intros Hc. induction r as [|d r IH]; simpl.
  - now rewrite Hc.
  - destruct (is_digit d); [|reflexivity].
    rewrite IH. now destruct (span_digits r).
Qed.

Lemma span_digits_run (ds rest : string) :
  all_digits ds = true -> no_digit_ahead rest = true ->
  span_digits (ds ++ rest) = (ds, rest).
Proof.
  intros Hd Hr. induction ds as [|d ds IH]; simpl in *.
  - destruct rest as [|c rest]; simpl in *; [reflexivity|].
    apply negb_true_iff in Hr. now rewrite Hr.
  - apply andb_prop in Hd. destruct Hd as [Hd Hds].
    now rewrite Hd, IH.
Qed.

Lemma all_digits_uint (d : Decimal.uint) :
  all_digits (NilEmpty.string_of_uint d) = true.
Proof. induction d; simpl; auto. Qed.

Lemma to_uint_not_nil (n : N) : N.to_uint n <> Decimal.Nil.
Proof.
  destruct n as [|p]; simpl; [discriminate|].
  apply DecimalPos.Unsigned.to_uint_nonnil.
Qed.

Lemma numToString_digits (n : N) : all_digits (numToString n) = true.
Proof.
  unfold numToString, NilZero.string_of_uint.
  destruct (N.to_uint n); try reflexivity; apply all_digits_uint.
Qed.

Lemma numToString_not_empty (n : N) : numToString n <> "".
Proof.
  unfold numToString, NilZero.string_of_uint.
  destruct (N.to_uint n); simpl; discriminate.
Qed.

Lemma parseInt_numToString (n : N) : parseInt (numToString n) = n.
Proof.
  unfold parseInt, numToString.
  rewrite NilZero.usu by apply to_uint_not_nil.
  apply DecimalN.Unsigned.of_to.
Qed.

End StringFacts.

(** ** The rollover fragment *)

Module RolloverFacts.
Import Rollover.

Lemma regex_match_cons (c : ascii) (s : string) :
  regex_match (String c s) =
  match match_here (String c s) with
  | Some (ds, rest) => Some ("", ds, rest)
  | None => shift (String c "") (regex_match s)
  end.
Proof.
  simpl regex_match. destruct (match_here (String c s)) as [[ds rest]|].
  - reflexivity.
  - destruct (regex_match s) as [[[p ds] r]|]; reflexivity.
Qed.

Lemma fragments_cons (c : ascii) (s : string) :
  fragments (String c s) =
  (match match_here (String c s) with Some _ => 1 | None => 0 end
   + fragments s)%nat.
Proof. reflexivity. Qed.

Lemma match_here_barrier (c : ascii) (a b : string) :
  absent c label = true -> is_digit c = false ->
  match_here (a ++ String c b) =
  match match_here a with
  | Some (ds, r) => Some (ds, r ++ String c b)
  | None => None
  end.
Proof.
  intros Hc Hd. unfold match_here.
  rewrite strip_prefix_barrier by assumption.
  destruct (strip_prefix label a) as [r|]; [|reflexivity].
  rewrite span_digits_barrier by assumption.
  destruct (span_digits r) as [ds r']. simpl.
  destruct ds; reflexivity.
Qed.

Lemma match_here_other (c : ascii) (s : string) :
  Ascii.eqb "R" c = false -> match_here (String c s) = None.
Proof.
  intros H. unfold match_here.
  change (strip_prefix label (String c s))
    with (if Ascii.eqb "R" c then strip_prefix "ollover Count: " s else None).
  now rewrite H.
Qed.

Lemma absent_not_R (c : ascii) :
  absent c label = true -> Ascii.eqb "R" c = false.
Proof.
  unfold label. simpl. intros H. apply andb_prop in H.
  destruct H as [H _]. now apply negb_true_iff in H.
Qed.

Lemma digit_not_R (c : ascii) : is_digit c = true -> Ascii.eqb "R" c = false.
Proof.
  intros H. destruct (Ascii.eqb_spec "R"%char c) as [<-|]; [|reflexivity].
  discriminate H.
Qed.

Lemma fragments_skip (c : ascii) (s : string) :
  Ascii.eqb "R" c = false -> fragments (String c s) = fragments s.
Proof. intros H. rewrite fragments_cons, match_here_other; auto. Qed.

Lemma regex_match_skip (c : ascii) (s : string) :
  Ascii.eqb "R" c = false ->
  regex_match (String c s) = shift (String c "") (regex_match s).
Proof. intros H. rewrite regex_match_cons, match_here_other; auto. Qed.

Lemma regex_match_none_inv (c : ascii) (s : string) :
  regex_match (String c s) = None ->
  match_here (String c s) = None /\ regex_match s = None.
Proof.
  rewrite regex_match_cons.
  destruct (match_here (String c s)) as [[ds rest]|]; [discriminate|].
  destruct (regex_match s) as [[[p ds] r]|]; [discriminate|auto].
Qed.

Lemma shift_shift (a b : string) m : shift a (shift b m) = shift (a ++ b) m.
Proof.
  destruct m as [[[p ds] r]|]; simpl; [|reflexivity].
  now rewrite append_assoc.
Qed.

Lemma inert_empty : inert "".
Proof.
  intros b. split; [|reflexivity].
  simpl. destruct (regex_match b) as [[[p ds] r]|]; reflexivity.
Qed.

(** A text without fragment, closed by a character that is neither a digit
    nor a character of the label, is inert. *)
Lemma inert_barrier (c : ascii) (a : string) :
  absent c label = true -> is_digit c = false ->
  regex_match a = None ->
  inert (a ++ String c "").
Proof.
  intros Hc Hd. induction a as [|x a IH]; intros Ha b.
  - cbn [append].
    rewrite fragments_skip, regex_match_skip by now apply absent_not_R.
    auto.
  - apply regex_match_none_inv in Ha. destruct Ha as [Hx Ha].
    specialize (IH Ha b). destruct IH as [IHm IHf].
    cbn [append]. rewrite append_assoc in *. cbn [append] in *.
    rewrite regex_match_cons, fragments_cons.
    change (String x (a ++ String c b)) with (String x a ++ String c b).
    rewrite match_here_barrier, Hx by assumption.
    rewrite IHm, IHf. split; [|reflexivity].
    now rewrite shift_shift.
Qed.

Lemma inert_app (a b : string) : inert a -> inert b -> inert (a ++ b).
Proof.
  intros Ha Hb x. rewrite append_assoc.
  destruct (Ha (b ++ x)) as [Hm Hf]. destruct (Hb x) as [Hm' Hf'].
  rewrite Hm, Hf, Hm', Hf'. split; [|reflexivity].
  apply shift_shift.
Qed.

Lemma inert_no_match (a : string) : inert a -> regex_match a = None.
Proof.
  intros H. destruct (H "") as [Hm _]. now rewrite append_nil_r in Hm.
Qed.

Lemma nl_absent : absent (ascii_of_nat 10) label = true.
Proof. reflexivity. Qed.

Lemma inert_separated (notes : string) :
  regex_match notes = None -> inert (notes ++ separator notes).
Proof.
  intros H. unfold separator. destruct (truthy notes) eqn:Ht.
  - assert (H1 : inert (notes ++ nl))
      by (apply inert_barrier; [reflexivity | reflexivity | assumption]).
    rewrite <- append_assoc. apply inert_barrier; try reflexivity.
    now apply inert_no_match.
  - destruct notes; [apply inert_empty | discriminate].
Qed.

Lemma fragments_digits (ds rest : string) :
  all_digits ds = true -> fragments (ds ++ rest) = fragments rest.
Proof.
  intros H. induction ds as [|d ds IH]; cbn [append]; [reflexivity|].
  simpl in H. apply andb_prop in H. destruct H as [Hd Hds].
  rewrite fragments_skip by now apply digit_not_R. auto.
Qed.

Lemma match_here_fragment (ds rest : string) :
  all_digits ds = true -> ds <> "" -> no_digit_ahead rest = true ->
  match_here (label ++ ds ++ rest) = Some (ds, rest).
Proof.
  intros Hd Hn Hr. unfold match_here.
  rewrite strip_prefix_app, span_digits_run by assumption.
  destruct ds; [contradiction | reflexivity].
Qed.

Lemma fragment_at_head (ds rest : string) :
  all_digits ds = true -> ds <> "" -> no_digit_ahead rest = true ->
  regex_match (label ++ ds ++ rest) = Some ("", ds, rest) /\
  fragments (label ++ ds ++ rest) = S (fragments rest).
Proof.
  intros Hd Hn Hr.
  pose proof (match_here_fragment ds rest Hd Hn Hr) as Hm.
  unfold label in *. cbn [append] in *.
  rewrite regex_match_cons, fragments_cons, Hm.
  split; [reflexivity|].
  repeat (rewrite fragments_skip by reflexivity).
  now rewrite fragments_digits.
Qed.

(** The fragment of an annotated text: where it is and what it counts. *)
Lemma fragment_located (pre ds rest : string) :
  inert pre ->
  all_digits ds = true -> ds <> "" -> no_digit_ahead rest = true ->
  regex_match (pre ++ label ++ ds ++ rest) = Some (pre, ds, rest) /\
  fragments (pre ++ label ++ ds ++ rest) = S (fragments rest).
Proof.
  intros Hp Hd Hn Hr.
  destruct (Hp (label ++ ds ++ rest)) as [Hm Hf].
  destruct (fragment_at_head ds rest Hd Hn Hr) as [Hm' Hf'].
  rewrite Hm, Hf, Hm', Hf'. simpl. now rewrite append_nil_r.
Qed.

Lemma bump_fresh (task_notes : option string) :
  regex_match (or_empty task_notes) = None ->
  bump task_notes =
  or_empty task_notes ++ separator (or_empty task_notes) ++ label
    ++ numToString 1.
Proof. intros H. unfold bump. now rewrite H. Qed.

(** Below [2^53] the count is exact and printed in full. *)
Lemma count_exact (ds : string) :
  (parseInt ds + 1 < maxSafe)%N ->
  Double.toString (Double.succ (Double.ofDigits ds))
  = numToString (parseInt ds + 1).
Proof.
  intros H. unfold Double.ofDigits, Double.round.
  assert (H0 : (parseInt ds <? maxSafe)%N = true) by (apply N.ltb_lt; lia).
  rewrite H0. unfold Double.succ, Double.round.
  apply N.ltb_lt in H. rewrite H. unfold Double.toString. now rewrite H.
Qed.

Lemma bump_fragment (pre ds rest : string) :
  inert pre ->
  all_digits ds = true -> ds <> "" -> no_digit_ahead rest = true ->
  (parseInt ds + 1 < maxSafe)%N ->
  bump (Some (pre ++ label ++ ds ++ rest)) =
  pre ++ label ++ numToString (parseInt ds + 1) ++ rest.
Proof.
  intros Hp Hd Hn Hr Hsafe. unfold bump. cbn [or_empty].
  destruct (fragment_located pre ds rest Hp Hd Hn Hr) as [Hm _].
  now rewrite Hm, count_exact.
Qed.

End RolloverFacts.

Module RolloverStep.
Import Rollover RolloverFacts.

Lemma strip_prefix_spec (p s r : string) :
  strip_prefix p s = Some r -> s = p ++ r.
Proof.
  revert s. induction p as [|x p IH]; intros s H; simpl in *.
  - now injection H as <-.
  - destruct s as [|y s]; [discriminate|].
    destruct (Ascii.eqb_spec x y) as [<-|]; [|discriminate].
    now rewrite (IH s H).
Qed.

Lemma span_digits_spec (s : string) :
  s = fst (span_digits s) ++ snd (span_digits s) /\
  all_digits (fst (span_digits s)) = true /\
  no_digit_ahead (snd (span_digits s)) = true.
Proof.
  induction s as [|c s IH]; simpl; [auto|].
  destruct (is_digit c) eqn:Hc.
  - destruct (span_digits s) as [ds r]. simpl in *.
    destruct IH as (-> & Hd & Hr). rewrite Hc. auto.
  - simpl. rewrite Hc. auto.
Qed.

Lemma match_here_spec (s ds rest : string) :
  match_here s = Some (ds, rest) ->
  s = label ++ ds ++ rest /\ all_digits ds = true /\ ds <> "" /\
  no_digit_ahead rest = true.
Proof.
  unfold match_here. intros H.
  destruct (strip_prefix label s) as [r|] eqn:Hs; [|discriminate].
  apply strip_prefix_spec in Hs.
  destruct (span_digits_spec r) as (Hr & Hd & Hn).
  destruct (span_digits r) as [ds' rest']. simpl in *.
  destruct ds' as [|d ds']; [discriminate|].
  injection H as <- <-. subst s. rewrite Hr at 1.
  repeat split; auto. discriminate.
Qed.

Lemma regex_match_spec (s pre ds rest : string) :
  regex_match s = Some (pre, ds, rest) ->
  s = pre ++ label ++ ds ++ rest /\ all_digits ds = true /\ ds <> "" /\
  no_digit_ahead rest = true.
Proof.
  revert pre. induction s as [|c s IH]; intros pre H.
  - discriminate H.
  - rewrite regex_match_cons in H.
    destruct (match_here (String c s)) as [[ds' rest']|] eqn:Hm.
    + injection H as <- <- <-. now apply match_here_spec.
    + destruct (regex_match s) as [[[p ds'] r]|]; [|discriminate].
      injection H as <- <- <-.
      destruct (IH p eq_refl) as (-> & Hd & Hn & Hr). auto.
Qed.

(** Inside the text before a match, the label that follows changes no
    anchored match: its first letter occurs nowhere else in the pattern. *)
Lemma match_here_before_label (x : ascii) (a b : string) :
  match_here (String x a ++ String "R" b) =
  match match_here (String x a) with
  | Some (ds, r) => Some (ds, r ++ String "R" b)
  | None => None
  end.
Proof.
  unfold match_here. cbn [append].
  change (strip_prefix label (String x (a ++ String "R" b)))
    with (if Ascii.eqb "R" x
          then strip_prefix "ollover Count: " (a ++ String "R" b) else None).
  change (strip_prefix label (String x a))
    with (if Ascii.eqb "R" x then strip_prefix "ollover Count: " a else None).
  destruct (Ascii.eqb "R" x); [|reflexivity].
  rewrite strip_prefix_barrier by reflexivity.
  destruct (strip_prefix "ollover Count: " a) as [r|]; [|reflexivity].
  rewrite span_digits_barrier by reflexivity.
  destruct (span_digits r) as [ds r']. simpl.
  destruct ds; reflexivity.
Qed.

Lemma match_here_before_label_none (x : ascii) (a b b' : string) :
  match_here (String x a ++ String "R" b) = None ->
  match_here (String x a ++ String "R" b') = None.
Proof.
  rewrite !match_here_before_label.
  destruct (match_here (String x a)) as [[ds r]|]; [discriminate | auto].
Qed.

(** Replacing the digits of the leftmost fragment keeps it the leftmost
    fragment, and keeps the number of fragments. *)
Lemma regex_match_replace (pre ds ds' rest : string) :
  regex_match (pre ++ label ++ ds ++ rest) = Some (pre, ds, rest) ->
  all_digits ds = true -> ds <> "" ->
  all_digits ds' = true -> ds' <> "" ->
  no_digit_ahead rest = true ->
  regex_match (pre ++ label ++ ds' ++ rest) = Some (pre, ds', rest) /\
  fragments (pre ++ label ++ ds' ++ rest) =
  fragments (pre ++ label ++ ds ++ rest).
Proof.
  intros H Hd Hn Hd' Hn' Hr.
  induction pre as [|x p IH].
  - cbn [append].
    destruct (fragment_at_head ds rest Hd Hn Hr) as [_ ->].
    destruct (fragment_at_head ds' rest Hd' Hn' Hr) as [-> ->]. auto.
  - cbn [append] in *. rewrite regex_match_cons in H.
    rewrite regex_match_cons, !fragments_cons.
    destruct (match_here (String x (p ++ label ++ ds ++ rest))) as [[a b]|]
      eqn:Hm; [discriminate H|].
    assert (Hm' : match_here (String x (p ++ label ++ ds' ++ rest)) = None).
    { revert Hm. unfold label. cbn [append].
      apply (match_here_before_label_none x p). }
    rewrite Hm'.
    destruct (regex_match (p ++ label ++ ds ++ rest)) as [[[p0 d0] r0]|]
      eqn:Hp; [|discriminate H].
    simpl in H. injection H as <- <- <-.
    destruct (IH eq_refl) as [-> ->]. auto.
Qed.

(** One migration of a task that carries a fragment: the leftmost fragment
    stays where it is and counts one more; nothing else changes. *)
Lemma bump_increments (notes pre ds rest : string) :
  regex_match notes = Some (pre, ds, rest) ->
  (parseInt ds + 1 < maxSafe)%N ->
  notes = pre ++ label ++ ds ++ rest /\
  bump (Some notes) = pre ++ label ++ numToString (parseInt ds + 1) ++ rest /\
  regex_match (bump (Some notes)) =
    Some (pre, numToString (parseInt ds + 1), rest) /\
  parseInt (numToString (parseInt ds + 1)) = (parseInt ds + 1)%N /\
  fragments (bump (Some notes)) = fragments notes.
Proof.
  intros H Hsafe.
  destruct (regex_match_spec _ _ _ _ H) as (Hs & Hd & Hn & Hr).
  split; [assumption|].
  assert (Hb : bump (Some notes)
               = pre ++ label ++ numToString (parseInt ds + 1) ++ rest).
  { unfold bump. cbn [or_empty]. now rewrite H, count_exact. }
  split; [assumption|]. rewrite Hb.
  split; [|split; [apply parseInt_numToString|]].
  - subst notes. eapply regex_match_replace; eauto.
    + apply numToString_digits.
    + apply numToString_not_empty.
  - subst notes. eapply regex_match_replace; eauto.
    + apply numToString_digits.
    + apply numToString_not_empty.
Qed.

End RolloverStep.

(** ** Migrating a task *)

Module MigrationFacts.
Import Rollover RolloverFacts RolloverStep.

Lemma emailBlock_no_digit (url : string) :
  no_digit_ahead (TaskService.emailBlock url) = true.
Proof. reflexivity. Qed.

Lemma emailBlock_fragments (url : string) :
  fragments (TaskService.emailBlock url) = fragments url.
Proof.
  unfold TaskService.emailBlock, nl. cbn [append].
  repeat (rewrite fragments_skip by reflexivity). reflexivity.
Qed.


Lemma notes_moved (newId : string) (t : Task) :
  task_notes (moved newId t) = Some (snd (TaskService.annotate t)).
Proof.
  unfold moved, TaskService.resourceOf.
  now destruct (TaskService.annotate t).
Qed.

Lemma notes_migrated_copy (newId id : string) (r : NewTask) :
  task_notes (migrated newId (stored id r)) = Some (bump (Some (new_notes r))).
Proof. reflexivity. Qed.










End MigrationFacts.


(** ** Runs: what a computation keeps *)

Section Keeps.
Context (R : State -> State -> Prop) `{PreOrder State R}.

Lemma keeps_ret {A} (a : A) : keeps R (ret a).
Proof. intros s. reflexivity. Qed.

Lemma keeps_throw {A} (e : string) : keeps R (@throw A e).
Proof. intros s. reflexivity. Qed.

Lemma keeps_gets {A} (f : State -> A) : keeps R (gets f).
Proof. intros s. reflexivity. Qed.

Lemma keeps_modify (f : State -> State) :
  (forall s, R s (f s)) -> keeps R (modify f).
Proof. intros Hf s. apply Hf. Qed.

Lemma keeps_bind {A B} (m : M A) (k : A -> M B) :
  keeps R m -> (forall a, keeps R (k a)) -> keeps R (bind m k).
Proof.
  intros Hm Hk s. unfold bind. specialize (Hm s).
  destruct (m s) as [[a|e] s1]; simpl in *; [|assumption].
  etransitivity; [eassumption | apply Hk].
Qed.

Lemma keeps_forEach {A} (l : list A) (body : A -> M unit) :
  (forall x, In x l -> keeps R (body x)) -> keeps R (forEach l body).
Proof.
  induction l as [|x l IH]; intros Hb; cbn [forEach].
  - apply keeps_ret.
  - apply keeps_bind; [apply Hb; now left|].
    intros _. apply IH. intros y Hy. apply Hb. now right.
Qed.

Lemma keeps_service {A} (h : Host) (c : Call) (effect : M A) :
  (forall s, R s (record_call c s)) -> keeps R effect ->
  keeps R (service h c effect).
Proof.
  intros Hc He s. unfold service.
  destruct (fault h (List.length (calls s))); simpl; [apply Hc|].
  etransitivity; [apply Hc | apply He].
Qed.

End Keeps.

#[export] Instance stable_preorder {X} (f : State -> X) :
  PreOrder (fun s s' => f s' = f s).
Proof. split; [intros s; reflexivity | intros a b c H1 H2; congruence]. Qed.

Lemma emits_refl (P : Call -> Prop) (s : State) : emits P s s.
Proof. exists []. now rewrite app_nil_r. Qed.

Lemma emits_same (P : Call -> Prop) (s s' : State) :
  calls s' = calls s -> emits P s s'.
Proof. intros E. exists []. now rewrite app_nil_r. Qed.

Lemma emits_trans (P : Call -> Prop) (a b c : State) :
  emits P a b -> emits P b c -> emits P a c.
Proof.
  intros (c1 & H1 & F1) (c2 & H2 & F2). exists (c1 ++ c2)%list.
  rewrite H2, H1, app_assoc. split; [reflexivity | now apply Forall_app].
Qed.

Lemma emits_weaken (P Q : Call -> Prop) (a b : State) :
  (forall c, P c -> Q c) -> emits P a b -> emits Q a b.
Proof.
  intros HPQ (cs & H & F). exists cs. split; [assumption|].
  eapply Forall_impl; eauto.
Qed.

#[export] Instance emits_preorder (P : Call -> Prop) : PreOrder (emits P).
Proof. split; [intros s; apply emits_refl | intros a b c; apply emits_trans]. Qed.

#[export] Instance confined_preorder (allowed : string -> bool) :
  PreOrder (confined allowed).
Proof.
  split.
  - intros s. split; auto. apply emits_refl.
  - intros a b c [T1 K1 O1 C1 H1] [T2 K2 O2 C2 H2]. split.
    + intros l Hl. now rewrite T2, T1.
    + auto.
    + auto.
    + eapply emits_trans; eassumption.
    + congruence.
Qed.

Lemma confined_weaken (a b : string -> bool) (s s' : State) :
  (forall l, a l = true -> b l = true) ->
  confined a s s' -> confined b s s'.
Proof.
  intros Hab [T K O C Hh].
  assert (Hba : forall l, b l = false -> a l = false).
  { intros l Hl. destruct (a l) eqn:E; [|reflexivity].
    apply Hab in E. congruence. }
  split; auto.
  eapply emits_weaken; [|eassumption].
  intros c (l & Hc & Hl). exists l. auto.
Qed.

Ltac keeps_structure :=
  repeat
    match goal with
    | |- PreOrder _ => typeclasses eauto
    | |- keeps _ (ret _) => apply keeps_ret
    | |- keeps _ (throw _) => apply keeps_throw
    | |- keeps _ (gets _) => apply keeps_gets
    | |- keeps _ (bind _ _) => apply keeps_bind
    | |- keeps _ (forEach _ _) => apply keeps_forEach
    | |- keeps _ (service _ _ _) => apply keeps_service
    | |- keeps _ (modify _) => apply keeps_modify
    | |- forall _, _ => intro
    end.

(** *** Effects confined to some lists *)

Section Confined.
Variable h : Host.
Variable allowed : string -> bool.

Lemma confined_record (c : Call) (l : string) (s : State) :
  target c = Some l -> allowed l = true ->
  confined allowed s (record_call c s).
Proof.
  intros Hc Hl. split; auto.
  exists [c]. split; [reflexivity|].
  constructor; [|constructor]. now exists l.
Qed.

Lemma confined_set_tasks (l : string) (f : list Task -> list Task)
  (s : State) :
  allowed l = true -> confined allowed s (set_tasks l f s).
Proof.
  intros Hl. split; auto; [|now apply emits_same].
  intros l' Hl'. cbn [set_tasks tasks].
  destruct (String.eqb_spec l' l) as [->|]; [congruence | reflexivity].
Qed.

Lemma confined_set_stats (f : RunStat -> RunStat) (s : State) :
  confined allowed s (set_stats f s).
Proof. split; auto. now apply emits_same. Qed.

Lemma confined_set_reads (n : nat) (s : State) :
  confined allowed s (set_reads n s).
Proof. split; auto. now apply emits_same. Qed.

Lemma confined_drop_list (l : string) (s : State) :
  allowed l = true ->
  confined allowed s
    (set_lists (List.filter (fun x => negb (String.eqb (list_id x) l))) s).
Proof.
  intros Hl. split; auto; [| |now apply emits_same].
  - intros x Hx Hin. cbn [set_lists lists]. apply filter_In.
    split; [assumption|].
    destruct (String.eqb_spec (list_id x) l) as [E|]; [|reflexivity].
    rewrite E in Hx. congruence.
  - intros x Hin. cbn [set_lists lists] in Hin.
    now apply filter_In in Hin.
Qed.

Lemma confined_insertTask (dst : string) (r : NewTask) :
  allowed dst = true ->
  keeps (confined allowed) (TaskService.insertTask h dst r).
Proof.
  intros Hd. unfold TaskService.insertTask. keeps_structure.
  - now apply (confined_record _ dst).
  - now apply confined_set_tasks.
Qed.

Lemma confined_removeTask (src taskId : string) :
  allowed src = true ->
  keeps (confined allowed) (TaskService.removeTask h src taskId).
Proof.
  intros Hs. unfold TaskService.removeTask. keeps_structure.
  - now apply (confined_record _ src).
  - now apply confined_set_tasks.
Qed.

Lemma confined_move (t : Task) (src dst : string) :
  allowed src = true -> allowed dst = true ->
  keeps (confined allowed) (TaskService.move h t src dst).
Proof.
  intros Hs Hd. unfold TaskService.move. keeps_structure.
  - now apply confined_insertTask.
  - now apply confined_removeTask.
Qed.

Lemma confined_updateNotes (l taskId newNotes : string) :
  allowed l = true ->
  keeps (confined allowed) (TaskService.updateNotes h l taskId newNotes).
Proof.
  intros Hl. unfold TaskService.updateNotes.
  apply keeps_service; [typeclasses eauto | |].
  - intros s. now apply (confined_record _ l).
  - intros s. destruct (patch_notes taskId newNotes (tasks s l)) as [[t' l']|];
      simpl; [now apply confined_set_tasks | reflexivity].
Qed.

Lemma confined_listIncompleteTasks (l : string) :
  allowed l = true ->
  keeps (confined allowed) (TaskService.listIncompleteTasks h l).
Proof.
  intros Hl. unfold TaskService.listIncompleteTasks. keeps_structure.
  now apply (confined_record _ l).
Qed.

Lemma confined_listAllTasks (l : string) :
  allowed l = true ->
  keeps (confined allowed) (TaskService.listAllTasks h l).
Proof.
  intros Hl. unfold TaskService.listAllTasks. keeps_structure.
  now apply (confined_record _ l).
Qed.

Lemma confined_migrateIncompleteTasks (src dst : string) :
  allowed src = true -> allowed dst = true ->
  keeps (confined allowed) (migrateIncompleteTasks h src dst).
Proof.
  intros Hs Hd. unfold migrateIncompleteTasks. keeps_structure.
  - now apply confined_listIncompleteTasks.
  - destruct (trackRolloverCount h); keeps_structure.
    + now apply confined_updateNotes.
    + now apply confined_move.
    + now apply confined_move.
Qed.

Lemma confined_fetch (l : string) (ps : list (list Task)) (acc : list Task) :
  allowed l = true ->
  keeps (confined allowed) (CompletedTaskService.fetch h l ps acc).
Proof.
  intros Hl. revert acc.
  induction ps as [|p ps IH]; intros acc; cbn [CompletedTaskService.fetch];
    keeps_structure.
  - now apply (confined_record _ l).
  - apply IH.
Qed.

Lemma confined_getCompletedTasksFromList (l : string) :
  allowed l = true ->
  keeps (confined allowed) (CompletedTaskService.getCompletedTasksFromList h l).
Proof.
  intros Hl.
  unfold CompletedTaskService.getCompletedTasksFromList,
    CompletedTaskService.listCompletedTasks.
  keeps_structure. now apply confined_fetch.
Qed.

Lemma confined_deleteList (l : string) :
  allowed l = true -> keeps (confined allowed) (ListService.deleteList h l).
Proof.
  intros Hl. unfold ListService.deleteList. keeps_structure.
  - now apply (confined_record _ l).
  - etransitivity; [now apply (confined_drop_list l)|].
    now apply confined_set_tasks.
Qed.

Lemma confined_processStaleList (inboxId : string) (staleList : TaskList) :
  allowed inboxId = true -> allowed (list_id staleList) = true ->
  keeps (confined allowed) (processStaleList h inboxId staleList).
Proof.
  intros Hi Hl. unfold processStaleList. keeps_structure;
    try apply confined_set_stats.
  - now apply confined_migrateIncompleteTasks.
  - now apply confined_getCompletedTasksFromList.
  - now apply confined_deleteList.
Qed.

End Confined.

(** *** Observations that the service layer leaves alone *)

Section Blind.
Variable h : Host.
Context {X : Type} (f : State -> X) (Hf : storeBlind f).

Ltac blind :=
  unfold stable; keeps_structure;
  try solve [ apply (blind_call f Hf) | apply (blind_tasks f Hf)
            | apply (blind_lists f Hf) ].

Lemma stable_move (t : Task) (src dst : string) :
  stable f (TaskService.move h t src dst).
Proof.
  unfold TaskService.move, TaskService.insertTask, TaskService.removeTask.
  blind.
Qed.

Lemma stable_updateNotes (l taskId newNotes : string) :
  stable f (TaskService.updateNotes h l taskId newNotes).
Proof.
  unfold TaskService.updateNotes. blind. intros s.
  destruct (patch_notes taskId newNotes (tasks s l)) as [[t' l']|]; simpl;
    [apply (blind_tasks f Hf) | reflexivity].
Qed.

Lemma stable_listIncompleteTasks (l : string) :
  stable f (TaskService.listIncompleteTasks h l).
Proof. unfold TaskService.listIncompleteTasks. blind. Qed.

Lemma stable_listAllTasks (l : string) :
  stable f (TaskService.listAllTasks h l).
Proof. unfold TaskService.listAllTasks. blind. Qed.

Lemma stable_migrateIncompleteTasks (src dst : string) :
  stable f (migrateIncompleteTasks h src dst).
Proof.
  unfold migrateIncompleteTasks. blind.
  - apply stable_listIncompleteTasks.
  - destruct (trackRolloverCount h); blind;
      first [apply stable_updateNotes | apply stable_move].
Qed.

Lemma stable_fetch (l : string) (ps : list (list Task)) (acc : list Task) :
  stable f (CompletedTaskService.fetch h l ps acc).
Proof.
  revert acc.
  induction ps as [|p ps IH]; intros acc; cbn [CompletedTaskService.fetch];
    blind.
  apply IH.
Qed.

Lemma stable_getCompletedTasksFromList (l : string) :
  stable f (CompletedTaskService.getCompletedTasksFromList h l).
Proof.
  unfold CompletedTaskService.getCompletedTasksFromList,
    CompletedTaskService.listCompletedTasks.
  blind. apply stable_fetch.
Qed.

Lemma stable_deleteList (l : string) : stable f (ListService.deleteList h l).
Proof.
  unfold ListService.deleteList. blind.
  now rewrite (blind_tasks f Hf), (blind_lists f Hf).
Qed.

Lemma stable_listAll : stable f (ListService.listAll h).
Proof. unfold ListService.listAll. blind. Qed.

Lemma stable_getListByTitle (title : string) :
  stable f (ListService.getListByTitle h title).
Proof. unfold ListService.getListByTitle. blind. apply stable_listAll. Qed.

Lemma stable_createList (title : string) :
  stable f (ListService.createList h title).
Proof.
  unfold ListService.createList. blind. intros s. simpl.
  apply (blind_lists f Hf).
Qed.

End Blind.

Lemma stats_blind : storeBlind stats.
Proof. now split. Qed.

Lemma reads_blind : storeBlind reads.
Proof. now split. Qed.

Lemma held_blind : storeBlind held.
Proof. now split. Qed.

(** ** The sweep over the stale lists *)

Lemma bind_ok {A B} (m : M A) (k : A -> M B) (s s' : State) (b : B) :
  bind m k s = (Ok b, s') ->
  exists a s1, m s = (Ok a, s1) /\ k a s1 = (Ok b, s').
Proof.
  unfold bind. destruct (m s) as [[a|e] s1]; [|discriminate].
  intros Hk. now exists a, s1.
Qed.

Lemma stable_at {A X} (f : State -> X) (m : M A) (s s' : State)
  (r : Outcome A) :
  stable f m -> m s = (r, s') -> f s' = f s.
Proof. intros Hm E. specialize (Hm s). now rewrite E in Hm. Qed.

Lemma keeps_at {A} (R : State -> State -> Prop) (m : M A) (s s' : State)
  (r : Outcome A) :
  keeps R m -> m s = (r, s') -> R s s'.
Proof. intros Hm E. specialize (Hm s). now rewrite E in Hm. Qed.

Section Sweep.
Variable h : Host.

Lemma processStaleList_reads (inboxId : string) (staleList : TaskList) :
  stable reads (processStaleList h inboxId staleList).
Proof.
  unfold processStaleList, stable. keeps_structure; try reflexivity.
  - apply stable_migrateIncompleteTasks, reads_blind.
  - apply stable_getCompletedTasksFromList, reads_blind.
  - apply stable_deleteList, reads_blind.
Qed.

(** A stale list that is processed to the end counts as one deleted. *)
Lemma processStaleList_counts (inboxId : string) (staleList : TaskList)
  (s s' : State) :
  processStaleList h inboxId staleList s = (Ok tt, s') ->
  listDeleted (stats s') = (listDeleted (stats s) + 1)%Z.
Proof.
  unfold processStaleList. intros H.
  apply bind_ok in H. destruct H as (moved & s1 & E1 & H).
  apply bind_ok in H. destruct H as ([] & s2 & E2 & H).
  apply bind_ok in H. destruct H as (found & s3 & E3 & H).
  apply bind_ok in H. destruct H as ([] & s4 & E4 & H).
  apply bind_ok in H. destruct H as ([] & s5 & E5 & H).
  apply (stable_at stats) in E1;
    [|apply stable_migrateIncompleteTasks, stats_blind].
  apply (stable_at stats) in E3;
    [|apply stable_getCompletedTasksFromList, stats_blind].
  apply (stable_at stats) in E5; [|apply stable_deleteList, stats_blind].
  injection E2 as <-. injection E4 as <-. injection H as <-.
  cbn [set_stats stats with_listDeleted listDeleted].
  rewrite E5. cbn [set_stats stats with_completedTasks listDeleted].
  rewrite E3. cbn [set_stats stats with_inboxAdds listDeleted].
  rewrite E1. lia.
Qed.

Lemma sweepable_inbox (inboxId : string) (done : list TaskList) :
  sweepable inboxId done inboxId = true.
Proof. unfold sweepable. now rewrite String.eqb_refl. Qed.

Lemma sweepable_head (inboxId : string) (x : TaskList) (done : list TaskList) :
  sweepable inboxId (x :: done) (list_id x) = true.
Proof.
  unfold sweepable. cbn [existsb]. rewrite String.eqb_refl.
  now rewrite orb_true_r.
Qed.

Lemma sweepable_tail (inboxId : string) (x : TaskList) (done : list TaskList)
  (l : string) :
  sweepable inboxId done l = true -> sweepable inboxId (x :: done) l = true.
Proof.
  unfold sweepable. cbn [existsb]. intros H.
  apply orb_true_iff in H. destruct H as [->| ->]; auto using orb_true_r.
  now rewrite !orb_true_r.
Qed.

(** The budget is found exceeded at the check that follows the lists
    [done]: the sweep stops there, having deleted exactly those. *)
Lemma sweep_pauses (inboxId : string) (startTime : Z)
  (done : list TaskList) (next : TaskList) (rest : list TaskList) :
  forall s s',
    (forall i, i < List.length done ->
       timedOut h (clock h (reads s + i)) startTime = false) ->
    timedOut h (clock h (reads s + List.length done)) startTime = true ->
    sweep h inboxId startTime (done ++ next :: rest) s = (Ok tt, s') ->
    listDeleted (stats s')
      = (listDeleted (stats s) + Z.of_nat (List.length done))%Z /\
    notes (stats s') = pausedNote /\
    reads s' = S (reads s + List.length done) /\
    confined (sweepable inboxId done) s s'.
Proof.
  induction done as [|x done IH]; intros s s' Hbefore Hafter Hrun.
  - cbn [app sweep] in Hrun. cbn [List.length] in *.
    unfold bind, newDate in Hrun. rewrite Nat.add_0_r in Hafter.
    rewrite Hafter in Hrun. injection Hrun as <-.
    cbn. split; [lia|]. split; [reflexivity|]. split; [lia|].
    split; auto. now apply emits_same.
  - cbn [app sweep] in Hrun.
    apply bind_ok in Hrun. destruct Hrun as (now & s1 & E1 & Hrun).
    unfold newDate in E1. injection E1 as <- <-.
    assert (Hcheck : timedOut h (clock h (reads s)) startTime = false).
    { rewrite <- (Nat.add_0_r (reads s)). apply Hbefore. cbn. lia. }
    rewrite Hcheck in Hrun.
    apply bind_ok in Hrun. destruct Hrun as ([] & s2 & E2 & Hrun).
    pose proof (processStaleList_counts _ _ _ _ E2) as Hcount.
    pose proof (stable_at reads _ _ _ _
                  (processStaleList_reads inboxId x) E2) as Hreads.
    pose proof (keeps_at _ _ _ _ _
                  (confined_processStaleList h (sweepable inboxId (x :: done))
                     inboxId x (sweepable_inbox _ _) (sweepable_head _ _ _))
                  E2) as Hconf.
    cbn [set_reads reads stats] in Hcount, Hreads.
    destruct (IH s2 s') as (Hd & Hn & Hr & Hc); auto.
    + intros i Hi. rewrite Hreads.
      replace (S (reads s) + i) with (reads s + S i) by lia.
      apply Hbefore. cbn. lia.
    + rewrite Hreads.
      replace (S (reads s) + List.length done)
        with (reads s + List.length (x :: done)) by (cbn; lia).
      assumption.
    + split; [|split; [|split]].
      * rewrite Hd, Hcount. cbn [List.length]. lia.
      * assumption.
      * rewrite Hr, Hreads. cbn [List.length]. lia.
      * transitivity s2.
        -- transitivity (set_reads (S (reads s)) s);
             [apply confined_set_reads | assumption].
        -- eapply confined_weaken; [|eassumption].
           intros l. apply sweepable_tail.
Qed.

End Sweep.

(** C3. The elapsed time is checked before each stale list.  When the
    check that follows the lists [done] finds the budget exceeded, the
    sweep stops: exactly the lists [done] are counted as deleted, the note
    of the run says that it paused, and a remaining stale list (other than
    the inbox and the lists processed) keeps its tasks, stays in the store
    and is the target of no call. *)
Theorem sweep_respects_deadline
  (h : Host) (inboxId : string) (startTime : Z)
  (done : list TaskList) (next : TaskList) (rest : list TaskList)
  (s s' : State) :
  (forall i, i < List.length done ->
     timedOut h (clock h (reads s + i)) startTime = false) ->
  timedOut h (clock h (reads s + List.length done)) startTime = true ->
  sweep h inboxId startTime (done ++ next :: rest) s = (Ok tt, s') ->
  listDeleted (stats s')
    = (listDeleted (stats s) + Z.of_nat (List.length done))%Z /\
  notes (stats s') = pausedNote /\
  forall x, In x (next :: rest) ->
    sweepable inboxId done (list_id x) = false ->
    tasks s' (list_id x) = tasks s (list_id x) /\
    (In x (lists s) -> In x (lists s')) /\
    exists cs, calls s' = (calls s ++ cs)%list /\
               Forall (fun c => target c <> Some (list_id x)) cs.
Proof.
  intros Hbefore Hafter Hrun.
  destruct (sweep_pauses h inboxId startTime done next rest s s'
              Hbefore Hafter Hrun) as (Hd & Hn & _ & [T K O C Hh]).
  split; [assumption|]. split; [assumption|].
  intros x Hx Hfree. split; [now apply T|]. split; [now apply K|].
  destruct C as (cs & Hcs & Hall). exists cs. split; [assumption|].
  eapply Forall_impl; [|eassumption].
  intros c (l & Hc & Hl) Hc'. rewrite Hc in Hc'. injection Hc' as ->.
  congruence.
Qed.

Lemma run_ok {A} (m : M A) (s : State) (a : A) :
  fst (m s) = Ok a -> m s = (Ok a, snd (m s)).
Proof. destruct (m s) as [r s1]. simpl. now intros ->. Qed.

(** The run of the specification's scenario: five stale lists, and a clock
    that shows the budget exceeded once two of them are processed. *)
Local Notation pausedRun :=
  (snd (sweep (Scenario.platform Scenario.late Scenario.noFault) "inbox" 0
          ([Scenario.july5; Scenario.july6]
           ++ Scenario.july7 :: [Scenario.july8; Scenario.july9])
          Scenario.backlog)) (only parsing).

Lemma sweep_respects_deadline_witness :
  listDeleted (stats pausedRun)
    = (listDeleted (stats Scenario.backlog)
       + Z.of_nat (List.length [Scenario.july5; Scenario.july6]))%Z /\
  notes (stats pausedRun) = pausedNote /\
  forall x, In x (Scenario.july7 :: [Scenario.july8; Scenario.july9]) ->
    sweepable "inbox" [Scenario.july5; Scenario.july6] (list_id x) = false ->
    tasks pausedRun (list_id x) = tasks Scenario.backlog (list_id x) /\
    (In x (lists Scenario.backlog) -> In x (lists pausedRun)) /\
    exists cs, calls pausedRun = (calls Scenario.backlog ++ cs)%list /\
               Forall (fun c => target c <> Some (list_id x)) cs.
Proof.
  apply (sweep_respects_deadline
           (Scenario.platform Scenario.late Scenario.noFault) "inbox" 0
           [Scenario.july5; Scenario.july6] Scenario.july7
           [Scenario.july8; Scenario.july9] Scenario.backlog).
  - intros i Hi.
    destruct i as [|[|i]]; [vm_compute; reflexivity | vm_compute; reflexivity|].
    cbn in Hi. lia.
  - vm_compute. reflexivity.
  - apply run_ok. vm_compute. reflexivity.
Defined.

(** ** rolloverProcess: today's list *)

Lemma bind_inv {A B} (m : M A) (k : A -> M B) (s s' : State) (r : Outcome B) :
  bind m k s = (r, s') ->
  (exists a s1, m s = (Ok a, s1) /\ k a s1 = (r, s')) \/
  (exists e, m s = (Throw e, s') /\ r = Throw e).
Proof.
  unfold bind. destruct (m s) as [[a|e] s1]; intros H.
  - left. now exists a, s1.
  - right. injection H as <- <-. now exists e.
Qed.



#[export] Instance quiet_preorder : PreOrder quiet.
Proof.
  split.
  - intros s. split; [apply emits_refl | reflexivity].
  - intros a b c [C1 L1] [C2 L2]. split; [|congruence].
    eapply emits_trans; eassumption.
Qed.




Section TodayList.
Variable h : Host.

Lemma listAll_run (s s' : State) (r : Outcome (list TaskList)) :
  ListService.listAll h s = (r, s') ->
  s' = record_call TasklistsList s /\
  (r = Ok (lists s) \/ exists e, r = Throw e).
Proof.
  unfold ListService.listAll, service, gets.
  destruct (fault h (List.length (calls s))) as [e|]; intros H;
    injection H as <- <-; split; auto.
  right. now exists e.
Qed.

Lemma getListByTitle_run (title : string) (s s' : State)
  (r : Outcome (option TaskList)) :
  ListService.getListByTitle h title s = (r, s') ->
  s' = record_call TasklistsList s /\
  (r = Ok (List.find (fun l => String.eqb (list_title l) title) (lists s))
   \/ exists e, r = Throw e).
Proof.
  unfold ListService.getListByTitle. intros H.
  apply bind_inv in H. destruct H as [(all & s1 & E & H)|(e & E & ->)];
    apply listAll_run in E; destruct E as [-> Hr].
  - injection H as <- <-. split; [reflexivity|].
    destruct Hr as [Hr|(e & Hr)]; [|discriminate].
    injection Hr as ->. now left.
  - split; [reflexivity|]. right. now exists e.
Qed.




Lemma find_today_some (todayTitle : string) (all : list TaskList)
  (l : TaskList) :
  List.find (isToday h todayTitle) all = Some l ->
  In l all /\ list_title l = todayListFullName h todayTitle.
Proof.
  intros H. apply find_some in H. destruct H as [Hin Ht].
  split; [assumption|]. now apply String.eqb_eq.
Qed.

Lemma find_today_none (todayTitle : string) (all : list TaskList) :
  List.find (isToday h todayTitle) all = None ->
  forall l, In l all -> list_title l <> todayListFullName h todayTitle.
Proof.
  intros H l Hin E. apply (find_none _ _ H) in Hin.
  unfold isToday in Hin. rewrite E, String.eqb_refl in Hin. discriminate.
Qed.

Lemma setup_run (s s' : State) (r : Outcome unit) :
  LoggingSheetUtil.setup h s = (r, s') ->
  s' = record_call LogSetup s /\ (r = Ok tt \/ exists e, r = Throw e).
Proof.
  unfold LoggingSheetUtil.setup, service, ret.
  destruct (fault h (List.length (calls s))) as [e|]; intros H;
    injection H as <- <-; split; auto.
  right. now exists e.
Qed.

Lemma logRun_call (s s' : State) (r : Outcome unit) :
  LoggingSheetUtil.logRun h s = (r, s') ->
  s' = record_call (LogRun (stats s)) s /\
  (r = Ok tt \/ exists e, r = Throw e).
Proof.
  unfold LoggingSheetUtil.logRun, bind, gets, service, ret.
  destruct (fault h (List.length (calls s))) as [e|]; intros H;
    injection H as <- <-; split; auto.
  right. now exists e.
Qed.




End TodayList.



(** Three runs: on a backlog without list for today, on a store that has
    it, and on a backlog where the creation itself fails. *)
Example today_list_runs :
  let h := Scenario.platform Scenario.steady Scenario.noFault in
  let created (h : Host) (s : State) :=
    let s' := snd (rolloverProcess h "July 10, 2025" 0 s) in
    (creations (List.skipn (List.length (calls s)) (calls s')),
     listCreated (stats s')) in
  created h Scenario.backlog = (["[Daily] July 10, 2025"], 1%Z) /\
  created h Cases.desk = ([], 0%Z) /\
  created (Scenario.platform Scenario.steady
             (Scenario.failAt 3 "Service unavailable"))
    (mkState [Scenario.inbox] (fun _ => []) true 1 [] Scenario.emptyStats)
  = (["[Daily] July 10, 2025"], 0%Z).
Proof. vm_compute. auto. Qed.

(** ** dailyRunner *)

Section TryBlock.
Variable h : Host.

Ltac body_leaf :=
  first
    [ now apply emits_same
    | (eexists [_]; split; [reflexivity | constructor; [exact I | constructor]]) ].

Ltac body_calls :=
  repeat
    (keeps_structure; try body_leaf;
     try match goal with
         | |- keeps _ (match ?x with _ => _ end) => destruct x
         end).

Lemma body_move (t : Task) (src dst : string) :
  keeps (emits bodyCall) (TaskService.move h t src dst).
Proof.
  unfold TaskService.move, TaskService.insertTask, TaskService.removeTask.
  body_calls.
Qed.

Lemma body_updateNotes (l taskId newNotes : string) :
  keeps (emits bodyCall) (TaskService.updateNotes h l taskId newNotes).
Proof.
  unfold TaskService.updateNotes. body_calls. intros s.
  destruct (patch_notes taskId newNotes (tasks s l)) as [[t' l']|]; simpl;
    body_leaf.
Qed.

Lemma body_migrateIncompleteTasks (src dst : string) :
  keeps (emits bodyCall) (migrateIncompleteTasks h src dst).
Proof.
  unfold migrateIncompleteTasks, TaskService.listIncompleteTasks. body_calls;
    first [apply body_updateNotes | apply body_move].
Qed.

Lemma body_fetch (l : string) (ps : list (list Task)) (acc : list Task) :
  keeps (emits bodyCall) (CompletedTaskService.fetch h l ps acc).
Proof.
  revert acc.
  induction ps as [|p ps IH]; intros acc; cbn [CompletedTaskService.fetch];
    body_calls.
  apply IH.
Qed.

Lemma body_processStaleList (inboxId : string) (staleList : TaskList) :
  keeps (emits bodyCall) (processStaleList h inboxId staleList).
Proof.
  unfold processStaleList, CompletedTaskService.getCompletedTasksFromList,
    CompletedTaskService.listCompletedTasks, ListService.deleteList.
  body_calls.
  - apply body_migrateIncompleteTasks.
  - apply body_fetch.
Qed.

Lemma body_newDate : keeps (emits bodyCall) (newDate h).
Proof. intros s. now apply emits_same. Qed.

Lemma body_sweep (inboxId : string) (startTime : Z) (l : list TaskList) :
  keeps (emits bodyCall) (sweep h inboxId startTime l).
Proof.
  induction l as [|x l IH]; cbn [sweep]; body_calls;
    first [apply body_newDate | apply body_processStaleList | apply IH].
Qed.

Lemma body_createList (title : string) :
  keeps (emits bodyCall) (ListService.createList h title).
Proof.
  unfold ListService.createList. body_calls. intros s. now apply emits_same.
Qed.

Lemma body_rolloverProcess (todayTitle : string) (startTime : Z) :
  keeps (emits bodyCall) (rolloverProcess h todayTitle startTime).
Proof.
  unfold rolloverProcess, LoggingSheetUtil.setup, ListService.getListByTitle,
    ListService.listAll.
  body_calls; first [apply body_sweep | apply body_createList].
Qed.

Lemma body_processInboxTasks (todayListId inboxId : string) :
  keeps (emits bodyCall) (processInboxTasks h todayListId inboxId).
Proof.
  unfold processInboxTasks, TaskService.listAllTasks.
  body_calls; first [apply body_newDate | apply body_move].
Qed.

Lemma body_logRun : keeps (emits bodyCall) (LoggingSheetUtil.logRun h).
Proof. unfold LoggingSheetUtil.logRun. body_calls. Qed.

(** The [try] block makes neither a lock call nor a mail call. *)
Lemma body_runBody (startTime : Z) :
  keeps (emits bodyCall) (runBody h startTime).
Proof.
  unfold runBody. body_calls;
    first [apply body_rolloverProcess | apply body_processInboxTasks
          | apply body_logRun].
Qed.

End TryBlock.

Lemma run_throw {A} (m : M A) (s : State) (e : string) :
  fst (m s) = Throw e -> m s = (Throw e, snd (m s)).
Proof. destruct (m s) as [r s1]. simpl. now intros ->. Qed.

Section Runner.
Variable h : Host.

(** dailyRunner once the lock is taken: the [try] block from the state
    [entered], then the handler if it threw, then the release. *)
Lemma dailyRunner_locked (s : State) :
  lockFree h = true ->
  dailyRunner h s
  = try_catch_finally (runBody h (clock h (reads s))) (onFatal h)
      releaseLock (entered h s).
Proof.
  intros Hl. unfold dailyRunner, bind, tryLock, entered. rewrite Hl.
  reflexivity.
Qed.

(** The handler: the note, then the log row; the mail only when the log
    call has returned. *)
Lemma onFatal_run (e : string) (s : State) :
  let row := with_notes ("FATAL: " ++ e) (stats s) in
  let noted := record_call (LogRun row) (set_stats (with_notes ("FATAL: " ++ e)) s) in
  onFatal h e s
  = match fault h (List.length (calls s)) with
    | Some m => (Throw m, noted)
    | None =>
        (match fault h (S (List.length (calls s))) with
         | Some m => Throw m
         | None => Ok tt
         end,
         record_call (SendEmail failureSubject (failureBody e)) noted)
    end.
Proof.
  cbv [onFatal bind modify LoggingSheetUtil.logRun gets service ret].
  cbn [set_stats record_call calls stats].
  destruct (fault h (List.length (calls s))) as [m|]; [reflexivity|].
  cbn [set_stats record_call calls stats].
  rewrite length_app, Nat.add_1_r.
  destruct (fault h (S (List.length (calls s)))); reflexivity.
Qed.

(** C2, amended.  With the lock taken, the lock is released on every
    path, as the last call of the invocation.  When the [try] block throws
    [e], from whatever point of the sequence, the handler runs once: the
    [stats] object as it stood at the throw gets the note [FATAL: e] and
    is handed to the log sink; when that call returns, the call that sends
    the failure mail is made, but when logRun itself throws, the handler
    ends there and no failure mail is attempted; in both cases the lock is
    released, and dailyRunner throws what the handler threw, if
    anything. *)
Theorem fatal_path_logs_notifies_releases (s : State) :
  lockFree h = true ->
  (held (snd (dailyRunner h s)) = false /\
   exists cs, calls (snd (dailyRunner h s)) = (cs ++ [ReleaseLock])%list) /\
  forall e s1,
    runBody h (clock h (reads s)) (entered h s) = (Throw e, s1) ->
    exists body,
      calls s1 = (calls s ++ TryLock 30000 :: body)%list /\
      Forall bodyCall body /\
      calls (snd (dailyRunner h s))
      = (calls s1
         ++ LogRun (with_notes ("FATAL: " ++ e) (stats s1))
            :: match fault h (List.length (calls s1)) with
               | None => [SendEmail failureSubject (failureBody e)]
               | Some _ => []
               end
         ++ [ReleaseLock])%list /\
      stats (snd (dailyRunner h s)) = with_notes ("FATAL: " ++ e) (stats s1) /\
      lists (snd (dailyRunner h s)) = lists s1 /\
      tasks (snd (dailyRunner h s)) = tasks s1 /\
      held (snd (dailyRunner h s)) = false /\
      fst (dailyRunner h s)
      = match fault h (List.length (calls s1)),
              fault h (S (List.length (calls s1))) with
        | Some m, _ => Throw m
        | None, Some m => Throw m
        | None, None => Ok tt
        end.
Proof.
  intros Hl. rewrite dailyRunner_locked by assumption.
  unfold try_catch_finally.
  pose proof (body_runBody h (clock h (reads s)) (entered h s)) as Hbody.
  destruct (runBody h (clock h (reads s)) (entered h s)) as [[[]|e1] s1'] eqn:E.
  - split; [|intros e s1 Habs; discriminate Habs].
    cbn. split; [reflexivity|]. now exists (calls s1').
  - rewrite onFatal_run. cbv zeta.
    split.
    + destruct (fault h (List.length (calls s1'))); cbn;
        (split; [reflexivity|]); eexists; reflexivity.
    + intros e s1 Hthrow. injection Hthrow as <- <-.
      destruct Hbody as (body & Hcalls & Hall). cbn in Hcalls.
      exists body. rewrite <- app_assoc in Hcalls. cbn in Hcalls.
      split; [assumption|]. split; [assumption|].
      destruct (fault h (List.length (calls s1'))) as [m|];
        [|destruct (fault h (S (List.length (calls s1')))) as [m|]];
        cbn; rewrite <- ?app_assoc; cbn; repeat split.
Qed.

(** C9. When the lock is not acquired within the wait, the invocation
    returns at once: the attempt on the lock is its only call, so no list
    or task call is made, nothing goes to the log sink, no mail is sent,
    and the store, the [stats] object and the lock are as they were. *)
Theorem deferral_is_a_no_op (s : State) :
  lockFree h = false ->
  fst (dailyRunner h s) = Ok tt /\
  calls (snd (dailyRunner h s)) = (calls s ++ [TryLock 30000])%list /\
  lists (snd (dailyRunner h s)) = lists s /\
  tasks (snd (dailyRunner h s)) = tasks s /\
  stats (snd (dailyRunner h s)) = stats s /\
  reads (snd (dailyRunner h s)) = reads s /\
  held (snd (dailyRunner h s)) = held s.
Proof.
  intros Hl. unfold dailyRunner, bind, tryLock. rewrite Hl. cbn.
  repeat split; auto. apply orb_false_r.
Qed.

End Runner.

(** The end-to-end scenario with a platform whose tenth call, the deletion
    of yesterday's list, fails. *)
Local Notation flaky :=
  (Scenario.platform Scenario.steady
     (Scenario.failAt 9 "Service unavailable")) (only parsing).

Local Notation failedBody :=
  (snd (runBody flaky (clock flaky (reads Scenario.morning))
          (entered flaky Scenario.morning))) (only parsing).

Lemma fatal_path_logs_notifies_releases_witness :
  (held (snd (dailyRunner flaky Scenario.morning)) = false /\
   exists cs,
     calls (snd (dailyRunner flaky Scenario.morning))
     = (cs ++ [ReleaseLock])%list) /\
  exists body,
    calls failedBody = (calls Scenario.morning ++ TryLock 30000 :: body)%list /\
    Forall bodyCall body /\
    calls (snd (dailyRunner flaky Scenario.morning))
    = (calls failedBody
       ++ LogRun (with_notes ("FATAL: " ++ "Service unavailable")
                    (stats failedBody))
          :: match fault flaky (List.length (calls failedBody)) with
             | None =>
                 [SendEmail failureSubject (failureBody "Service unavailable")]
             | Some _ => []
             end
       ++ [ReleaseLock])%list /\
    stats (snd (dailyRunner flaky Scenario.morning))
    = with_notes ("FATAL: " ++ "Service unavailable") (stats failedBody) /\
    lists (snd (dailyRunner flaky Scenario.morning)) = lists failedBody /\
    tasks (snd (dailyRunner flaky Scenario.morning)) = tasks failedBody /\
    held (snd (dailyRunner flaky Scenario.morning)) = false /\
    fst (dailyRunner flaky Scenario.morning)
    = match fault flaky (List.length (calls failedBody)),
            fault flaky (S (List.length (calls failedBody))) with
      | Some m, _ => Throw m
      | None, Some m => Throw m
      | None, None => Ok tt
      end.
Proof.
  destruct (fatal_path_logs_notifies_releases flaky Scenario.morning eq_refl)
    as [Hrelease Hfatal].
  split; [exact Hrelease|].
  apply Hfatal. apply run_throw. vm_compute. reflexivity.
Defined.

(** As the specification words it, the claim fails when the log sink
    fails as well: on a platform whose enumeration of the lists fails and
    whose logRun then throws, no failure mail is sent. *)
Lemma failed_log_skips_the_failure_mail :
  ~ (forall (h : Host) (s s1 : State) (e : string),
       lockFree h = true ->
       runBody h (clock h (reads s)) (entered h s) = (Throw e, s1) ->
       In (SendEmail failureSubject (failureBody e))
         (calls (snd (dailyRunner h s)))).
Proof.
  intros H.
  assert (Hrun :
    runBody (failingTwice 2 3) (clock (failingTwice 2 3) (reads Scenario.morning))
      (entered (failingTwice 2 3) Scenario.morning)
    = (Throw "Service unavailable",
       snd (runBody (failingTwice 2 3)
              (clock (failingTwice 2 3) (reads Scenario.morning))
              (entered (failingTwice 2 3) Scenario.morning))))
    by (apply run_throw; vm_compute; reflexivity).
  specialize (H (failingTwice 2 3) Scenario.morning _ _ eq_refl Hrun).
  vm_compute in H. intuition discriminate.
Qed.

(** The calls of that run: the lock is released all the same. *)
Example failed_log_run :
  calls (snd (dailyRunner (failingTwice 2 3) Scenario.morning))
  = [TryLock 30000; LogSetup; TasklistsList;
     LogRun (mkRunStat 0 0 0 0 0 [] "FATAL: Service unavailable");
     ReleaseLock] /\
  fst (dailyRunner (failingTwice 2 3) Scenario.morning)
  = Throw "Service unavailable" /\
  held (snd (dailyRunner (failingTwice 2 3) Scenario.morning)) = false.
Proof. vm_compute. auto. Qed.

(** The partial counters of that run reach the log sink. *)
Example fatal_path_partial_stats :
  stats (snd (dailyRunner flaky Scenario.morning))
  = mkRunStat 0 1 0 0 0
      [mkCompletedEntry "Call Bob" (Some "2025-07-09T17:00:00.000Z")]
      "FATAL: Service unavailable".
Proof. vm_compute. reflexivity. Qed.

Lemma deferral_is_a_no_op_witness :
  fst (dailyRunner Scenario.busy Scenario.morning) = Ok tt /\
  calls (snd (dailyRunner Scenario.busy Scenario.morning))
  = (calls Scenario.morning ++ [TryLock 30000])%list /\
  lists (snd (dailyRunner Scenario.busy Scenario.morning))
  = lists Scenario.morning /\
  tasks (snd (dailyRunner Scenario.busy Scenario.morning))
  = tasks Scenario.morning /\
  stats (snd (dailyRunner Scenario.busy Scenario.morning))
  = stats Scenario.morning /\
  reads (snd (dailyRunner Scenario.busy Scenario.morning))
  = reads Scenario.morning /\
  held (snd (dailyRunner Scenario.busy Scenario.morning))
  = held Scenario.morning.
Proof. apply (deferral_is_a_no_op Scenario.busy Scenario.morning eq_refl). Defined.

(** ** processInboxTasks *)

Lemma in_firstn {A} (k : nat) (l : list A) (x : A) :
  In x (List.firstn k l) -> In x l.
Proof.
  intros H. rewrite <- (firstn_skipn k l). apply in_or_app. now left.
Qed.

#[export] Instance spared_preorder (listId : string) (t : Task) :
  PreOrder (spared listId t).
Proof.
  split.
  - intros s. split; [auto | apply emits_refl].
  - intros a b c [T1 C1] [T2 C2]. split; [auto|].
    eapply emits_trans; eassumption.
Qed.

Section InboxSweep.
Variable h : Host.
Variables todayListId inboxId : string.

(** The loop moves exactly the tasks that pass [dueToday], in order. *)
Lemma inbox_loop_filter (d : string) (l : list Task) (s : State) :
  forEach l (fun task =>
    if negb (truthy_opt (task_due task)) || truthy_opt (task_recurrence task)
    then ret tt
    else
      if String.eqb (substring 0 10 (or_empty (task_due task))) d
      then TaskService.move h task inboxId todayListId ;;;
           modify (set_stats (with_inboxMoves Z.succ))
      else ret tt) s
  = forEach (List.filter (dueToday d) l) (relocate h todayListId inboxId) s.
Proof.
  revert s. induction l as [|x l IH]; intros s; [reflexivity|].
  cbn [forEach List.filter]. unfold dueToday at 1.
  destruct (negb (truthy_opt (task_due x)) || truthy_opt (task_recurrence x)).
  - unfold bind at 1. cbn. apply IH.
  - destruct (String.eqb (substring 0 10 (or_empty (task_due x))) d).
    + cbn [forEach]. unfold relocate, bind.
      destruct (TaskService.move h x inboxId todayListId s) as [[[]|e] s1];
        [|reflexivity].
      cbn. apply IH.
    + unfold bind at 1. cbn. apply IH.
Qed.

Lemma listAllTasks_run (l : string) (s s' : State) (r : Outcome (list Task)) :
  TaskService.listAllTasks h l s = (r, s') ->
  s' = record_call (TasksList l) s /\
  (r = Ok (tasks s l) \/ exists e, r = Throw e).
Proof.
  unfold TaskService.listAllTasks, service, gets.
  destruct (fault h (List.length (calls s))) as [e|]; intros H;
    injection H as <- <-; split; auto.
  right. now exists e.
Qed.

(** processInboxTasks, with its loop written over the tasks due today. *)
Lemma processInboxTasks_filter (s : State) :
  processInboxTasks h todayListId inboxId s
  = (inboxTasks <- TaskService.listAllTasks h inboxId ;;
     today <- newDate h ;;
     forEach
       (List.filter (dueToday (formatDate h today "yyyy-MM-dd")) inboxTasks)
       (relocate h todayListId inboxId)) s.
Proof.
  unfold processInboxTasks, bind.
  destruct (TaskService.listAllTasks h inboxId s) as [[ts|e] s1];
    [|reflexivity].
  unfold newDate. cbn. apply inbox_loop_filter.
Qed.

(** Relocating another task spares [t]. *)
Lemma spared_relocate (t x : Task) :
  task_id x <> task_id t ->
  keeps (spared inboxId t) (relocate h todayListId inboxId x).
Proof.
  intros Hid.
  unfold relocate, TaskService.move, TaskService.insertTask,
    TaskService.removeTask.
  keeps_structure.
  - split; [auto|]. exists [TasksInsert todayListId (TaskService.resourceOf x)].
    split; [reflexivity|]. constructor; [discriminate | constructor].
  - split; [|now apply emits_same].
    cbn [set_tasks tasks]. intros Hin.
    destruct (String.eqb inboxId todayListId); [now right | assumption].
  - split; [auto|]. exists [TasksRemove inboxId (task_id x)].
    split; [reflexivity|]. constructor; [|constructor].
    intros E. injection E as E. contradiction.
  - split; [|now apply emits_same].
    cbn [set_tasks tasks]. rewrite String.eqb_refl. intros Hin.
    apply filter_In. split; [assumption|].
    apply negb_true_iff, String.eqb_neq. congruence.
  - split; [auto | now apply emits_same].
Qed.

Lemma spared_processInboxTasks (t : Task) (s : State) :
  dueToday (formatDate h (clock h (reads s)) "yyyy-MM-dd") t = false ->
  uniqueIn (tasks s inboxId) t ->
  spared inboxId t s (snd (processInboxTasks h todayListId inboxId s)).
Proof.
  intros Hdue Huniq. rewrite processInboxTasks_filter. unfold bind.
  destruct (TaskService.listAllTasks h inboxId s) as [r s1] eqn:E.
  apply listAllTasks_run in E. destruct E as [-> Hr].
  assert (H1 : spared inboxId t s (record_call (TasksList inboxId) s)).
  { split; [auto|]. exists [TasksList inboxId]. split; [reflexivity|].
    constructor; [discriminate | constructor]. }
  destruct Hr as [->|(e & ->)]; [|exact H1].
  unfold newDate at 1. cbn [fst snd record_call reads].
  etransitivity; [exact H1|].
  etransitivity;
    [|apply (keeps_forEach (spared inboxId t))].
  - split; [auto | now apply emits_same].
  - intros x Hx. apply filter_In in Hx. destruct Hx as [Hin Hx].
    apply spared_relocate. intros Hid.
    cbn in Hin. rewrite (Huniq x Hin Hid) in Hx. congruence.
Qed.

(** One relocation, whatever fails: its calls are an initial part of the
    insertion and the removal, both when it returns, and no list gains
    anything but the copy of the task. *)
Lemma relocate_any (x : Task) (s : State) :
  exists k,
    calls (snd (relocate h todayListId inboxId x s))
    = (calls s ++ List.firstn k (relocations todayListId inboxId [x]))%list /\
    (k <= 2)%nat /\
    (fst (relocate h todayListId inboxId x s) = Ok tt -> k = 2%nat) /\
    forall l y,
      In y (tasks (snd (relocate h todayListId inboxId x s)) l) ->
      In y (tasks s l) \/ exists newId, y = moved newId x.
Proof.
  unfold relocate, TaskService.move, TaskService.insertTask,
    TaskService.removeTask, bind, service, modify.
  destruct (fault h (List.length (calls s))) as [e|] eqn:F1.
  - exists 1%nat. cbn. repeat split; auto; discriminate.
  - cbn [fst snd record_call set_tasks calls tasks].
    assert (Hins : forall l y,
      In y (if String.eqb l todayListId
            then stored (freshId h (List.length (calls s ++ [TasksInsert todayListId (TaskService.resourceOf x)])))
                   (TaskService.resourceOf x) :: tasks s l
            else tasks s l) ->
      In y (tasks s l) \/ exists newId, y = moved newId x).
    { intros l y. destruct (String.eqb l todayListId); [|now left].
      intros [<-|Hy]; [right; eexists; reflexivity | now left]. }
    destruct (fault h (List.length (calls s ++ [TasksInsert todayListId (TaskService.resourceOf x)])))
      as [e|] eqn:F2.
    + exists 2%nat. cbn. rewrite <- app_assoc.
      split; [reflexivity|]. split; [lia|]. split; [discriminate|].
      exact Hins.
    + exists 2%nat. cbn. rewrite <- app_assoc.
      split; [reflexivity|]. split; [lia|]. split; [reflexivity|].
      intros l y Hy. apply (Hins l y).
      destruct (String.eqb l inboxId); [|exact Hy].
      apply filter_In in Hy. exact (proj1 Hy).
Qed.

(** The loop, whatever fails: the calls are an initial part of the
    relocations of the tasks it was given, and what a list gains are copies
    of those tasks. *)
Lemma relocate_all_any (l : list Task) (s : State) :
  exists k,
    calls (snd (forEach l (relocate h todayListId inboxId) s))
    = (calls s ++ List.firstn k (relocations todayListId inboxId l))%list /\
    forall m y,
      In y (tasks (snd (forEach l (relocate h todayListId inboxId) s)) m) ->
      In y (tasks s m) \/ exists newId x, In x l /\ y = moved newId x.
Proof.
  revert s. induction l as [|x l IH]; intros s.
  - exists 0%nat. cbn. rewrite app_nil_r. auto.
  - destruct (relocate_any x s) as (k1 & C1 & Hk1 & Hok1 & T1).
    cbn [forEach]. unfold bind.
    destruct (relocate h todayListId inboxId x s) as [[[]|e] s1] eqn:E;
      cbn [fst snd] in *.
    + specialize (Hok1 eq_refl). subst k1.
      destruct (IH s1) as (k & C & T).
      exists (2 + k)%nat. split.
      * rewrite C, C1. cbn. now rewrite <- app_assoc.
      * intros m y Hy. apply T in Hy.
        destruct Hy as [Hy|(newId & z & Hz & ->)].
        -- apply T1 in Hy. destruct Hy as [Hy|(newId & ->)]; [now left|].
           right. exists newId, x. split; [now left | reflexivity].
        -- right. exists newId, z. split; [now right | reflexivity].
    + exists k1. split.
      * rewrite C1. f_equal.
        change (relocations todayListId inboxId (x :: l))
          with (relocations todayListId inboxId [x]
                ++ relocations todayListId inboxId l)%list.
        rewrite firstn_app.
        replace (k1 - List.length (relocations todayListId inboxId [x]))%nat
          with 0%nat by (cbn; lia).
        cbn [List.firstn]. now rewrite app_nil_r.
      * intros m y Hy. apply T1 in Hy.
        destruct Hy as [Hy|(newId & ->)]; [now left|].
        right. exists newId, x. split; [now left | reflexivity].
Qed.

(** processInboxTasks, whatever fails: after the enumeration of the inbox,
    an initial part of the relocations of the tasks due today. *)
Lemma processInboxTasks_any (s : State) :
  exists k,
    calls (snd (processInboxTasks h todayListId inboxId s))
    = (calls s
       ++ TasksList inboxId
          :: List.firstn k
               (relocations todayListId inboxId
                  (List.filter
                     (dueToday (formatDate h (clock h (reads s)) "yyyy-MM-dd"))
                     (tasks s inboxId))))%list /\
    forall m y,
      In y (tasks (snd (processInboxTasks h todayListId inboxId s)) m) ->
      In y (tasks s m) \/
      exists newId x,
        In x (List.filter
                (dueToday (formatDate h (clock h (reads s)) "yyyy-MM-dd"))
                (tasks s inboxId)) /\
        y = moved newId x.
Proof.
  rewrite processInboxTasks_filter. unfold bind.
  destruct (TaskService.listAllTasks h inboxId s) as [r s1] eqn:E.
  apply listAllTasks_run in E. destruct E as [-> Hr].
  destruct Hr as [->|(e & ->)].
  - unfold newDate at 1 2. cbn [fst snd record_call reads tasks].
    destruct (relocate_all_any
                (List.filter
                   (dueToday (formatDate h (clock h (reads s)) "yyyy-MM-dd"))
                   (tasks s inboxId))
                (set_reads (S (reads s)) (record_call (TasksList inboxId) s)))
      as (k & C & T).
    exists k. split.
    + rewrite C. cbn. now rewrite <- app_assoc.
    + intros m y Hy. apply T in Hy. exact Hy.
  - exists 0%nat. cbn. auto.
Qed.

End InboxSweep.

(** C7. A task of the inbox with a non-empty recurrence rule, or with no
    due value, is never relocated by processInboxTasks, whatever its due
    date and whatever the calls that fail.  It is not among the tasks that
    pass the test of the loop.  The calls of processInboxTasks are the
    enumeration of the inbox and then an initial part of the insertions
    into today's list and removals from the inbox of the tasks that pass
    that test, in order: no insertion and no removal is made for the task.
    It is still in the inbox afterwards, no call removes it, and what
    today's list gains are copies of tasks that pass the test. *)
Theorem recurring_tasks_stay_in_inbox
  (h : Host) (todayListId inboxId : string) (s : State) (t : Task) :
  In t (tasks s inboxId) ->
  uniqueIn (tasks s inboxId) t ->
  truthy_opt (task_recurrence t) = true \/ truthy_opt (task_due t) = false ->
  ~ In t (List.filter
            (dueToday (formatDate h (clock h (reads s)) "yyyy-MM-dd"))
            (tasks s inboxId)) /\
  In t (tasks (snd (processInboxTasks h todayListId inboxId s)) inboxId) /\
  (exists k cs,
     calls (snd (processInboxTasks h todayListId inboxId s))
     = (calls s ++ cs)%list /\
     cs = TasksList inboxId
          :: List.firstn k
               (relocations todayListId inboxId
                  (List.filter
                     (dueToday (formatDate h (clock h (reads s)) "yyyy-MM-dd"))
                     (tasks s inboxId))) /\
     ~ In (TasksRemove inboxId (task_id t)) cs) /\
  forall y,
    In y (tasks (snd (processInboxTasks h todayListId inboxId s)) todayListId) ->
    In y (tasks s todayListId) \/
    exists newId x,
      In x (List.filter
              (dueToday (formatDate h (clock h (reads s)) "yyyy-MM-dd"))
              (tasks s inboxId)) /\
      y = moved newId x.
Proof.
  intros Hin Huniq Hskip.
  assert (Hdue : dueToday (formatDate h (clock h (reads s)) "yyyy-MM-dd") t
                 = false).
  { unfold dueToday. destruct Hskip as [-> | ->];
      [now rewrite orb_true_r | reflexivity]. }
  assert (Hnot : ~ In t (List.filter
                    (dueToday (formatDate h (clock h (reads s)) "yyyy-MM-dd"))
                    (tasks s inboxId))).
  { intros Habs. apply filter_In in Habs. destruct Habs as [_ Habs].
    congruence. }
  destruct (spared_processInboxTasks h todayListId inboxId t s Hdue Huniq)
    as [Ht _].
  destruct (processInboxTasks_any h todayListId inboxId s) as (k & C & T).
  split; [exact Hnot|]. split; [auto|]. split.
  - exists k. eexists. split; [exact C|]. split; [reflexivity|].
    intros [Habs|Habs]; [discriminate Habs|].
    apply in_firstn in Habs. unfold relocations in Habs.
    apply in_flat_map in Habs. destruct Habs as (x & Hx & [E|[E|[]]]);
      [discriminate E|].
    injection E as E. apply Hnot.
    assert (x = t); [|now subst x].
    apply filter_In in Hx. apply Huniq; [exact (proj1 Hx) | exact E].
  - intros y Hy. exact (T todayListId y Hy).
Qed.

(** *** When no call fails *)

Section InboxSweepFaultless.
Variable h : Host.
Hypothesis Hok : faultless h.
Variables todayListId inboxId : string.
Hypothesis Hdistinct : todayListId <> inboxId.

Lemma relocate_faultless (x : Task) (s : State) :
  exists newId s',
    relocate h todayListId inboxId x s = (Ok tt, s') /\
    tasks s' todayListId = moved newId x :: tasks s todayListId /\
    tasks s' inboxId
    = List.filter (fun t => negb (String.eqb (task_id t) (task_id x)))
        (tasks s inboxId) /\
    calls s' = (calls s ++ relocations todayListId inboxId [x])%list /\
    inboxMoves (stats s') = (inboxMoves (stats s) + 1)%Z.
Proof.
  unfold relocate, TaskService.move, TaskService.insertTask,
    TaskService.removeTask, bind, service, modify.
  rewrite !Hok. cbn.
  eexists. eexists. split; [reflexivity|]. cbn.
  rewrite String.eqb_refl.
  assert (H1 : String.eqb todayListId inboxId = false)
    by now apply String.eqb_neq.
  assert (H2 : String.eqb inboxId todayListId = false)
    by (apply String.eqb_neq; congruence).
  rewrite H1, H2, String.eqb_refl, <- app_assoc.
  repeat split.
Qed.

Lemma relocate_all_faultless (l : list Task) :
  forall s, exists s',
    forEach l (relocate h todayListId inboxId) s = (Ok tt, s') /\
    calls s' = (calls s ++ relocations todayListId inboxId l)%list /\
    inboxMoves (stats s')
    = (inboxMoves (stats s) + Z.of_nat (List.length l))%Z /\
    (forall x, In x l -> exists newId, In (moved newId x) (tasks s' todayListId)) /\
    (forall y, In y (tasks s todayListId) -> In y (tasks s' todayListId)) /\
    (forall y, In y (tasks s' inboxId) ->
       In y (tasks s inboxId) /\ forall x, In x l -> task_id y <> task_id x).
Proof.
  induction l as [|x l IH]; intros s.
  - exists s. cbn. rewrite app_nil_r.
    repeat split; auto; try lia; contradiction.
  - destruct (relocate_faultless x s) as (newId & s1 & E1 & T1 & I1 & C1 & M1).
    destruct (IH s1) as (s' & E & C & Mv & Hin & Hkeep & Hgone).
    exists s'. cbn [forEach]. unfold bind at 1. rewrite E1.
    split; [assumption|].
    split; [rewrite C, C1, <- app_assoc; reflexivity|].
    split; [rewrite Mv, M1; cbn [List.length]; lia|].
    split; [|split].
    + intros y [<-|Hy]; [|now apply Hin].
      exists newId. apply Hkeep. rewrite T1. now left.
    + intros y Hy. apply Hkeep. rewrite T1. now right.
    + intros y Hy. apply Hgone in Hy. destruct Hy as [Hy Hids].
      rewrite I1 in Hy. apply filter_In in Hy. destruct Hy as [Hy Hne].
      split; [assumption|]. intros z [<-|Hz]; [|now apply Hids].
      apply negb_true_iff, String.eqb_neq in Hne. assumption.
Qed.

(** The whole sweep when no call fails: it returns, and what it did is
    the relocation, in order, of the tasks due today. *)
Lemma processInboxTasks_faultless (s : State) :
  let due := List.filter
               (dueToday (formatDate h (clock h (reads s)) "yyyy-MM-dd"))
               (tasks s inboxId) in
  exists s',
    processInboxTasks h todayListId inboxId s = (Ok tt, s') /\
    calls s'
    = (calls s ++ TasksList inboxId :: relocations todayListId inboxId due)%list /\
    inboxMoves (stats s')
    = (inboxMoves (stats s) + Z.of_nat (List.length due))%Z /\
    (forall x, In x due -> exists newId, In (moved newId x) (tasks s' todayListId)) /\
    (forall y, In y (tasks s' inboxId) ->
       In y (tasks s inboxId) /\ forall x, In x due -> task_id y <> task_id x).
Proof.
  intros due. rewrite processInboxTasks_filter.
  unfold bind, TaskService.listAllTasks, service, gets, newDate.
  rewrite Hok. cbn [record_call tasks reads fst snd].
  destruct (relocate_all_faultless due
              (set_reads (S (reads s)) (record_call (TasksList inboxId) s)))
    as (s' & E & C & Mv & Hin & _ & Hgone).
  exists s'. fold due. split; [exact E|].
  split; [rewrite C; cbn; now rewrite <- app_assoc|].
  split; [exact Mv|]. split; [exact Hin | exact Hgone].
Qed.

Lemma relocations_removes (l : list Task) (t : Task) :
  In (TasksRemove inboxId (task_id t)) (relocations todayListId inboxId l) <->
  exists x, In x l /\ task_id x = task_id t.
Proof.
  unfold relocations. rewrite in_flat_map. split.
  - intros (x & Hx & [E|[E|[]]]); [discriminate E|].
    injection E as E. now exists x.
  - intros (x & Hx & E). exists x. split; [assumption|].
    right. left. now rewrite E.
Qed.

End InboxSweepFaultless.

Lemma truthy_or_empty (o : option string) (due : string) :
  o = Some due -> truthy due = true -> truthy_opt o = true.
Proof. now intros -> H. Qed.

Lemma dueToday_plain (d due : string) (t : Task) :
  task_due t = Some due -> truthy due = true ->
  truthy_opt (task_recurrence t) = false ->
  dueToday d t = String.eqb (substring 0 10 due) d.
Proof.
  intros Hdue Ht Hr. unfold dueToday.
  rewrite Hr, (truthy_or_empty _ _ Hdue Ht), Hdue. reflexivity.
Qed.

(** C8. For a task of the inbox with a due value and no recurrence, only
    the first ten characters of the due value, its calendar date, are
    compared with today's date string: when no call fails, the task is
    removed from the inbox exactly when they are equal, and it is then
    found in today's list; otherwise it stays.  The two timestamps of the
    specification have the same date component. *)
Theorem due_date_is_compared_by_day
  (h : Host) (todayListId inboxId : string) (s : State) (t : Task)
  (due : string) :
  faultless h -> todayListId <> inboxId ->
  In t (tasks s inboxId) -> uniqueIn (tasks s inboxId) t ->
  task_due t = Some due -> truthy due = true ->
  truthy_opt (task_recurrence t) = false ->
  let today := formatDate h (clock h (reads s)) "yyyy-MM-dd" in
  let s' := snd (processInboxTasks h todayListId inboxId s) in
  (exists cs,
     calls s' = (calls s ++ cs)%list /\
     (In (TasksRemove inboxId (task_id t)) cs <-> substring 0 10 due = today)) /\
  (substring 0 10 due = today ->
   exists newId, In (moved newId t) (tasks s' todayListId)) /\
  (substring 0 10 due <> today -> In t (tasks s' inboxId)) /\
  substring 0 10 "2025-07-10T23:59:00Z" = "2025-07-10" /\
  substring 0 10 "2025-07-10T00:00:00Z" = "2025-07-10".
Proof.
  intros Hok Hdistinct Hin Huniq Hdue Ht Hr today s'.
  destruct (processInboxTasks_faultless h Hok todayListId inboxId Hdistinct s)
    as (s1 & E & C & _ & Hmoved & _).
  assert (Hs' : s' = s1) by (unfold s'; now rewrite E).
  pose proof (dueToday_plain today due t Hdue Ht Hr) as Hd.
  fold today in C, Hmoved.
  split; [|split; [|split; [|split; reflexivity]]].
  - rewrite Hs'. eexists. split; [exact C|].
    split.
    + intros [Habs|Hrem]; [discriminate Habs|].
      apply relocations_removes in Hrem. destruct Hrem as (x & Hx & Hid).
      apply filter_In in Hx. destruct Hx as [Hxin Hx].
      rewrite (Huniq x Hxin Hid), Hd in Hx. now apply String.eqb_eq.
    + intros Heq. right. apply relocations_removes. exists t.
      split; [|reflexivity]. apply filter_In. split; [assumption|].
      rewrite Hd. now apply String.eqb_eq.
  - intros Heq. rewrite Hs'. apply Hmoved. apply filter_In.
    split; [assumption|]. rewrite Hd. now apply String.eqb_eq.
  - intros Hne.
    apply (spared_processInboxTasks h todayListId inboxId t s); auto.
    fold today. rewrite Hd. now apply String.eqb_neq.
Qed.

(** C10. A completed task of the inbox, without recurrence and due today,
    is relocated like any other (the inbox is enumerated without status
    filter), and its copy in today's list is open: when no call fails, the
    sweep returns, the copy is in today's list with status [needsAction],
    and the completed task is gone from the inbox. *)
Theorem completed_inbox_task_is_reopened
  (h : Host) (todayListId inboxId : string) (s : State) (t : Task)
  (due : string) :
  faultless h -> todayListId <> inboxId ->
  In t (tasks s inboxId) ->
  task_status t = completed ->
  truthy_opt (task_recurrence t) = false ->
  task_due t = Some due -> truthy due = true ->
  substring 0 10 due = formatDate h (clock h (reads s)) "yyyy-MM-dd" ->
  let s' := snd (processInboxTasks h todayListId inboxId s) in
  fst (processInboxTasks h todayListId inboxId s) = Ok tt /\
  (exists newId,
     In (moved newId t) (tasks s' todayListId) /\
     task_status (moved newId t) = needsAction) /\
  ~ In t (tasks s' inboxId) /\
  exists cs,
    calls s' = (calls s ++ cs)%list /\
    In (TasksInsert todayListId (TaskService.resourceOf t)) cs /\
    In (TasksRemove inboxId (task_id t)) cs.
Proof.
  intros Hok Hdistinct Hin Hst Hr Hdue Ht Heq s'.
  destruct (processInboxTasks_faultless h Hok todayListId inboxId Hdistinct s)
    as (s1 & E & C & _ & Hmoved & Hgone).
  assert (Hs' : s' = s1) by (unfold s'; now rewrite E).
  assert (Hsel : In t (List.filter
                         (dueToday (formatDate h (clock h (reads s))
                                      "yyyy-MM-dd")) (tasks s inboxId))).
  { apply filter_In. split; [assumption|].
    rewrite (dueToday_plain _ due t Hdue Ht Hr). now apply String.eqb_eq. }
  rewrite E, Hs'. split; [reflexivity|].
  split; [|split].
  - destruct (Hmoved t Hsel) as (newId & Hnew). exists newId. now split.
  - intros Habs. apply Hgone in Habs. destruct Habs as [_ Hids].
    now apply (Hids t Hsel).
  - eexists. split; [exact C|].
    split; right; unfold relocations; apply in_flat_map; exists t;
      (split; [assumption|]); [now left | right; now left].
Qed.

(** *** The inbox of July 10, 2025 *)

Lemma steady_faultless :
  faultless (Scenario.platform Scenario.steady Scenario.noFault).
Proof. intros n. reflexivity. Defined.

Lemma inboxDay_unique (t : Task) :
  In t (tasks Scenario.inboxDay "inbox") ->
  uniqueIn (tasks Scenario.inboxDay "inbox") t.
Proof.
  intros Hin t' Hin' Hid. vm_compute in Hin, Hin'.
  repeat (destruct Hin as [<-|Hin]);
    repeat (destruct Hin' as [<-|Hin']);
    try reflexivity; try discriminate Hid; contradiction.
Defined.

Lemma inboxDay_recurring : In Scenario.recurring (tasks Scenario.inboxDay "inbox").
Proof. vm_compute. right. left. reflexivity. Defined.

Lemma inboxDay_dueLate : In Scenario.dueLate (tasks Scenario.inboxDay "inbox").
Proof. vm_compute. left. reflexivity. Defined.

Lemma inboxDay_finished : In Scenario.finished (tasks Scenario.inboxDay "inbox").
Proof. vm_compute. right. right. left. reflexivity. Defined.

Lemma today_not_inbox : "d10" <> "inbox".
Proof. discriminate. Defined.

Local Notation inboxSweep :=
  (processInboxTasks (Scenario.platform Scenario.steady Scenario.noFault)
     "d10" "inbox" Scenario.inboxDay) (only parsing).

Lemma recurring_tasks_stay_in_inbox_witness :
  ~ In Scenario.recurring
      (List.filter
         (dueToday
            (formatDate (Scenario.platform Scenario.steady Scenario.noFault)
               (clock (Scenario.platform Scenario.steady Scenario.noFault)
                  (reads Scenario.inboxDay)) "yyyy-MM-dd"))
         (tasks Scenario.inboxDay "inbox")) /\
  In Scenario.recurring (tasks (snd inboxSweep) "inbox") /\
  (exists k cs,
     calls (snd inboxSweep) = (calls Scenario.inboxDay ++ cs)%list /\
     cs = TasksList "inbox"
          :: List.firstn k
               (relocations "d10" "inbox"
                  (List.filter
                     (dueToday
                        (formatDate
                           (Scenario.platform Scenario.steady Scenario.noFault)
                           (clock
                              (Scenario.platform Scenario.steady Scenario.noFault)
                              (reads Scenario.inboxDay)) "yyyy-MM-dd"))
                     (tasks Scenario.inboxDay "inbox"))) /\
     ~ In (TasksRemove "inbox" (task_id Scenario.recurring)) cs) /\
  forall y,
    In y (tasks (snd inboxSweep) "d10") ->
    In y (tasks Scenario.inboxDay "d10") \/
    exists newId x,
      In x (List.filter
              (dueToday
                 (formatDate (Scenario.platform Scenario.steady Scenario.noFault)
                    (clock (Scenario.platform Scenario.steady Scenario.noFault)
                       (reads Scenario.inboxDay)) "yyyy-MM-dd"))
              (tasks Scenario.inboxDay "inbox")) /\
      y = moved newId x.
Proof.
  apply (recurring_tasks_stay_in_inbox
           (Scenario.platform Scenario.steady Scenario.noFault)
           "d10" "inbox" Scenario.inboxDay Scenario.recurring).
  - exact inboxDay_recurring.
  - exact (inboxDay_unique _ inboxDay_recurring).
  - left. reflexivity.
Defined.

(** The sweep of that inbox on a platform whose fifth call, the removal of
    the second task due today, fails: the recurring task and the task
    without due value are still there, and so is the task whose removal
    failed, next to its copy in today's list. *)
Example interrupted_sweep :
  List.map task_id
    (tasks (snd (processInboxTasks
                   (Scenario.platform Scenario.steady
                      (Scenario.failAt 4 "Service unavailable"))
                   "d10" "inbox" Scenario.inboxDay)) "inbox")
  = List.map task_id
      (List.tl (tasks Scenario.inboxDay "inbox")) /\
  List.length
    (tasks (snd (processInboxTasks
                   (Scenario.platform Scenario.steady
                      (Scenario.failAt 4 "Service unavailable"))
                   "d10" "inbox" Scenario.inboxDay)) "d10")
  = (2 + List.length (tasks Scenario.inboxDay "d10"))%nat.
Proof. vm_compute. auto. Qed.

Lemma due_date_is_compared_by_day_witness :
  (exists cs,
     calls (snd inboxSweep) = (calls Scenario.inboxDay ++ cs)%list /\
     (In (TasksRemove "inbox" (task_id Scenario.dueLate)) cs <->
      substring 0 10 "2025-07-10T23:59:00Z"
      = formatDate (Scenario.platform Scenario.steady Scenario.noFault)
          (clock (Scenario.platform Scenario.steady Scenario.noFault)
             (reads Scenario.inboxDay)) "yyyy-MM-dd")) /\
  (substring 0 10 "2025-07-10T23:59:00Z"
   = formatDate (Scenario.platform Scenario.steady Scenario.noFault)
       (clock (Scenario.platform Scenario.steady Scenario.noFault)
          (reads Scenario.inboxDay)) "yyyy-MM-dd" ->
   exists newId, In (moved newId Scenario.dueLate) (tasks (snd inboxSweep) "d10")) /\
  (substring 0 10 "2025-07-10T23:59:00Z"
   <> formatDate (Scenario.platform Scenario.steady Scenario.noFault)
        (clock (Scenario.platform Scenario.steady Scenario.noFault)
           (reads Scenario.inboxDay)) "yyyy-MM-dd" ->
   In Scenario.dueLate (tasks (snd inboxSweep) "inbox")) /\
  substring 0 10 "2025-07-10T23:59:00Z" = "2025-07-10" /\
  substring 0 10 "2025-07-10T00:00:00Z" = "2025-07-10".
Proof.
  exact (due_date_is_compared_by_day
           (Scenario.platform Scenario.steady Scenario.noFault)
           "d10" "inbox" Scenario.inboxDay Scenario.dueLate
           "2025-07-10T23:59:00Z"
           steady_faultless today_not_inbox inboxDay_dueLate
           (inboxDay_unique _ inboxDay_dueLate) eq_refl eq_refl eq_refl).
Defined.

Lemma completed_inbox_task_is_reopened_witness :
  fst inboxSweep = Ok tt /\
  (exists newId,
     In (moved newId Scenario.finished) (tasks (snd inboxSweep) "d10") /\
     task_status (moved newId Scenario.finished) = needsAction) /\
  ~ In Scenario.finished (tasks (snd inboxSweep) "inbox") /\
  exists cs,
    calls (snd inboxSweep) = (calls Scenario.inboxDay ++ cs)%list /\
    In (TasksInsert "d10" (TaskService.resourceOf Scenario.finished)) cs /\
    In (TasksRemove "inbox" (task_id Scenario.finished)) cs.
Proof.
  exact (completed_inbox_task_is_reopened
           (Scenario.platform Scenario.steady Scenario.noFault)
           "d10" "inbox" Scenario.inboxDay Scenario.finished
           "2025-07-10T00:00:00Z"
           steady_faultless today_not_inbox inboxDay_finished
           eq_refl eq_refl eq_refl eq_refl eq_refl).
Defined.

(** The scenario of the specification: of a non-recurring and a recurring
    task due today, only the first moves. *)
Example inbox_sweep_scenario :
  inboxMoves (stats (snd inboxSweep)) = 2%Z /\
  List.map task_title (tasks (snd inboxSweep) "inbox")
  = ["Water plants"; "Some day"; "Book train"] /\
  List.map task_title (tasks (snd inboxSweep) "d10")
  = ["Send report"; "Pay rent"] /\
  List.map task_status (tasks (snd inboxSweep) "d10")
  = [needsAction; needsAction].
Proof. vm_compute. auto. Qed.

(** ** TaskService.move *)

Section Move.
Import Rollover RolloverFacts RolloverStep MigrationFacts.

Lemma emailBlock_includes (notes url : string) :
  includes (notes ++ TaskService.emailBlock url) url = true.
Proof.
  unfold TaskService.emailBlock. rewrite <- !append_assoc.
  apply includes_app_r.
Qed.

Lemma title_moved (newId : string) (t : Task) :
  task_title (moved newId t) = fst (TaskService.annotate t).
Proof.
  unfold moved, TaskService.resourceOf.
  now destruct (TaskService.annotate t).
Qed.

(** What the first move makes of the title and the notes. *)
Lemma annotate_cases (t : Task) :
  TaskService.annotate t = (task_title t, or_empty (task_notes t)) \/
  exists url,
    TaskService.emailLink t = Some url /\ truthy url = true /\
    includes (or_empty (task_notes t)) url = false /\
    TaskService.annotate t
    = (task_title t ++ " [from email]",
       or_empty (task_notes t) ++ TaskService.emailBlock url).
Proof.
  unfold TaskService.annotate.
  destruct (TaskService.emailLink t) as [url|]; [|now left].
  destruct (truthy url) eqn:Ht; [|now left].
  destruct (includes (or_empty (task_notes t)) url) eqn:Hi; [now left|].
  right. exists url. auto.
Qed.

(** Moving again a task whose notes already hold the link adds nothing. *)
Lemma annotate_again (t t1 : Task) :
  TaskService.emailLink t1 = TaskService.emailLink t ->
  task_notes t1 = Some (snd (TaskService.annotate t)) ->
  TaskService.annotate t1 = (task_title t1, snd (TaskService.annotate t)).
Proof.
  intros Hl Hn. unfold TaskService.annotate at 1. rewrite Hl, Hn.
  cbn [or_empty].
  destruct (annotate_cases t) as [E|(url & El & Ht & Hi & E)]; rewrite E.
  - cbn [snd]. unfold TaskService.annotate in E.
    destruct (TaskService.emailLink t) as [url|]; [|reflexivity].
    destruct (truthy url && negb (includes (or_empty (task_notes t)) url));
      [|reflexivity].
    injection E as E1 E2.
    (* the guard held, yet nothing was appended: impossible *)
    exfalso. clear - E2.
    assert (Hlen : String.length (or_empty (task_notes t)
                                  ++ TaskService.emailBlock url)
                   = String.length (or_empty (task_notes t)))
      by now rewrite E2.
    revert Hlen. generalize (or_empty (task_notes t)) as n.
    induction n as [|c n IH]; cbn; [discriminate|].
    intros H. injection H as H. auto.
  - cbn [snd]. rewrite El, emailBlock_includes, andb_false_r. reflexivity.
Qed.

End Move.

(** C5. Moving a task twice never adds the block of its email link twice.
    The first move either leaves title and notes as they are, or (the link
    is non-empty and not contained in the notes) appends [" [from email]"]
    to the title and the block to the notes.  The second move, of the copy
    as the server stored it or of a copy still carrying the links of the
    original, changes neither title nor notes. *)
Theorem provenance_block_at_most_once (t : Task) (id1 id2 : string) :
  (TaskService.annotate t = (task_title t, or_empty (task_notes t)) \/
   exists url,
     TaskService.emailLink t = Some url /\ truthy url = true /\
     includes (or_empty (task_notes t)) url = false /\
     TaskService.annotate t
     = (task_title t ++ " [from email]",
        or_empty (task_notes t) ++ TaskService.emailBlock url)) /\
  task_title (moved id2 (moved id1 t)) = task_title (moved id1 t) /\
  task_notes (moved id2 (moved id1 t)) = task_notes (moved id1 t) /\
  task_title (moved id2 (withLinks (task_links t) (moved id1 t)))
  = task_title (moved id1 t) /\
  task_notes (moved id2 (withLinks (task_links t) (moved id1 t)))
  = task_notes (moved id1 t).
Proof.
  split; [apply annotate_cases|].
  assert (Hrelinked :
    TaskService.annotate (withLinks (task_links t) (moved id1 t))
    = (task_title (moved id1 t), snd (TaskService.annotate t))).
  { apply (annotate_again t (withLinks (task_links t) (moved id1 t))).
    - reflexivity.
    - cbn [withLinks task_notes]. apply MigrationFacts.notes_moved. }
  split; [reflexivity|]. split; [reflexivity|].
  rewrite title_moved, !MigrationFacts.notes_moved, Hrelinked.
  split; reflexivity.
Qed.

(** *** What the copy is made of *)

Lemma emailLink_none (t : Task) :
  task_links t = None \/
  (exists links,
     task_links t = Some links /\
     forall l, In l links -> link_type l <> "email") ->
  TaskService.emailLink t = None.
Proof.
  unfold TaskService.emailLink.
  intros [->|(links & -> & Hno)]; [reflexivity|].
  replace (List.existsb TaskService.is_email links) with false; [reflexivity|].
  symmetry. apply not_true_is_false. intros H.
  apply existsb_exists in H. destruct H as (l & Hl & He).
  apply String.eqb_eq in He. exact (Hno l Hl He).
Qed.

Lemma emailLink_first (t : Task) (before after : list Link) (l : Link) :
  task_links t = Some (before ++ l :: after)%list ->
  (forall l', In l' before -> link_type l' <> "email") ->
  link_type l = "email" ->
  TaskService.emailLink t = Some (or_empty (link_link l)).
Proof.
  intros Hlinks Hno He. unfold TaskService.emailLink. rewrite Hlinks.
  assert (Hl : TaskService.is_email l = true)
    by (unfold TaskService.is_email; now rewrite He).
  replace (List.existsb TaskService.is_email (before ++ l :: after)) with true.
  2:{ symmetry. apply existsb_exists. exists l. split; [|exact Hl].
      apply in_or_app. right. now left. }
  clear Hlinks. induction before as [|x before IH]; cbn [List.find app].
  - now rewrite Hl.
  - replace (TaskService.is_email x) with false.
    + apply IH. intros l' Hl'. apply Hno. now right.
    + symmetry. apply String.eqb_neq. apply Hno. now left.
Qed.

Lemma annotate_plain (t : Task) :
  TaskService.emailLink t = None ->
  TaskService.annotate t = (task_title t, or_empty (task_notes t)).
Proof. intros H. unfold TaskService.annotate. now rewrite H. Qed.

Lemma annotate_linked (t : Task) (url : string) :
  TaskService.emailLink t = Some url ->
  TaskService.annotate t
  = if truthy url && negb (includes (or_empty (task_notes t)) url)
    then (task_title t ++ " [from email]",
          or_empty (task_notes t) ++ TaskService.emailBlock url)
    else (task_title t, or_empty (task_notes t)).
Proof. intros H. unfold TaskService.annotate. now rewrite H. Qed.

Lemma truthy_empty (u : string) : truthy u = false <-> u = "".
Proof. destruct u; cbn; split; intros H; congruence. Qed.

(** The copy that a returning insert call of [move] leaves on top of the
    destination list. *)
Lemma move_inserts
  (h : Host) (t : Task) (sourceListId destListId : string) (s : State) :
  fault h (List.length (calls s)) = None ->
  destListId <> sourceListId ->
  tasks (snd (TaskService.move h t sourceListId destListId s)) destListId
  = moved (freshId h (S (List.length (calls s)))) t :: tasks s destListId.
Proof.
  intros Hf Hne.
  unfold TaskService.move, TaskService.insertTask,
    TaskService.removeTask, bind, service, modify.
  rewrite Hf. cbn [record_call calls].
  rewrite length_app, Nat.add_1_r. cbn [List.length].
  apply String.eqb_neq in Hne.
  match goal with
  | |- context [fault h ?n] => destruct (fault h n)
  end; cbn; rewrite ?String.eqb_refl, ?Hne; reflexivity.
Qed.

(** As the specification words it, the claim fails: the links of the
    source count as well.  Two tasks with the same title, notes and due
    value, one made from a mail and one not, give different copies. *)
Lemma links_change_the_copy :
  ~ (forall t t2 : Task,
       task_title t2 = task_title t -> task_notes t2 = task_notes t ->
       task_due t2 = task_due t ->
       TaskService.resourceOf t2 = TaskService.resourceOf t).
Proof.
  intros H.
  specialize (H Scenario.fromMail (withLinks None Scenario.fromMail)
                eq_refl eq_refl eq_refl).
  vm_compute in H. discriminate H.
Qed.

(** C6, amended.  When its insert call returns and the two lists differ,
    [move] puts on top of the destination list a task built from the
    title, the notes, the due value and the links of the source, and from
    nothing else.  Its status is [needsAction] whatever the status of the
    source; it has no recurrence, no links and no completion date; its due
    value is that of the source when that is non-empty.  Without a link of
    type email, or when the link of the first such entry is empty or
    already contained in the notes, title and notes are those of the
    source (absent notes becoming empty); otherwise the title gains
    [" [from email]"] and the notes gain the block naming the link.  A
    source with the same title, notes, due value and links, whatever its
    status, identifier, recurrence and completion date, gives the same
    task. *)
Theorem move_builds_an_open_task
  (h : Host) (t : Task) (sourceListId destListId : string) (s : State) :
  fault h (List.length (calls s)) = None ->
  destListId <> sourceListId ->
  exists copy,
    tasks (snd (TaskService.move h t sourceListId destListId s)) destListId
    = copy :: tasks s destListId /\
    task_status copy = needsAction /\
    task_recurrence copy = None /\
    task_links copy = None /\
    task_completed copy = None /\
    (forall due, task_due t = Some due -> due <> "" ->
                 task_due copy = Some due) /\
    (task_due t = None \/ task_due t = Some "" -> task_due copy = None) /\
    (task_links t = None \/
     (exists links,
        task_links t = Some links /\
        forall l, In l links -> link_type l <> "email") ->
     task_title copy = task_title t /\
     task_notes copy = Some (or_empty (task_notes t))) /\
    (forall before l after,
       task_links t = Some (before ++ l :: after)%list ->
       (forall l', In l' before -> link_type l' <> "email") ->
       link_type l = "email" ->
       (or_empty (link_link l) = "" \/
        includes (or_empty (task_notes t)) (or_empty (link_link l)) = true ->
        task_title copy = task_title t /\
        task_notes copy = Some (or_empty (task_notes t))) /\
       (or_empty (link_link l) <> "" ->
        includes (or_empty (task_notes t)) (or_empty (link_link l)) = false ->
        task_title copy = task_title t ++ " [from email]" /\
        task_notes copy
        = Some (or_empty (task_notes t) ++ nl ++ nl ++ "---" ++ nl
                ++ "Original Email: " ++ or_empty (link_link l)))) /\
    forall t2,
      task_title t2 = task_title t -> task_notes t2 = task_notes t ->
      task_due t2 = task_due t -> task_links t2 = task_links t ->
      tasks (snd (TaskService.move h t2 sourceListId destListId s)) destListId
      = copy :: tasks s destListId.
Proof.
  intros Hf Hne.
  exists (moved (freshId h (S (List.length (calls s)))) t).
  split; [now apply move_inserts|].
  split; [reflexivity|]. split; [reflexivity|]. split; [reflexivity|].
  split; [reflexivity|].
  assert (Hdue : task_due (moved (freshId h (S (List.length (calls s)))) t)
                 = if truthy_opt (task_due t) then task_due t else None).
  { unfold moved, TaskService.resourceOf.
    now destruct (TaskService.annotate t). }
  split; [|split; [|split; [|split]]].
  - intros due Hd Hn. rewrite Hdue, Hd. cbn.
    destruct due; [contradiction | reflexivity].
  - intros [Hd|Hd]; rewrite Hdue, Hd; reflexivity.
  - intros Hno. rewrite title_moved, MigrationFacts.notes_moved.
    rewrite (annotate_plain t (emailLink_none t Hno)). split; reflexivity.
  - intros before l after Hlinks Hbefore Hl.
    rewrite title_moved, MigrationFacts.notes_moved.
    rewrite (annotate_linked t _ (emailLink_first t before after l Hlinks Hbefore Hl)).
    split.
    + intros [He|Hi].
      * apply truthy_empty in He. rewrite He. split; reflexivity.
      * rewrite Hi, andb_false_r. split; reflexivity.
    + intros He Hi. rewrite Hi.
      destruct (truthy (or_empty (link_link l))) eqn:Ht.
      * cbn [andb negb fst snd]. split; [reflexivity|].
        unfold TaskService.emailBlock. now rewrite <- ?append_assoc.
      * apply truthy_empty in Ht. contradiction.
  - intros t2 H1 H2 H3 H4. rewrite (move_inserts h t2) by assumption.
    unfold moved. f_equal.
    unfold TaskService.resourceOf, TaskService.annotate,
      TaskService.emailLink.
    now rewrite H1, H2, H3, H4.
Qed.

Lemma move_builds_an_open_task_witness :
  exists copy,
    tasks (snd (TaskService.move
                  (Scenario.platform Scenario.steady Scenario.noFault)
                  Scenario.fromMail "inbox" "d10" Scenario.inboxDay)) "d10"
    = copy :: tasks Scenario.inboxDay "d10" /\
    task_status copy = needsAction /\
    task_title copy = "Reply to Ann [from email]" /\
    task_notes copy
    = Some ("Before Friday." ++ nl ++ nl ++ "---" ++ nl
            ++ "Original Email: https://mail.google.com/mail/#all/18c2").
Proof.
  destruct (move_builds_an_open_task
              (Scenario.platform Scenario.steady Scenario.noFault)
              Scenario.fromMail "inbox" "d10" Scenario.inboxDay
              eq_refl today_not_inbox)
    as (copy & Htop & Hstatus & _ & _ & _ & _ & _ & _ & Hlinked & _).
  exists copy. split; [exact Htop|]. split; [exact Hstatus|].
  refine (proj2 (Hlinked
                   [mkLink "related" (Some "https://example.org/doc")]
                   (mkLink "email"
                      (Some "https://mail.google.com/mail/#all/18c2"))
                   [] eq_refl _ eq_refl) _ eq_refl).
  - intros l' [<-|[]]. discriminate.
  - discriminate.
Defined.

(** A completed task, moved: its copy is open. *)
Example finished_task_is_reopened_by_move :
  List.map (fun c => (task_title c, task_status c, task_completed c))
    (tasks (snd (TaskService.move
                   (Scenario.platform Scenario.steady Scenario.noFault)
                   Scenario.finished "inbox" "d10" Scenario.inboxDay)) "d10")
  = [(task_title Scenario.finished, needsAction, None)] /\
  task_status Scenario.finished = completed.
Proof. vm_compute. auto. Qed.

(** ** migrateIncompleteTasks and the rollover counter *)







(** Two migrations of the task that was rolled over three times, and three
    of a task made from a mail. *)
Example migrations_along_a_route :
  List.map task_notes
    (tasks (snd (migrateAlong
                   (Scenario.platform Scenario.steady Scenario.noFault)
                   "d8" ["d9"; "inbox"]
                   (carried "d8" Scenario.rolledBefore))) "inbox")
  = [Some ("This task has been rolled over before." ++ nl ++ nl
           ++ "Rollover Count: 5")] /\
  List.map (fun t => (task_title t, task_notes t))
    (tasks (snd (migrateAlong
                   (Scenario.platform Scenario.steady Scenario.noFault)
                   "d7" ["d8"; "d9"; "inbox"]
                   (carried "d7" Scenario.fromMail))) "inbox")
  = [("Reply to Ann [from email]",
      Some ("Before Friday." ++ nl ++ nl ++ "Rollover Count: 3" ++ nl ++ nl
            ++ "---" ++ nl
            ++ "Original Email: https://mail.google.com/mail/#all/18c2"))].
Proof. vm_compute. auto. Qed.

(** At [2^53] the count, a JavaScript number, does not move any more, and
    from [10^21] on it is printed with an exponent. *)
Example count_beyond_the_safe_integers :
  Rollover.bump (Some "Rollover Count: 9007199254740992")
  = "Rollover Count: 9007199254740992" /\
  Rollover.bump (Some "Rollover Count: 9007199254740991")
  = "Rollover Count: 9007199254740992" /\
  Rollover.bump (Some "Rollover Count: 1000000000000000000000")
  = "Rollover Count: 1e+21".
Proof. vm_compute. auto. Qed.

(** The end-to-end scenario of the specification. *)
Example end_to_end :
  let h := Scenario.platform Scenario.steady Scenario.noFault in
  let s' := snd (dailyRunner h Scenario.morning) in
  fst (dailyRunner h Scenario.morning) = Ok tt /\
  List.map list_title (lists s') = ["Inbox"; "[Daily] July 10, 2025"] /\
  List.map (fun t => (task_title t, task_notes t)) (tasks s' "inbox")
  = [("Buy milk", Some "Rollover Count: 1")] /\
  stats s'
  = mkRunStat 0 1 1 1 0
      [mkCompletedEntry "Call Bob" (Some "2025-07-09T17:00:00.000Z")] "" /\
  held s' = false.
Proof. vm_compute. auto 6. Qed.

(** * Further properties of the code *)

(** ** rolloverProcess: the inbox and the other lists *)

(** A configured inbox that does not exist is a fatal error of the run:
    rolloverProcess throws before it touches any list or task.  Once the
    set-up of the log sheet has returned and the lists are enumerated, the
    exception names the missing inbox; a set-up that throws ends
    rolloverProcess even earlier, with its own exception. *)
Theorem missing_inbox_is_fatal
  (h : Host) (todayTitle : string) (startTime : Z) (s : State) :
  fault h (S (List.length (calls s))) = None ->
  (forall l, In l (lists s) -> list_title l <> inboxListName h) ->
  rolloverProcess h todayTitle startTime s
  = match fault h (List.length (calls s)) with
    | None =>
        (Throw ("Inbox list " ++ dq ++ inboxListName h ++ dq ++ " not found."),
         record_call TasklistsList (record_call LogSetup s))
    | Some message => (Throw message, record_call LogSetup s)
    end.
Proof.
  intros Hf Hnone.
  assert (Hfind : List.find (fun l => String.eqb (list_title l)
                                        (inboxListName h)) (lists s) = None).
  { destruct (List.find _ (lists s)) as [l|] eqn:E; [|reflexivity].
    apply find_some in E. destruct E as [Hin Ht].
    apply String.eqb_eq in Ht. now elim (Hnone l Hin). }
  unfold rolloverProcess, LoggingSheetUtil.setup,
    ListService.getListByTitle, ListService.listAll, service, gets, bind.
  destruct (fault h (List.length (calls s))) as [message|]; [reflexivity|].
  cbn [ret record_call calls].
  rewrite length_app, Nat.add_1_r.
  rewrite Hf. cbn [record_call lists ret]. rewrite Hfind. reflexivity.
Qed.

Lemma missing_inbox_is_fatal_witness :
  rolloverProcess (Scenario.platform Scenario.steady Scenario.noFault)
    "July 10, 2025" 0
    (mkState [Scenario.july9] (tasks Scenario.morning) true 1 []
       Scenario.emptyStats)
  = (Throw ("Inbox list " ++ dq
            ++ inboxListName
                 (Scenario.platform Scenario.steady Scenario.noFault)
            ++ dq ++ " not found."),
     record_call TasklistsList
       (record_call LogSetup
          (mkState [Scenario.july9] (tasks Scenario.morning) true 1 []
             Scenario.emptyStats))).
Proof.
  apply (missing_inbox_is_fatal
           (Scenario.platform Scenario.steady Scenario.noFault)
           "July 10, 2025" 0
           (mkState [Scenario.july9] (tasks Scenario.morning) true 1 []
              Scenario.emptyStats)).
  - reflexivity.
  - intros l [<-|[]]. discriminate.
Defined.

#[export] Instance untouched_preorder (x : TaskList) : PreOrder (untouched x).
Proof.
  split.
  - intros s. split; auto. apply emits_refl.
  - intros a b c [T1 K1 C1] [T2 K2 C2]. split.
    + congruence.
    + auto.
    + eapply emits_trans; eassumption.
Qed.

Lemma untouched_confined (allowed : string -> bool) (x : TaskList)
  (s s' : State) :
  confined allowed s s' -> allowed (list_id x) = false -> untouched x s s'.
Proof.
  intros [T K _ C _] Hx. split; auto.
  eapply emits_weaken; [|eassumption].
  intros c (l & Hc & Hl) Habs. rewrite Hc in Habs. injection Habs as ->.
  congruence.
Qed.

Lemma untouched_record (x : TaskList) (c : Call) (s : State) :
  target c = None -> untouched x s (record_call c s).
Proof.
  intros Hc. split; auto.
  exists [c]. split; [reflexivity|]. constructor; [|constructor].
  rewrite Hc. discriminate.
Qed.

Lemma ids_identify {A B} (f : A -> B) (l : list A) (a b : A) :
  NoDup (List.map f l) -> In a l -> In b l -> f a = f b -> a = b.
Proof.
  induction l as [|y l IH]; intros Hnd Ha Hb E; [contradiction|].
  cbn in Hnd. inversion Hnd as [|? ? Hy Hnd']; subst.
  destruct Ha as [->|Ha], Hb as [->|Hb]; auto.
  - elim Hy. rewrite E. now apply in_map.
  - elim Hy. rewrite <- E. now apply in_map.
Qed.

Section OtherLists.
Variable h : Host.

Lemma confined_sweep (inboxId : string) (startTime : Z) (l : list TaskList) :
  keeps (confined (sweepable inboxId l)) (sweep h inboxId startTime l).
Proof.
  induction l as [|x l IH]; cbn [sweep]; keeps_structure.
  - intros s. apply confined_set_reads.
  - destruct (timedOut h a startTime); keeps_structure.
    + apply confined_set_stats.
    + apply confined_processStaleList;
        [apply sweepable_inbox | apply sweepable_head].
    + intros s. eapply confined_weaken; [|apply IH].
      intros l0. apply sweepable_tail.
Qed.

Lemma untouched_listAll (x : TaskList) : keeps (untouched x) (ListService.listAll h).
Proof.
  unfold ListService.listAll. keeps_structure. now apply untouched_record.
Qed.

Lemma untouched_createList (x : TaskList) (title : string) :
  keeps (untouched x) (ListService.createList h title).
Proof.
  unfold ListService.createList. keeps_structure.
  - now apply untouched_record.
  - intros s. split; cbn; auto.
    + intros Hin. apply in_or_app. now left.
    + now apply emits_same.
Qed.

Lemma untouched_rolloverProcess (todayTitle : string) (startTime : Z)
  (x : TaskList) (s : State) :
  (forall inbox,
     List.find (fun l => String.eqb (list_title l) (inboxListName h)) (lists s)
     = Some inbox ->
     sweepable (list_id inbox)
       (List.filter (isStale h todayTitle) (lists s)) (list_id x) = false) ->
  untouched x s (snd (rolloverProcess h todayTitle startTime s)).
Proof.
  intros Hfree. unfold rolloverProcess, bind.
  assert (H1 : untouched x s (record_call LogSetup s))
    by now apply untouched_record.
  destruct (LoggingSheetUtil.setup h s) as [r0 s1] eqn:E1.
  apply setup_run in E1. destruct E1 as [-> Hr0].
  destruct Hr0 as [->|(e & ->)]; [|exact H1].
  destruct (ListService.getListByTitle h (inboxListName h)
              (record_call LogSetup s)) as [r s2] eqn:E2.
  apply getListByTitle_run in E2. destruct E2 as [-> Hr].
  assert (H2 : untouched x s (record_call TasklistsList (record_call LogSetup s)))
    by (etransitivity; [exact H1 | now apply untouched_record]).
  destruct Hr as [->|(e & ->)]; [|exact H2].
  cbn [record_call lists].
  destruct (List.find _ (lists s)) as [inbox|] eqn:Hfind; [|exact H2].
  destruct (ListService.listAll h _) as [r3 s3] eqn:E3.
  apply listAll_run in E3. destruct E3 as [-> Hr3].
  match goal with
  | |- context [record_call TasklistsList (record_call TasklistsList ?y)] =>
      assert (H3 : untouched x s (record_call TasklistsList
                                    (record_call TasklistsList y)))
        by (etransitivity; [exact H2 | now apply untouched_record])
  end.
  destruct Hr3 as [->|(e & ->)]; [|exact H3].
  cbn [record_call lists].
  match goal with
  | |- context [sweep h ?i ?st ?l ?s0] =>
      pose proof (confined_sweep i st l s0) as Hsweep;
      destruct (sweep h i st l s0) as [[[]|e] s4]
  end; cbn [snd] in Hsweep;
    apply (fun H => untouched_confined _ x _ _ H (Hfree inbox eq_refl)) in Hsweep;
    assert (H4 : untouched x s s4) by (etransitivity; eassumption);
    [|exact H4].
  destruct (List.find (isToday h todayTitle) (lists s)) as [today|];
    [exact H4|].
  cbn [bind]. unfold bind.
  pose proof (untouched_createList x (todayListFullName h todayTitle) s4) as H5.
  destruct (ListService.createList h (todayListFullName h todayTitle) s4)
    as [[l|e] s5]; cbn in H5 |- *.
  - transitivity s4; [exact H4|]. transitivity s5; [exact H5|].
    split; auto. now apply emits_same.
  - transitivity s4; [exact H4 | exact H5].
Qed.

End OtherLists.

(** rolloverProcess never touches a list that is neither stale nor the
    inbox, today's list included: the list stays in the store with its
    tasks, and no call of the run is made on it, whatever fails. *)
Theorem other_lists_are_untouched
  (h : Host) (todayTitle : string) (startTime : Z) (s : State)
  (x : TaskList) :
  NoDup (List.map list_id (lists s)) ->
  In x (lists s) ->
  isStale h todayTitle x = false ->
  list_title x <> inboxListName h ->
  let s' := snd (rolloverProcess h todayTitle startTime s) in
  In x (lists s') /\
  tasks s' (list_id x) = tasks s (list_id x) /\
  exists cs, calls s' = (calls s ++ cs)%list /\
             Forall (fun c => target c <> Some (list_id x)) cs.
Proof.
  intros Hnd Hin Hstale Htitle s'.
  destruct (untouched_rolloverProcess h todayTitle startTime x s) as [T K C].
  - intros inbox Hfind. apply find_some in Hfind.
    destruct Hfind as [Hinbox Hname]. apply String.eqb_eq in Hname.
    unfold sweepable. apply orb_false_iff. split.
    + apply String.eqb_neq. intros E.
      assert (x = inbox) by (eapply ids_identify; eauto).
      subst. contradiction.
    + apply not_true_is_false. intros Hex.
      apply existsb_exists in Hex. destruct Hex as (y & Hy & E).
      apply String.eqb_eq in E. apply filter_In in Hy.
      destruct Hy as [Hy Hys].
      assert (x = y) by (eapply ids_identify; eauto).
      subst. congruence.
  - auto.
Qed.

Lemma desk_ids : NoDup (List.map list_id (lists Cases.desk)).
Proof.
  cbn. repeat constructor; cbn; intuition discriminate.
Defined.

Lemma other_lists_are_untouched_witness :
  let h := Scenario.platform Scenario.steady Scenario.noFault in
  let s' := snd (rolloverProcess h "July 10, 2025" 0 Cases.desk) in
  In Cases.projects (lists s') /\
  tasks s' (list_id Cases.projects) = tasks Cases.desk (list_id Cases.projects) /\
  exists cs, calls s' = (calls Cases.desk ++ cs)%list /\
             Forall (fun c => target c <> Some (list_id Cases.projects)) cs.
Proof.
  refine (other_lists_are_untouched
            (Scenario.platform Scenario.steady Scenario.noFault)
            "July 10, 2025" 0 Cases.desk Cases.projects desk_ids _ _ _).
  - right. right. left. reflexivity.
  - vm_compute. reflexivity.
  - discriminate.
Defined.

(** ** The sweep when the budget holds *)

Section FullSweep.
Variable h : Host.

Lemma deleteList_run (listId : string) (s s' : State) :
  ListService.deleteList h listId s = (Ok tt, s') ->
  lists s'
  = List.filter (fun l => negb (String.eqb (list_id l) listId)) (lists s).
Proof.
  unfold ListService.deleteList, service, modify.
  destruct (fault h _); [discriminate|]. now intros [= <-].
Qed.

Lemma processStaleList_notes (inboxId : string) (staleList : TaskList) :
  stable (fun s => notes (stats s)) (processStaleList h inboxId staleList).
Proof.
  assert (Hb : storeBlind (fun s => notes (stats s))) by now split.
  unfold processStaleList, stable. keeps_structure; try reflexivity.
  - now apply stable_migrateIncompleteTasks.
  - now apply stable_getCompletedTasksFromList.
  - now apply stable_deleteList.
Qed.

(** A stale list processed to the end is gone from the store. *)
Lemma processStaleList_deletes (inboxId : string) (staleList : TaskList)
  (s s' : State) :
  processStaleList h inboxId staleList s = (Ok tt, s') ->
  forall y, In y (lists s') -> list_id y <> list_id staleList.
Proof.
  unfold processStaleList. intros H.
  apply bind_ok in H. destruct H as (moved & s1 & E1 & H).
  apply bind_ok in H. destruct H as ([] & s2 & E2 & H).
  apply bind_ok in H. destruct H as (found & s3 & E3 & H).
  apply bind_ok in H. destruct H as ([] & s4 & E4 & H).
  apply bind_ok in H. destruct H as ([] & s5 & E5 & H).
  apply deleteList_run in E5. injection H as <-.
  cbn [set_stats lists]. rewrite E5. intros y Hy.
  apply filter_In in Hy. destruct Hy as [_ Hy].
  now apply negb_true_iff, String.eqb_neq in Hy.
Qed.

Lemma sweep_lists_shrink (inboxId : string) (startTime : Z)
  (l : list TaskList) (s : State) :
  forall y, In y (lists (snd (sweep h inboxId startTime l s))) ->
            In y (lists s).
Proof.
  intros y Hy.
  now apply (confined_old _ _ _ (confined_sweep h inboxId startTime l s)).
Qed.

(** When no check finds the budget exceeded, a sweep that returns has
    processed every stale list: each is counted as deleted and is gone
    from the store, and the note of the run is as it was. *)
Theorem sweep_within_budget_deletes_all
  (inboxId : string) (startTime : Z) (staleLists : list TaskList) :
  forall s s',
    (forall i, i < List.length staleLists ->
       timedOut h (clock h (reads s + i)) startTime = false) ->
    sweep h inboxId startTime staleLists s = (Ok tt, s') ->
    listDeleted (stats s')
    = (listDeleted (stats s) + Z.of_nat (List.length staleLists))%Z /\
    notes (stats s') = notes (stats s) /\
    reads s' = reads s + List.length staleLists /\
    forall x y, In x staleLists -> In y (lists s') -> list_id y <> list_id x.
Proof.
  induction staleLists as [|x l IH]; intros s s' Hbudget Hrun.
  - injection Hrun as <-. cbn.
    split; [lia|]. split; [reflexivity|]. split; [lia|].
    intros x y [].
  - cbn [sweep] in Hrun.
    apply bind_ok in Hrun. destruct Hrun as (now & s1 & E1 & Hrun).
    unfold newDate in E1. injection E1 as <- <-.
    assert (Hcheck : timedOut h (clock h (reads s)) startTime = false).
    { rewrite <- (Nat.add_0_r (reads s)). apply Hbudget. cbn. lia. }
    rewrite Hcheck in Hrun.
    apply bind_ok in Hrun. destruct Hrun as ([] & s2 & E2 & Hrun).
    pose proof (processStaleList_counts _ _ _ _ _ E2) as Hcount.
    pose proof (stable_at reads _ _ _ _
                  (processStaleList_reads h inboxId x) E2) as Hreads.
    pose proof (stable_at (fun s => notes (stats s)) _ _ _ _
                  (processStaleList_notes inboxId x) E2) as Hnotes.
    pose proof (processStaleList_deletes _ _ _ _ E2) as Hgone.
    cbn [set_reads reads stats] in Hcount, Hreads, Hnotes.
    destruct (IH s2 s') as (Hd & Hn & Hr & Hall); auto.
    + intros i Hi. rewrite Hreads.
      replace (S (reads s) + i) with (reads s + S i) by lia.
      apply Hbudget. cbn. lia.
    + split; [rewrite Hd, Hcount; cbn [List.length]; lia|].
      split; [congruence|].
      split; [rewrite Hr, Hreads; cbn [List.length]; lia|].
      intros x0 y [<-|Hx0] Hy; [|now apply (Hall x0 y)].
      apply Hgone.
      pose proof (sweep_lists_shrink inboxId startTime l s2 y) as Hsub.
      rewrite Hrun in Hsub. now apply Hsub.
Qed.

End FullSweep.

Local Notation fullSweep :=
  (sweep (Scenario.platform Scenario.steady Scenario.noFault) "inbox" 0
     [Scenario.july5; Scenario.july6; Scenario.july7; Scenario.july8;
      Scenario.july9] Scenario.backlog) (only parsing).

Lemma sweep_within_budget_deletes_all_witness :
  listDeleted (stats (snd fullSweep))
  = (listDeleted (stats Scenario.backlog)
     + Z.of_nat (List.length [Scenario.july5; Scenario.july6; Scenario.july7;
                              Scenario.july8; Scenario.july9]))%Z /\
  notes (stats (snd fullSweep)) = notes (stats Scenario.backlog) /\
  reads (snd fullSweep)
  = reads Scenario.backlog
    + List.length [Scenario.july5; Scenario.july6; Scenario.july7;
                   Scenario.july8; Scenario.july9] /\
  forall x y,
    In x [Scenario.july5; Scenario.july6; Scenario.july7; Scenario.july8;
          Scenario.july9] ->
    In y (lists (snd fullSweep)) -> list_id y <> list_id x.
Proof.
  apply (sweep_within_budget_deletes_all
           (Scenario.platform Scenario.steady Scenario.noFault) "inbox" 0).
  - intros i Hi.
    do 5 (destruct i as [|i]; [vm_compute; reflexivity|]).
    cbn in Hi. lia.
  - apply run_ok. vm_compute. reflexivity.
Defined.

(** ** TaskService.move: create before delete *)

(** A move never loses the task.  The copy is inserted before the source
    is removed: if the insert call fails nothing has changed; if the
    remove call fails the task is in both lists; when [move] returns, the
    copy is on top of the destination list and no task with the identifier
    of the source is left in the source list. *)
Theorem move_never_loses_the_task
  (h : Host) (t : Task) (sourceListId destListId : string) (s : State) :
  destListId <> sourceListId ->
  In t (tasks s sourceListId) ->
  let r := fst (TaskService.move h t sourceListId destListId s) in
  let s' := snd (TaskService.move h t sourceListId destListId s) in
  (In t (tasks s' sourceListId) \/
   exists newId, In (moved newId t) (tasks s' destListId)) /\
  (forall e, r = Throw e -> In t (tasks s' sourceListId)) /\
  (r = Ok tt ->
   (exists newId, tasks s' destListId = moved newId t :: tasks s destListId) /\
   forall y, In y (tasks s' sourceListId) -> task_id y <> task_id t) /\
  (fault h (List.length (calls s)) <> None ->
   tasks s' sourceListId = tasks s sourceListId /\
   tasks s' destListId = tasks s destListId) /\
  (fault h (List.length (calls s)) = None ->
   forall e, r = Throw e ->
   In t (tasks s' sourceListId) /\
   exists newId, tasks s' destListId = moved newId t :: tasks s destListId).
Proof.
  intros Hne Hin r s'.
  assert (H1 : String.eqb destListId sourceListId = false)
    by now apply String.eqb_neq.
  assert (H2 : String.eqb sourceListId destListId = false)
    by (apply String.eqb_neq; congruence).
  unfold r, s', TaskService.move, TaskService.insertTask,
    TaskService.removeTask, bind, service, modify.
  destruct (fault h (List.length (calls s))) as [e1|] eqn:F1.
  - cbn. split; [now left|]. split; [auto|].
    split; [discriminate|]. split; [auto|]. discriminate.
  - cbn [record_call calls fst snd].
    match goal with
    | |- context [fault h ?n] => destruct (fault h n) as [e2|]
    end; cbn; rewrite ?String.eqb_refl, ?H1, ?H2.
    + split; [now left|]. split; [auto|].
      split; [discriminate|].
      split; [intros Habs; now elim Habs|].
      intros _ e _. split; [assumption | eexists; reflexivity].
    + split; [right; eexists; now left|].
      split; [discriminate|].
      split; [|split; [intros Habs; now elim Habs | discriminate]].
      intros _. split; [eexists; reflexivity|].
      intros y Hy. apply filter_In in Hy. destruct Hy as [_ Hy].
      now apply negb_true_iff, String.eqb_neq in Hy.
Qed.

(** The remove call of a move fails: the task is in both lists. *)
Lemma move_never_loses_the_task_witness :
  let h := Scenario.platform Scenario.steady
             (Scenario.failAt 1 "Backend Error") in
  let r := fst (TaskService.move h Scenario.dueLate "inbox" "d10"
                  Scenario.inboxDay) in
  let s' := snd (TaskService.move h Scenario.dueLate "inbox" "d10"
                   Scenario.inboxDay) in
  In Scenario.dueLate (tasks s' "inbox") /\
  exists newId,
    tasks s' "d10" = moved newId Scenario.dueLate :: tasks Scenario.inboxDay "d10".
Proof.
  intros h r s'.
  refine (proj2 (proj2 (proj2 (proj2
            (move_never_loses_the_task h Scenario.dueLate "inbox" "d10"
               Scenario.inboxDay today_not_inbox inboxDay_dueLate))))
            eq_refl "Backend Error" _).
  vm_compute. reflexivity.
Defined.

(** ** CompletedTaskService: the paginated enumeration *)

Section Pages.
Variable h : Host.

Lemma pages_concat (fuel : nat) (l : list Task) :
  List.concat (CompletedTaskService.pages fuel l) = l.
Proof.
  revert l. induction fuel as [|fuel IH]; intros l;
    cbn [CompletedTaskService.pages].
  - cbn. apply app_nil_r.
  - destruct (List.length l <=? 100)%nat.
    + cbn. apply app_nil_r.
    + cbn [List.concat]. rewrite IH. apply firstn_skipn.
Qed.

Lemma pages_bounded (fuel : nat) (l : list Task) :
  List.length l <= 100 * S fuel ->
  Forall (fun p => List.length p <= 100) (CompletedTaskService.pages fuel l).
Proof.
  revert l. induction fuel as [|fuel IH]; intros l Hl;
    cbn [CompletedTaskService.pages].
  - constructor; [lia | constructor].
  - destruct (Nat.leb_spec (List.length l) 100).
    + constructor; [assumption | constructor].
    + constructor.
      * rewrite length_firstn. lia.
      * apply IH. rewrite length_skipn. lia.
Qed.

Lemma fetch_faultless (listId : string) (ps : list (list Task)) :
  faultless h ->
  forall acc s,
    CompletedTaskService.fetch h listId ps acc s
    = (Ok (acc ++ List.concat ps)%list,
       mkState (lists s) (tasks s) (held s) (reads s)
         (calls s ++ List.repeat (TasksList listId) (List.length ps))
         (stats s)).
Proof.
  intros Hok. induction ps as [|p ps IH]; intros acc s;
    cbn [CompletedTaskService.fetch].
  - cbn. rewrite !app_nil_r. now destruct s.
  - unfold bind, service. rewrite Hok. cbn [ret].
    rewrite IH. cbn. now rewrite <- !app_assoc.
Qed.

End Pages.

(** The completed tasks of a list are read page by page, a hundred tasks
    at most per page, and merged: when no call fails, the result is the
    title and completion time of every completed task of the list, in the
    order of the list, one call was made per page, and the store is
    unchanged. *)
Theorem completed_tasks_are_merged_from_pages
  (h : Host) (listId : string) (s : State) :
  faultless h ->
  let ps := CompletedTaskService.pages (List.length (tasks s listId))
              (tasks s listId) in
  CompletedTaskService.getCompletedTasksFromList h listId s
  = (Ok (List.map
           (fun t => mkCompletedEntry (task_title t) (task_completed t))
           (List.filter (fun t => Status_eqb (task_status t) completed)
              (tasks s listId))),
     mkState (lists s) (tasks s) (held s) (reads s)
       (calls s ++ List.repeat (TasksList listId) (List.length ps))
       (stats s)) /\
  List.concat ps = tasks s listId /\
  Forall (fun p => List.length p <= 100) ps /\
  1 <= List.length ps.
Proof.
  intros Hok ps. split; [|split; [|split]].
  - unfold CompletedTaskService.getCompletedTasksFromList,
      CompletedTaskService.listCompletedTasks, bind, gets.
    rewrite (fetch_faultless h listId _ Hok). cbn [ret app].
    fold ps. unfold ps at 1. now rewrite pages_concat.
  - apply pages_concat.
  - apply pages_bounded. lia.
  - unfold ps. destruct (List.length (tasks s listId)) as [|n];
      cbn [CompletedTaskService.pages]; [cbn; lia|].
    destruct (_ <=? _)%nat; cbn; lia.
Qed.

Lemma completed_tasks_are_merged_from_pages_witness :
  let h := Scenario.platform Scenario.steady Scenario.noFault in
  let ps := CompletedTaskService.pages
              (List.length (tasks Cases.desk "d9")) (tasks Cases.desk "d9") in
  CompletedTaskService.getCompletedTasksFromList h "d9" Cases.desk
  = (Ok (List.map
           (fun t => mkCompletedEntry (task_title t) (task_completed t))
           (List.filter (fun t => Status_eqb (task_status t) completed)
              (tasks Cases.desk "d9"))),
     mkState (lists Cases.desk) (tasks Cases.desk) (held Cases.desk)
       (reads Cases.desk)
       (calls Cases.desk ++ List.repeat (TasksList "d9") (List.length ps))
       (stats Cases.desk)) /\
  List.concat ps = tasks Cases.desk "d9" /\
  Forall (fun p => List.length p <= 100) ps /\
  1 <= List.length ps.
Proof.
  exact (completed_tasks_are_merged_from_pages
           (Scenario.platform Scenario.steady Scenario.noFault) "d9"
           Cases.desk steady_faultless).
Defined.

(** ** migrateIncompleteTasks on a whole list *)

Section MigrateAll.
Variable h : Host.

Lemma patch_notes_found (newNotes : string) (cur : list Task) (t : Task) :
  distinctIds cur -> In t cur ->
  exists cur',
    patch_notes (task_id t) newNotes cur = Some (withNotes newNotes t, cur') /\
    others t cur' = others t cur.
Proof.
  unfold distinctIds, others.
  induction cur as [|y rest IH]; intros Hnd Hin; [contradiction|].
  cbn [patch_notes].
  destruct (String.eqb_spec (task_id y) (task_id t)) as [E|N].
  - assert (y = t) by (eapply ids_identify; eauto; now left). subst y.
    eexists. split; [reflexivity|].
    cbn [List.filter withNotes task_id]. now rewrite String.eqb_refl.
  - destruct Hin as [->|Hin]; [congruence|].
    cbn in Hnd. inversion Hnd as [|? ? _ Hnd']; subst.
    destruct (IH Hnd' Hin) as (cur' & -> & Hf).
    eexists. split; [reflexivity|].
    cbn [List.filter]. now rewrite Hf.
Qed.

Lemma distinctIds_filter (p : Task -> bool) (l : list Task) :
  distinctIds l -> distinctIds (List.filter p l).
Proof.
  unfold distinctIds. induction l as [|y l IH]; intros Hnd; [assumption|].
  cbn in Hnd. inversion Hnd as [|? ? Hy Hnd']; subst.
  cbn [List.filter]. destruct (p y); [|auto].
  cbn. constructor; [|auto].
  intros Habs. apply Hy. apply in_map_iff in Habs.
  destruct Habs as (z & Ez & Hz). apply filter_In in Hz.
  apply in_map_iff. exists z. tauto.
Qed.

Hypothesis Hok : faultless h.
Variables sourceListId destListId : string.
Hypothesis Hdistinct : sourceListId <> destListId.

Local Notation body := (migrateBody h sourceListId destListId) (only parsing).

Lemma migrate_step (t : Task) (s : State) :
  distinctIds (tasks s sourceListId) -> In t (tasks s sourceListId) ->
  exists newId s',
    body t s = (Ok tt, s') /\
    tasks s' sourceListId = others t (tasks s sourceListId) /\
    tasks s' destListId
    = copyOf (trackRolloverCount h) newId t :: tasks s destListId /\
    (forall l, l <> sourceListId -> l <> destListId ->
               tasks s' l = tasks s l) /\
    lists s' = lists s /\ stats s' = stats s /\ reads s' = reads s /\
    held s' = held s.
Proof.
  intros Hnd Hin.
  assert (H1 : String.eqb sourceListId destListId = false)
    by now apply String.eqb_neq.
  assert (H2 : String.eqb destListId sourceListId = false)
    by (apply String.eqb_neq; congruence).
  unfold migrateBody, copyOf. destruct (trackRolloverCount h).
  - destruct (patch_notes_found (Rollover.bump (task_notes t)) _ t Hnd Hin)
      as (cur' & Hpatch & Hothers).
    unfold TaskService.updateNotes, TaskService.move, TaskService.insertTask,
      TaskService.removeTask, bind, service, modify.
    rewrite !Hok. cbn [record_call tasks]. rewrite Hpatch.
    rewrite !Hok. cbn [fst snd].
    eexists. eexists. split; [reflexivity|].
    cbn. rewrite !String.eqb_refl, ?H1, ?H2. cbn [withNotes task_id].
    split; [exact Hothers|]. split; [reflexivity|].
    split; [|auto].
    intros l Hl1 Hl2. apply String.eqb_neq in Hl1, Hl2. now rewrite Hl1, Hl2.
  - unfold TaskService.move, TaskService.insertTask,
      TaskService.removeTask, bind, service, modify.
    rewrite !Hok. cbn [fst snd].
    eexists. eexists. split; [reflexivity|].
    cbn. rewrite !String.eqb_refl, ?H1, ?H2.
    split; [reflexivity|]. split; [reflexivity|].
    split; [|auto].
    intros l Hl1 Hl2. apply String.eqb_neq in Hl1, Hl2. now rewrite Hl1, Hl2.
Qed.

Lemma migrate_loop (todo : list Task) :
  forall s,
    distinctIds (tasks s sourceListId) ->
    distinctIds todo ->
    (forall t, In t todo -> In t (tasks s sourceListId)) ->
    exists s' copies,
      forEach todo body s = (Ok tt, s') /\
      tasks s' sourceListId = leftover todo (tasks s sourceListId) /\
      tasks s' destListId = (copies ++ tasks s destListId)%list /\
      Forall2 (fun t c => exists newId,
                            c = copyOf (trackRolloverCount h) newId t)
        (List.rev todo) copies /\
      (forall l, l <> sourceListId -> l <> destListId ->
                 tasks s' l = tasks s l) /\
      lists s' = lists s /\ stats s' = stats s /\ reads s' = reads s /\
      held s' = held s.
Proof.
  induction todo as [|t todo IH]; intros s Hnd Htodo Hincl.
  - exists s, []. cbn. repeat split; auto.
  - destruct (migrate_step t s Hnd (Hincl t (or_introl eq_refl)))
      as (newId & s1 & E1 & Hsrc & Hdst & Hoth & Hl & Hst & Hr & Hh).
    unfold distinctIds in Htodo. cbn in Htodo.
    inversion Htodo as [|? ? Hfresh Htodo']; subst.
    destruct (IH s1) as (s' & copies & E & Hsrc' & Hdst' & Hcopies & Hoth'
                         & Hl' & Hst' & Hr' & Hh').
    + rewrite Hsrc. now apply distinctIds_filter.
    + exact Htodo'.
    + intros t2 Ht2. rewrite Hsrc. apply filter_In.
      split; [apply Hincl; now right|].
      apply negb_true_iff, String.eqb_neq. intros Eid.
      apply Hfresh. rewrite <- Eid. now apply in_map.
    + exists s', (copies ++ [copyOf (trackRolloverCount h) newId t])%list.
      cbn [forEach]. unfold bind at 1. rewrite E1.
      split; [exact E|].
      split; [rewrite Hsrc', Hsrc; reflexivity|].
      split; [rewrite Hdst', Hdst, <- app_assoc; reflexivity|].
      split.
      { cbn [List.rev]. apply Forall2_app; [assumption|].
        constructor; [now exists newId | constructor]. }
      split; [intros l H1 H2; rewrite Hoth', Hoth; auto|].
      repeat split; congruence.
Qed.

Lemma leftover_filter (todo cur : list Task) :
  leftover todo cur
  = List.filter
      (fun y => List.forallb
                  (fun t => negb (String.eqb (task_id y) (task_id t))) todo)
      cur.
Proof.
  unfold leftover, others. revert cur.
  induction todo as [|t todo IH]; intros cur; cbn [List.fold_left List.forallb].
  - induction cur as [|y cur IHc]; [reflexivity|].
    cbn. now rewrite <- IHc.
  - rewrite IH. clear IH.
    induction cur as [|y cur IHc]; [reflexivity|].
    cbn [List.filter].
    destruct (negb (String.eqb (task_id y) (task_id t)));
      cbn [List.filter andb]; now rewrite IHc.
Qed.

Lemma leftover_completed (l : list Task) :
  distinctIds l ->
  leftover
    (List.filter (fun t => Status_eqb (task_status t) needsAction) l) l
  = List.filter (fun t => Status_eqb (task_status t) completed) l.
Proof.
  intros Hnd. rewrite leftover_filter. apply filter_ext_in.
  intros y Hy.
  destruct (task_status y) eqn:Hs; cbn [Status_eqb].
  - apply not_true_is_false. intros Hall.
    rewrite forallb_forall in Hall.
    assert (Hin : In y (List.filter
                          (fun t => Status_eqb (task_status t) needsAction) l)).
    { apply filter_In. split; [assumption|]. now rewrite Hs. }
    specialize (Hall y Hin). now rewrite String.eqb_refl in Hall.
  - apply forallb_forall. intros t Ht. apply filter_In in Ht.
    destruct Ht as [Ht Hst]. apply negb_true_iff, String.eqb_neq.
    intros E.
    assert (y = t) by (eapply ids_identify; eauto). subst.
    rewrite Hs in Hst. discriminate.
Qed.

Lemma migrateIncompleteTasks_all (s : State) :
  distinctIds (tasks s sourceListId) ->
  let todo := List.filter (fun t => Status_eqb (task_status t) needsAction)
                (tasks s sourceListId) in
  exists s' copies,
    migrateIncompleteTasks h sourceListId destListId s
    = (Ok (Z.of_nat (List.length todo)), s') /\
    tasks s' sourceListId
    = List.filter (fun t => Status_eqb (task_status t) completed)
        (tasks s sourceListId) /\
    tasks s' destListId = (copies ++ tasks s destListId)%list /\
    Forall2 (fun t c => exists newId,
                          c = copyOf (trackRolloverCount h) newId t)
      (List.rev todo) copies /\
    (forall l, l <> sourceListId -> l <> destListId ->
               tasks s' l = tasks s l) /\
    lists s' = lists s /\ stats s' = stats s.
Proof.
  intros Hnd todo.
  destruct (migrate_loop todo (record_call (TasksList sourceListId) s))
    as (s' & copies & E & Hsrc & Hdst & Hcopies & Hoth & Hl & Hst & _ & _).
  - exact Hnd.
  - now apply distinctIds_filter.
  - intros t Ht. now apply filter_In in Ht.
  - exists s', copies.
    unfold migrateIncompleteTasks, TaskService.listIncompleteTasks, bind,
      service, gets.
    rewrite Hok. cbn [record_call tasks ret].
    fold todo. change (forEach todo _) with (forEach todo body).
    rewrite E. split; [reflexivity|].
    split; [rewrite Hsrc; now apply leftover_completed|].
    auto.
Qed.

End MigrateAll.

(** When no call fails, migrateIncompleteTasks moves every open task of
    the source list and none of the others: it returns the number of open
    tasks, the source list keeps exactly its completed tasks, and the
    destination list receives, on top and last-moved first, one copy per
    open task, with its rollover counter bumped when tracking is on and
    its notes as they were when tracking is off.  No other list changes. *)
Theorem migrateIncompleteTasks_moves_the_open_tasks
  (h : Host) (sourceListId destListId : string) (s : State) :
  faultless h ->
  sourceListId <> destListId ->
  distinctIds (tasks s sourceListId) ->
  let todo := List.filter (fun t => Status_eqb (task_status t) needsAction)
                (tasks s sourceListId) in
  exists s' copies,
    migrateIncompleteTasks h sourceListId destListId s
    = (Ok (Z.of_nat (List.length todo)), s') /\
    tasks s' sourceListId
    = List.filter (fun t => Status_eqb (task_status t) completed)
        (tasks s sourceListId) /\
    tasks s' destListId = (copies ++ tasks s destListId)%list /\
    Forall2 (fun t c => exists newId,
                          c = copyOf (trackRolloverCount h) newId t)
      (List.rev todo) copies /\
    (forall l, l <> sourceListId -> l <> destListId ->
               tasks s' l = tasks s l) /\
    lists s' = lists s /\ stats s' = stats s.
Proof.
  intros Hok Hne Hnd. now apply migrateIncompleteTasks_all.
Qed.

Lemma desk_d9_ids : distinctIds (tasks Cases.desk "d9").
Proof.
  unfold distinctIds. vm_compute.
  repeat constructor; cbn; intuition discriminate.
Defined.

Lemma inbox_not_d9 : "d9" <> "inbox".
Proof. discriminate. Defined.

Lemma migrateIncompleteTasks_moves_the_open_tasks_witness :
  let h := Scenario.platform Scenario.steady Scenario.noFault in
  let todo := List.filter (fun t => Status_eqb (task_status t) needsAction)
                (tasks Cases.desk "d9") in
  exists s' copies,
    migrateIncompleteTasks h "d9" "inbox" Cases.desk
    = (Ok (Z.of_nat (List.length todo)), s') /\
    tasks s' "d9"
    = List.filter (fun t => Status_eqb (task_status t) completed)
        (tasks Cases.desk "d9") /\
    tasks s' "inbox" = (copies ++ tasks Cases.desk "inbox")%list /\
    Forall2 (fun t c => exists newId,
                          c = copyOf (trackRolloverCount h) newId t)
      (List.rev todo) copies /\
    (forall l, l <> "d9" -> l <> "inbox" -> tasks s' l = tasks Cases.desk l) /\
    lists s' = lists Cases.desk /\ stats s' = stats Cases.desk.
Proof.
  exact (migrateIncompleteTasks_moves_the_open_tasks
           (Scenario.platform Scenario.steady Scenario.noFault)
           "d9" "inbox" Cases.desk steady_faultless inbox_not_d9 desk_d9_ids).
Defined.

(** The fixture list of testing_utils.js after a migration: the open
    tasks arrive in the inbox, last-moved first, each with its counter. *)
Example desk_migration :
  List.map (fun t => (task_title t, task_notes t))
    (tasks (snd (migrateIncompleteTasks
                   (Scenario.platform Scenario.steady Scenario.noFault)
                   "d9" "inbox" Cases.desk)) "inbox")
  = [("Task with existing rollover",
      Some ("This task has been rolled over before." ++ nl ++ nl
            ++ "Rollover Count: 4"));
     ("Buy milk", Some "Rollover Count: 1")].
Proof. vm_compute. reflexivity. Qed.

(** *** Completed tasks *)

Lemma patch_notes_keeps (taskId newNotes : string) (l l' : list Task)
  (t t' : Task) :
  patch_notes taskId newNotes l = Some (t', l') ->
  task_id t <> taskId -> In t l -> In t l'.
Proof.
  revert l' t'. induction l as [|y l IH]; intros l' t' H Hid Hin;
    [discriminate|].
  cbn [patch_notes] in H.
  destruct (String.eqb_spec (task_id y) taskId) as [E|N].
  - injection H as <- <-. destruct Hin as [->|Hin]; [congruence | now right].
  - destruct (patch_notes taskId newNotes l) as [[t2 l2]|]; [|discriminate].
    injection H as <- <-.
    destruct Hin as [->|Hin]; [now left | right; eauto].
Qed.

Section Completed.
Variable h : Host.
Variables sourceListId destListId : string.

Lemma listIncompleteTasks_run (l : string) (s s' : State)
  (r : Outcome (list Task)) :
  TaskService.listIncompleteTasks h l s = (r, s') ->
  s' = record_call (TasksList l) s /\
  (r = Ok (List.filter (fun t => Status_eqb (task_status t) needsAction)
             (tasks s l))
   \/ exists e, r = Throw e).
Proof.
  unfold TaskService.listIncompleteTasks, bind, service, gets.
  destruct (fault h (List.length (calls s))) as [e|]; intros H;
    injection H as <- <-; split; auto.
  right. now exists e.
Qed.

Lemma spared_move (t x : Task) :
  task_id x <> task_id t ->
  keeps (spared sourceListId t) (TaskService.move h x sourceListId destListId).
Proof.
  intros Hid.
  unfold TaskService.move, TaskService.insertTask, TaskService.removeTask.
  keeps_structure.
  - split; [auto|]. eexists [_]. split; [reflexivity|].
    constructor; [discriminate | constructor].
  - split; [|now apply emits_same].
    cbn [set_tasks tasks]. intros Hin.
    destruct (String.eqb sourceListId destListId); [now right | assumption].
  - split; [auto|]. eexists [_]. split; [reflexivity|].
    constructor; [|constructor].
    intros E. injection E as E. contradiction.
  - split; [|now apply emits_same].
    cbn [set_tasks tasks]. rewrite String.eqb_refl. intros Hin.
    apply filter_In. split; [assumption|].
    apply negb_true_iff, String.eqb_neq. congruence.
Qed.

Lemma spared_updateNotes (t x : Task) (newNotes : string) :
  task_id x <> task_id t ->
  keeps (spared sourceListId t)
    (TaskService.updateNotes h sourceListId (task_id x) newNotes).
Proof.
  intros Hid. unfold TaskService.updateNotes. keeps_structure.
  - split; [auto|]. eexists [_]. split; [reflexivity|].
    constructor; [discriminate | constructor].
  - intros s.
    destruct (patch_notes (task_id x) newNotes (tasks s sourceListId))
      as [[t' l']|] eqn:E; cbn [snd]; [|reflexivity].
    split; [|now apply emits_same].
    cbn [set_tasks tasks]. rewrite String.eqb_refl.
    intros Hin. eapply patch_notes_keeps; eauto.
Qed.

Lemma updateNotes_id (listId taskId newNotes : string) (s s' : State)
  (t' : Task) :
  TaskService.updateNotes h listId taskId newNotes s = (Ok t', s') ->
  task_id t' = taskId.
Proof.
  unfold TaskService.updateNotes, service.
  destruct (fault h _); [discriminate|].
  destruct (patch_notes taskId newNotes _) as [[t2 l2]|] eqn:E;
    [|discriminate].
  intros [= <- _]. clear - E.
  revert t2 l2 E. generalize (tasks (record_call
    (TasksPatch listId taskId newNotes) s) listId) as l.
  induction l as [|y l IH]; intros t2 l2 E; [discriminate|].
  cbn [patch_notes] in E.
  destruct (String.eqb_spec (task_id y) taskId) as [Ey|N].
  - now injection E as <- _.
  - destruct (patch_notes taskId newNotes l) as [[t3 l3]|]; [|discriminate].
    injection E as <- _. eauto.
Qed.

Lemma spared_migrateBody (t x : Task) :
  task_id x <> task_id t ->
  keeps (spared sourceListId t) (migrateBody h sourceListId destListId x).
Proof.
  intros Hid. unfold migrateBody.
  destruct (trackRolloverCount h); [|now apply spared_move].
  intros s. unfold bind.
  pose proof (spared_updateNotes t x (Rollover.bump (task_notes x)) Hid s)
    as H1.
  destruct (TaskService.updateNotes h sourceListId (task_id x)
              (Rollover.bump (task_notes x)) s) as [[u|e] s1] eqn:E;
    cbn [snd] in *; [|exact H1].
  apply updateNotes_id in E.
  etransitivity; [exact H1|]. apply spared_move. congruence.
Qed.

End Completed.

(** migrateIncompleteTasks never moves a completed task: whatever call
    fails, a completed task of the source list is still there afterwards,
    as it was, and no call has removed it. *)
Theorem completed_tasks_are_not_migrated
  (h : Host) (sourceListId destListId : string) (s : State) (t : Task) :
  In t (tasks s sourceListId) ->
  uniqueIn (tasks s sourceListId) t ->
  task_status t = completed ->
  let s' := snd (migrateIncompleteTasks h sourceListId destListId s) in
  In t (tasks s' sourceListId) /\
  exists cs, calls s' = (calls s ++ cs)%list /\
             ~ In (TasksRemove sourceListId (task_id t)) cs.
Proof.
  intros Hin Huniq Hst s'.
  assert (Hsp : spared sourceListId t s s').
  { unfold s', migrateIncompleteTasks, bind.
    destruct (TaskService.listIncompleteTasks h sourceListId s)
      as [r s1] eqn:E1.
    apply listIncompleteTasks_run in E1. destruct E1 as [-> Hr].
    assert (H1 : spared sourceListId t s
                   (record_call (TasksList sourceListId) s)).
    { split; [auto|]. eexists [_]. split; [reflexivity|].
      constructor; [discriminate | constructor]. }
    destruct Hr as [->|(e & ->)]; [|exact H1].
    assert (Hloop : keeps (spared sourceListId t)
              (forEach
                 (List.filter
                    (fun t0 => Status_eqb (task_status t0) needsAction)
                    (tasks s sourceListId))
                 (migrateBody h sourceListId destListId))).
    { apply keeps_forEach; [typeclasses eauto|].
      intros x Hx. apply filter_In in Hx. destruct Hx as [Hx Hsx].
      apply spared_migrateBody.
      intros Eid. rewrite (Huniq x Hx Eid), Hst in Hsx. discriminate. }
    specialize (Hloop (record_call (TasksList sourceListId) s)).
    unfold migrateBody in Hloop.
    destruct (forEach _ _ (record_call (TasksList sourceListId) s))
      as [[[]|e] s2]; cbn [snd ret] in *;
      etransitivity; eassumption. }
  destruct Hsp as [Ht (cs & Hcs & Hall)].
  split; [auto|]. exists cs. split; [assumption|].
  intros Habs. rewrite Forall_forall in Hall. now apply (Hall _ Habs).
Qed.

Lemma completed_tasks_are_not_migrated_witness :
  let h := Scenario.platform Scenario.steady
             (Scenario.failAt 3 "Backend Error") in
  let bob := mkTask "b" "Call Bob" None completed None None None
               (Some "2025-07-09T17:00:00.000Z") in
  let s' := snd (migrateIncompleteTasks h "d9" "inbox" Cases.desk) in
  In bob (tasks s' "d9") /\
  exists cs, calls s' = (calls Cases.desk ++ cs)%list /\
             ~ In (TasksRemove "d9" (task_id bob)) cs.
Proof.
  intros h bob s'.
  refine (completed_tasks_are_not_migrated h "d9" "inbox" Cases.desk bob
            _ _ eq_refl).
  - vm_compute. right. left. reflexivity.
  - intros t' Hin Hid. vm_compute in Hin.
    repeat (destruct Hin as [<-|Hin]); try reflexivity;
      try discriminate Hid; contradiction.
Defined.

(** ** processInboxTasks: what a sweep does, and a second sweep *)

Lemma inbox_sweep_run
  (h : Host) (todayListId inboxId : string) (s : State) :
  faultless h -> todayListId <> inboxId ->
  exists s',
    processInboxTasks h todayListId inboxId s = (Ok tt, s') /\
    calls s'
    = (calls s ++ TasksList inboxId
       :: relocations todayListId inboxId
            (List.filter
               (dueToday (formatDate h (clock h (reads s)) "yyyy-MM-dd"))
               (tasks s inboxId)))%list /\
    inboxMoves (stats s')
    = (inboxMoves (stats s)
       + Z.of_nat
           (List.length
              (List.filter
                 (dueToday (formatDate h (clock h (reads s)) "yyyy-MM-dd"))
                 (tasks s inboxId))))%Z /\
    (forall y, In y (tasks s' inboxId) ->
               In y (tasks s inboxId) /\
               dueToday (formatDate h (clock h (reads s)) "yyyy-MM-dd") y
               = false).
Proof.
  intros Hok Hne.
  destruct (processInboxTasks_faultless h Hok todayListId inboxId Hne s)
    as (s' & E & C & Mv & _ & Hgone).
  exists s'. split; [exact E|]. split; [exact C|]. split; [exact Mv|].
  intros y Hy. destruct (Hgone y Hy) as [Hin Hids].
  split; [assumption|].
  destruct (dueToday _ y) eqn:Hd; [|reflexivity].
  exfalso. apply (Hids y); [|reflexivity].
  apply filter_In. auto.
Qed.

(** When no call fails, processInboxTasks returns, and what it has done
    is one enumeration of the inbox followed, for each task due today and
    in the order of the inbox, by an insert into today's list and a remove
    from the inbox; [inboxMoves] has grown by the number of those tasks,
    and what is left in the inbox is not due today. *)
Theorem inbox_sweep_moves_the_tasks_due_today
  (h : Host) (todayListId inboxId : string) (s : State) :
  faultless h -> todayListId <> inboxId ->
  let today := formatDate h (clock h (reads s)) "yyyy-MM-dd" in
  let due := List.filter (dueToday today) (tasks s inboxId) in
  exists s',
    processInboxTasks h todayListId inboxId s = (Ok tt, s') /\
    calls s'
    = (calls s ++ TasksList inboxId :: relocations todayListId inboxId due)%list /\
    inboxMoves (stats s')
    = (inboxMoves (stats s) + Z.of_nat (List.length due))%Z /\
    (forall y, In y (tasks s' inboxId) ->
               In y (tasks s inboxId) /\ dueToday today y = false).
Proof.
  intros Hok Hne today due. now apply inbox_sweep_run.
Qed.

Lemma inbox_sweep_moves_the_tasks_due_today_witness :
  let h := Scenario.platform Scenario.steady Scenario.noFault in
  let today := formatDate h (clock h (reads Scenario.inboxDay)) "yyyy-MM-dd" in
  let due := List.filter (dueToday today) (tasks Scenario.inboxDay "inbox") in
  exists s',
    processInboxTasks h "d10" "inbox" Scenario.inboxDay = (Ok tt, s') /\
    calls s'
    = (calls Scenario.inboxDay
       ++ TasksList "inbox" :: relocations "d10" "inbox" due)%list /\
    inboxMoves (stats s')
    = (inboxMoves (stats Scenario.inboxDay) + Z.of_nat (List.length due))%Z /\
    (forall y, In y (tasks s' "inbox") ->
               In y (tasks Scenario.inboxDay "inbox") /\
               dueToday today y = false).
Proof.
  exact (inbox_sweep_moves_the_tasks_due_today
           (Scenario.platform Scenario.steady Scenario.noFault)
           "d10" "inbox" Scenario.inboxDay steady_faultless today_not_inbox).
Defined.

Lemma filter_none {A} (p : A -> bool) (l : list A) :
  (forall y, In y l -> p y = false) -> List.filter p l = [].
Proof.
  induction l as [|y l IH]; intros H; [reflexivity|].
  cbn [List.filter]. rewrite (H y (or_introl eq_refl)).
  apply IH. intros z Hz. apply H. now right.
Qed.

(** A second sweep on the same day finds nothing to move: after a sweep
    without failure, a new sweep for the same date string only enumerates
    the inbox; it moves no task and leaves [inboxMoves] as it is. *)
Theorem inbox_sweep_is_idempotent
  (h : Host) (todayListId inboxId : string) (s : State) :
  faultless h -> todayListId <> inboxId ->
  let s1 := snd (processInboxTasks h todayListId inboxId s) in
  formatDate h (clock h (reads s1)) "yyyy-MM-dd"
  = formatDate h (clock h (reads s)) "yyyy-MM-dd" ->
  processInboxTasks h todayListId inboxId s1
  = (Ok tt, set_reads (S (reads s1)) (record_call (TasksList inboxId) s1)).
Proof.
  intros Hok Hne s1 Hday.
  destruct (inbox_sweep_run h todayListId inboxId s Hok Hne)
    as (s1' & E1 & _ & _ & Hleft).
  assert (Hs1 : s1 = s1') by (unfold s1; now rewrite E1).
  rewrite <- Hs1 in Hleft.
  assert (Hnone : List.filter
                    (dueToday (formatDate h (clock h (reads s1)) "yyyy-MM-dd"))
                    (tasks s1 inboxId) = []).
  { rewrite Hday. apply filter_none. intros y Hy. now apply Hleft. }
  rewrite processInboxTasks_filter.
  unfold bind, TaskService.listAllTasks, service, gets, newDate.
  rewrite Hok. cbn [record_call tasks reads fst snd].
  rewrite Hnone. reflexivity.
Qed.

Lemma inbox_sweep_is_idempotent_witness :
  let h := Scenario.platform Scenario.steady Scenario.noFault in
  let s1 := snd (processInboxTasks h "d10" "inbox" Scenario.inboxDay) in
  processInboxTasks h "d10" "inbox" s1
  = (Ok tt, set_reads (S (reads s1)) (record_call (TasksList "inbox") s1)).
Proof.
  refine (inbox_sweep_is_idempotent
            (Scenario.platform Scenario.steady Scenario.noFault)
            "d10" "inbox" Scenario.inboxDay steady_faultless today_not_inbox
            _).
  reflexivity.
Defined.

(** ** dailyRunner: the run that succeeds *)

Section StoreCalls.
Variable h : Host.

Ltac store_leaf :=
  first
    [ now apply emits_same
    | (eexists [_]; split; [reflexivity | constructor; [exact I | constructor]]) ].

Ltac store_calls :=
  repeat
    (keeps_structure; try store_leaf;
     try match goal with
         | |- keeps _ (match ?x with _ => _ end) => destruct x
         end).

Lemma store_move (t : Task) (src dst : string) :
  keeps (emits storeCall) (TaskService.move h t src dst).
Proof.
  unfold TaskService.move, TaskService.insertTask, TaskService.removeTask.
  store_calls.
Qed.

Lemma store_updateNotes (l taskId newNotes : string) :
  keeps (emits storeCall) (TaskService.updateNotes h l taskId newNotes).
Proof.
  unfold TaskService.updateNotes. store_calls. intros s.
  destruct (patch_notes taskId newNotes (tasks s l)) as [[t' l']|]; simpl;
    store_leaf.
Qed.

Lemma store_migrateIncompleteTasks (src dst : string) :
  keeps (emits storeCall) (migrateIncompleteTasks h src dst).
Proof.
  unfold migrateIncompleteTasks, TaskService.listIncompleteTasks. store_calls;
    first [apply store_updateNotes | apply store_move].
Qed.

Lemma store_fetch (l : string) (ps : list (list Task)) (acc : list Task) :
  keeps (emits storeCall) (CompletedTaskService.fetch h l ps acc).
Proof.
  revert acc.
  induction ps as [|p ps IH]; intros acc; cbn [CompletedTaskService.fetch];
    store_calls.
  apply IH.
Qed.

Lemma store_processStaleList (inboxId : string) (staleList : TaskList) :
  keeps (emits storeCall) (processStaleList h inboxId staleList).
Proof.
  unfold processStaleList, CompletedTaskService.getCompletedTasksFromList,
    CompletedTaskService.listCompletedTasks, ListService.deleteList.
  store_calls.
  - apply store_migrateIncompleteTasks.
  - apply store_fetch.
Qed.

Lemma store_newDate : keeps (emits storeCall) (newDate h).
Proof. intros s. now apply emits_same. Qed.

Lemma store_sweep (inboxId : string) (startTime : Z) (l : list TaskList) :
  keeps (emits storeCall) (sweep h inboxId startTime l).
Proof.
  induction l as [|x l IH]; cbn [sweep]; store_calls;
    first [apply store_newDate | apply store_processStaleList | apply IH].
Qed.

Lemma store_createList (title : string) :
  keeps (emits storeCall) (ListService.createList h title).
Proof.
  unfold ListService.createList. store_calls. intros s. now apply emits_same.
Qed.

Lemma store_rolloverProcess (todayTitle : string) (startTime : Z) :
  keeps (emits storeCall) (rolloverProcess h todayTitle startTime).
Proof.
  unfold rolloverProcess, LoggingSheetUtil.setup, ListService.getListByTitle,
    ListService.listAll.
  store_calls; first [apply store_sweep | apply store_createList].
Qed.

Lemma store_processInboxTasks (todayListId inboxId : string) :
  keeps (emits storeCall) (processInboxTasks h todayListId inboxId).
Proof.
  unfold processInboxTasks, TaskService.listAllTasks.
  store_calls; first [apply store_newDate | apply store_move].
Qed.

End StoreCalls.

(** A run whose [try] block returns is logged exactly once, with the
    [stats] object as the sweeps left it; the digest is requested after
    the log, and only on the digest day; the lock is released last and
    dailyRunner returns.  Before the log the run made only Tasks calls and
    the set-up of the log sheet. *)
Theorem successful_run_is_logged_once
  (h : Host) (s s1 : State) :
  lockFree h = true ->
  runBody h (clock h (reads s)) (entered h s) = (Ok tt, s1) ->
  exists cs,
    Forall storeCall cs /\
    calls (snd (dailyRunner h s))
    = (calls s ++ TryLock 30000 :: cs
       ++ LogRun (stats s1)
          :: (if (getDay h (clock h (reads s)) =? weeklyDigestDay h)%Z
              then [SendWeeklyDigest] else [])
       ++ [ReleaseLock])%list /\
    fst (dailyRunner h s) = Ok tt /\
    stats (snd (dailyRunner h s)) = stats s1 /\
    held (snd (dailyRunner h s)) = false.
Proof.
  intros Hl Hbody. rewrite dailyRunner_locked by assumption.
  unfold try_catch_finally. rewrite Hbody. cbn [releaseLock modify fst snd].
  cbn [set_held record_call calls stats held].
  unfold runBody in Hbody.
  apply bind_ok in Hbody. destruct Hbody as ([tl ib] & sa & Ea & Hbody).
  apply bind_ok in Hbody. destruct Hbody as ([] & sb & Eb & Hbody).
  apply bind_ok in Hbody. destruct Hbody as ([] & sc & Ec & Hbody).
  apply logRun_call in Ec. destruct Ec as [-> _].
  pose proof (keeps_at _ _ _ _ _ (store_rolloverProcess h _ _) Ea) as Ha.
  assert (Hb : emits storeCall sa sb).
  { destruct (autoMoveDueTasks h).
    - exact (keeps_at _ _ _ _ _ (store_processInboxTasks h _ _) Eb).
    - injection Eb as <-. apply emits_refl. }
  destruct (emits_trans _ _ _ _ Ha Hb) as (cs & Hcs & Hall).
  cbn [entered set_stats set_reads set_held record_call calls] in Hcs.
  exists cs. split; [assumption|].
  assert (Hend :
    calls s1 = (calls sb ++ LogRun (stats sb)
                :: (if (getDay h (clock h (reads s)) =? weeklyDigestDay h)%Z
                    then [SendWeeklyDigest] else []))%list /\
    stats s1 = stats sb).
  { destruct (getDay h (clock h (reads s)) =? weeklyDigestDay h)%Z.
    - unfold service in Hbody. cbn [record_call calls] in Hbody.
      destruct (fault h _); [discriminate|].
      injection Hbody as <-. split; [|reflexivity].
      cbn [record_call calls]. rewrite <- app_assoc. reflexivity.
    - injection Hbody as <-. split; reflexivity. }
  destruct Hend as [Hc1 Hs1].
  rewrite Hc1, Hcs, Hs1. rewrite <- ?app_assoc. cbn [app].
  rewrite <- ?app_assoc. cbn [app]. auto.
Qed.

Lemma successful_run_is_logged_once_witness :
  let h := Scenario.platform Scenario.steady Scenario.noFault in
  let s1 := snd (runBody h (clock h (reads Scenario.morning))
                   (entered h Scenario.morning)) in
  exists cs,
    Forall storeCall cs /\
    calls (snd (dailyRunner h Scenario.morning))
    = (calls Scenario.morning ++ TryLock 30000 :: cs
       ++ LogRun (stats s1)
          :: (if (getDay h (clock h (reads Scenario.morning))
                  =? weeklyDigestDay h)%Z
              then [SendWeeklyDigest] else [])
       ++ [ReleaseLock])%list /\
    fst (dailyRunner h Scenario.morning) = Ok tt /\
    stats (snd (dailyRunner h Scenario.morning)) = stats s1 /\
    held (snd (dailyRunner h Scenario.morning)) = false.
Proof.
  refine (successful_run_is_logged_once
            (Scenario.platform Scenario.steady Scenario.noFault)
            Scenario.morning _ eq_refl _).
  apply run_ok. vm_compute. reflexivity.
Defined.

(** When the digest itself fails, the run is in the log twice: once as it
    ended, once as a fatal run. *)
Example failing_digest_is_logged_twice :
  let h := mkHost "Inbox" "[Daily]" 270 true true 4 true Scenario.steady
             (Scenario.failAt 13 "Mail quota exceeded")
             (fun _ fmt =>
                if String.eqb fmt "yyyy-MM-dd" then "2025-07-10"
                else "July 10, 2025")
             (fun _ => 4%Z)
             (fun n => "new" ++ numToString (N.of_nat n)) in
  List.skipn 12 (calls (snd (dailyRunner h Scenario.morning)))
  = [LogRun (mkRunStat 0 1 1 1 0
               [mkCompletedEntry "Call Bob" (Some "2025-07-09T17:00:00.000Z")]
               "");
     SendWeeklyDigest;
     LogRun (mkRunStat 0 1 1 1 0
               [mkCompletedEntry "Call Bob" (Some "2025-07-09T17:00:00.000Z")]
               "FATAL: Mail quota exceeded");
     SendEmail failureSubject (failureBody "Mail quota exceeded");
     ReleaseLock].
Proof. vm_compute. reflexivity. Qed.

(** ** The rollover counter never restarts *)

Lemma matched_text_has_fragments (s : string) :
  Rollover.regex_match s <> None -> 1 <= Rollover.fragments s.
Proof.
  induction s as [|c s IH]; intros H.
  - now elim H.
  - rewrite RolloverFacts.regex_match_cons in H.
    rewrite RolloverFacts.fragments_cons.
    destruct (Rollover.match_here (String c s)) as [[ds rest]|]; [lia|].
    destruct (Rollover.regex_match s) as [[[p ds] r]|]; [|now elim H].
    assert (1 <= Rollover.fragments s) by (apply IH; discriminate). lia.
Qed.

(** Whatever the notes of a task, as long as the count they show is below
    [2^53 - 1], the notes written by a tracked migration carry a fragment
    that counts at least 1; they still begin with the text that came
    before the fragment (the whole of the old notes and a separator when
    there was none), so the next migration finds the fragment and counts
    on. *)
Theorem bump_always_leaves_a_fragment (task_notes : option string) :
  (counted (or_empty task_notes) + 1 < maxSafe)%N ->
  exists pre ds rest,
    Rollover.regex_match (Rollover.bump task_notes) = Some (pre, ds, rest) /\
    Rollover.bump task_notes = pre ++ Rollover.label ++ ds ++ rest /\
    (1 <= parseInt ds)%N /\
    1 <= Rollover.fragments (Rollover.bump task_notes) /\
    match Rollover.regex_match (or_empty task_notes) with
    | Some (pre0, ds0, rest0) =>
        pre = pre0 /\ rest = rest0 /\ parseInt ds = (parseInt ds0 + 1)%N
    | None =>
        pre = or_empty task_notes ++ separator (or_empty task_notes) /\
        ds = "1" /\ rest = ""
    end.
Proof.
  intros Hsafe.
  assert (Hb : Rollover.bump task_notes
               = Rollover.bump (Some (or_empty task_notes)))
    by (unfold Rollover.bump; reflexivity).
  unfold counted in Hsafe.
  destruct (Rollover.regex_match (or_empty task_notes))
    as [[[pre ds] rest]|] eqn:Hm.
  - destruct (RolloverStep.bump_increments _ _ _ _ Hm Hsafe)
      as (_ & Hbump & Hmatch & Hparse & Hfrag).
    rewrite Hb.
    exists pre, (numToString (parseInt ds + 1)), rest.
    split; [exact Hmatch|]. split; [exact Hbump|].
    split; [rewrite Hparse; lia|].
    split; [|auto].
    apply matched_text_has_fragments. rewrite Hmatch. discriminate.
  - pose proof (RolloverFacts.inert_separated _ Hm) as Hpre.
    destruct (RolloverFacts.fragment_located
                (or_empty task_notes ++ separator (or_empty task_notes))
                (numToString 1) "" Hpre (numToString_digits 1)
                (numToString_not_empty 1) eq_refl) as [Hmatch Hfrag].
    pose proof (RolloverFacts.bump_fresh task_notes Hm) as Hbump.
    assert (Htext : Rollover.bump task_notes
                    = (or_empty task_notes ++ separator (or_empty task_notes))
                      ++ Rollover.label ++ numToString 1 ++ "").
    { rewrite Hbump, !append_assoc. reflexivity. }
    eexists _, "1", "". rewrite Htext.
    split; [exact Hmatch|]. split; [reflexivity|].
    split; [vm_compute; discriminate|].
    split; [rewrite Hfrag; lia | auto].
Qed.

Lemma bump_always_leaves_a_fragment_witness :
  exists pre ds rest,
    Rollover.regex_match (Rollover.bump (task_notes Scenario.rolledBefore))
    = Some (pre, ds, rest) /\
    Rollover.bump (task_notes Scenario.rolledBefore)
    = pre ++ Rollover.label ++ ds ++ rest /\
    (1 <= parseInt ds)%N /\
    1 <= Rollover.fragments (Rollover.bump (task_notes Scenario.rolledBefore)) /\
    match Rollover.regex_match (or_empty (task_notes Scenario.rolledBefore)) with
    | Some (pre0, ds0, rest0) =>
        pre = pre0 /\ rest = rest0 /\ parseInt ds = (parseInt ds0 + 1)%N
    | None =>
        pre = or_empty (task_notes Scenario.rolledBefore)
              ++ separator (or_empty (task_notes Scenario.rolledBefore)) /\
        ds = "1" /\ rest = ""
    end.
Proof.
  apply (bump_always_leaves_a_fragment (task_notes Scenario.rolledBefore)).
  vm_compute. reflexivity.
Defined.

(** Beyond that bound the counter is lost: a count too large for a
    JavaScript number is written as [Infinity], which the next migration
    does not recognise as a fragment. *)
Example count_too_large_for_a_number :
  Rollover.bump
    (Some ("Rollover Count: 2" ++ String.concat "" (List.repeat "0" 308)))
  = "Rollover Count: Infinity" /\
  Rollover.bump (Some "Rollover Count: Infinity")
  = "Rollover Count: Infinity" ++ nl ++ nl ++ "Rollover Count: 1".
Proof. vm_compute. auto. Qed.

(** ** ListService: creating and finding a list *)

(** [getListByTitle] answers with the first list of the enumeration that
    bears the title, and with nothing when no list does. *)
Lemma getListByTitle_faultless (h : Host) (title : string) (s : State) :
  faultless h ->
  ListService.getListByTitle h title s
  = (Ok (List.find (fun l => String.eqb (list_title l) title) (lists s)),
     record_call TasklistsList s).
Proof.
  intros Hok.
  unfold ListService.getListByTitle, ListService.listAll, bind, service, gets.
  now rewrite Hok.
Qed.

Lemma find_in_app {A} (p : A -> bool) (a b : list A) :
  List.find p (a ++ b)
  = match List.find p a with
    | Some x => Some x
    | None => List.find p b
    end.
Proof.
  induction a as [|x a IH]; [reflexivity|].
  cbn. destruct (p x); [reflexivity | exact IH].
Qed.

(** A list that was just created is found by its title, unless an older
    list bears the same title: [getListByTitle] then answers with the
    older one.  Titles do not identify lists; the first match wins. *)
Theorem created_list_is_found_by_title
  (h : Host) (title : string) (s : State) :
  faultless h ->
  exists created s1 s2,
    ListService.createList h title s = (Ok created, s1) /\
    list_title created = title /\
    lists s1 = (lists s ++ [created])%list /\
    tasks s1 = tasks s /\
    ListService.getListByTitle h title s1
    = (Ok (match List.find (fun l => String.eqb (list_title l) title)
                   (lists s) with
           | Some older => Some older
           | None => Some created
           end), s2).
Proof.
  intros Hok.
  unfold ListService.createList, service. rewrite Hok.
  eexists. eexists. eexists. split; [reflexivity|].
  split; [reflexivity|]. split; [reflexivity|]. split; [reflexivity|].
  rewrite (getListByTitle_faultless h title _ Hok). cbn [set_lists lists
    record_call].
  rewrite find_in_app.
  destruct (List.find _ (lists s)); [reflexivity|].
  cbn. rewrite String.eqb_refl. reflexivity.
Qed.

Lemma created_list_is_found_by_title_witness :
  let h := Scenario.platform Scenario.steady Scenario.noFault in
  exists created s1 s2,
    ListService.createList h "Projects" Cases.desk = (Ok created, s1) /\
    list_title created = "Projects" /\
    lists s1 = (lists Cases.desk ++ [created])%list /\
    tasks s1 = tasks Cases.desk /\
    ListService.getListByTitle h "Projects" s1
    = (Ok (match List.find (fun l => String.eqb (list_title l) "Projects")
                   (lists Cases.desk) with
           | Some older => Some older
           | None => Some created
           end), s2).
Proof.
  exact (created_list_is_found_by_title
           (Scenario.platform Scenario.steady Scenario.noFault)
           "Projects" Cases.desk steady_faultless).
Defined.

(** ** A stale list is accounted for before it is deleted *)

Lemma filter_twice {A} (p : A -> bool) (l : list A) :
  List.filter p (List.filter p l) = List.filter p l.
Proof.
  induction l as [|x l IH]; [reflexivity|].
  cbn [List.filter]. destruct (p x) eqn:E; [|exact IH].
  cbn [List.filter]. now rewrite E, IH.
Qed.

Lemma getCompletedTasksFromList_faultless
  (h : Host) (listId : string) (s : State) :
  faultless h ->
  exists s',
    CompletedTaskService.getCompletedTasksFromList h listId s
    = (Ok (List.map
             (fun t => mkCompletedEntry (task_title t) (task_completed t))
             (List.filter (fun t => Status_eqb (task_status t) completed)
                (tasks s listId))), s') /\
    tasks s' = tasks s /\ lists s' = lists s /\ stats s' = stats s.
Proof.
  intros Hok.
  unfold CompletedTaskService.getCompletedTasksFromList,
    CompletedTaskService.listCompletedTasks, bind, gets.
  rewrite (fetch_faultless h listId _ Hok). cbn [ret app].
  rewrite pages_concat. eexists. split; [reflexivity|]. auto.
Qed.

(** When no call fails, every task of a stale list is accounted for
    before the list is deleted: each open task has its copy in the inbox
    and is counted in [inboxAdds], each completed task has its title and
    completion time appended to [completedTasks], and the list is then
    deleted and counted. *)
Theorem stale_list_is_accounted_for
  (h : Host) (inboxId : string) (staleList : TaskList) (s : State) :
  faultless h ->
  list_id staleList <> inboxId ->
  distinctIds (tasks s (list_id staleList)) ->
  let open := List.filter (fun t => Status_eqb (task_status t) needsAction)
                (tasks s (list_id staleList)) in
  let closed := List.filter (fun t => Status_eqb (task_status t) completed)
                  (tasks s (list_id staleList)) in
  exists s' copies,
    processStaleList h inboxId staleList s = (Ok tt, s') /\
    tasks s' inboxId = (copies ++ tasks s inboxId)%list /\
    Forall2 (fun t c => exists newId,
                          c = copyOf (trackRolloverCount h) newId t)
      (List.rev open) copies /\
    inboxAdds (stats s')
    = (inboxAdds (stats s) + Z.of_nat (List.length open))%Z /\
    completedTasks (stats s')
    = (completedTasks (stats s)
       ++ List.map
            (fun t => mkCompletedEntry (task_title t) (task_completed t))
            closed)%list /\
    listDeleted (stats s') = (listDeleted (stats s) + 1)%Z /\
    tasks s' (list_id staleList) = [] /\
    forall y, In y (lists s') -> list_id y <> list_id staleList.
Proof.
  intros Hok Hne Hnd open closed.
  destruct (migrateIncompleteTasks_all h Hok (list_id staleList) inboxId Hne
              s Hnd)
    as (s1 & copies & E1 & Hsrc & Hdst & Hcopies & _ & Hl & Hst).
  fold open in E1, Hcopies. fold closed in Hsrc.
  destruct (getCompletedTasksFromList_faultless h (list_id staleList)
              (set_stats
                 (with_inboxAdds
                    (fun n => (n + Z.of_nat (List.length open))%Z)) s1) Hok)
    as (s3 & E3 & Ht3 & Hl3 & Hst3).
  cbn [set_stats tasks] in E3, Ht3. rewrite Hsrc in E3. unfold closed in E3.
  rewrite filter_twice in E3. fold closed in E3.
  assert (Hi : String.eqb inboxId (list_id staleList) = false)
    by (apply String.eqb_neq; congruence).
  unfold processStaleList, bind. rewrite E1. cbn [modify]. rewrite E3.
  unfold ListService.deleteList, service, modify. rewrite Hok.
  eexists. exists copies. split; [reflexivity|].
  cbn. rewrite Hi, String.eqb_refl, Ht3, Hst3. cbn. rewrite Hdst, Hst.
  repeat split; auto.
  intros y Hy. apply filter_In in Hy. destruct Hy as [_ Hy].
  now apply negb_true_iff, String.eqb_neq in Hy.
Qed.

Lemma stale_list_is_accounted_for_witness :
  let h := Scenario.platform Scenario.steady Scenario.noFault in
  let open := List.filter (fun t => Status_eqb (task_status t) needsAction)
                (tasks Cases.desk (list_id Scenario.july9)) in
  let closed := List.filter (fun t => Status_eqb (task_status t) completed)
                  (tasks Cases.desk (list_id Scenario.july9)) in
  exists s' copies,
    processStaleList h "inbox" Scenario.july9 Cases.desk = (Ok tt, s') /\
    tasks s' "inbox" = (copies ++ tasks Cases.desk "inbox")%list /\
    Forall2 (fun t c => exists newId,
                          c = copyOf (trackRolloverCount h) newId t)
      (List.rev open) copies /\
    inboxAdds (stats s')
    = (inboxAdds (stats Cases.desk) + Z.of_nat (List.length open))%Z /\
    completedTasks (stats s')
    = (completedTasks (stats Cases.desk)
       ++ List.map
            (fun t => mkCompletedEntry (task_title t) (task_completed t))
            closed)%list /\
    listDeleted (stats s') = (listDeleted (stats Cases.desk) + 1)%Z /\
    tasks s' (list_id Scenario.july9) = [] /\
    forall y, In y (lists s') -> list_id y <> list_id Scenario.july9.
Proof.
  exact (stale_list_is_accounted_for
           (Scenario.platform Scenario.steady Scenario.noFault)
           "inbox" Scenario.july9 Cases.desk steady_faultless inbox_not_d9
           desk_d9_ids).
Defined.

(** ** What rolloverProcess returns *)

(** When rolloverProcess returns, the identifiers it returns are those of
    existing lists: the first is the identifier of a list of the store
    that bears today's title (found or just created; the sweep never
    deletes it, even when it pauses), the second that of the configured
    inbox. *)
Theorem rolloverProcess_returns_todays_list
  (h : Host) (todayTitle : string) (startTime : Z) (s s' : State)
  (ids : string * string) :
  NoDup (List.map list_id (lists s)) ->
  inboxListName h <> todayListFullName h todayTitle ->
  rolloverProcess h todayTitle startTime s = (Ok ids, s') ->
  (exists today,
     In today (lists s') /\ list_id today = fst ids /\
     list_title today = todayListFullName h todayTitle) /\
  (exists inbox,
     In inbox (lists s) /\ list_id inbox = snd ids /\
     list_title inbox = inboxListName h).
Proof.
  intros Hnd Hnames H. unfold rolloverProcess in H.
  apply bind_ok in H. destruct H as ([] & s1 & E1 & H).
  apply setup_run in E1. destruct E1 as [-> _].
  apply bind_ok in H. destruct H as (inboxList & s2 & E2 & H).
  apply getListByTitle_run in E2. destruct E2 as [-> Hr].
  destruct Hr as [Hr|(e & Hr)]; [|discriminate]. injection Hr as ->.
  cbn [record_call lists] in H.
  destruct (List.find _ (lists s)) as [inbox|] eqn:Hfind; [|discriminate].
  apply find_some in Hfind. destruct Hfind as [Hinbox Hname].
  apply String.eqb_eq in Hname.
  apply bind_ok in H. destruct H as (all & s3 & E3 & H).
  apply listAll_run in E3. destruct E3 as [-> Hr].
  destruct Hr as [Hr|(e & Hr)]; [|discriminate]. injection Hr as ->.
  cbn [record_call lists] in H.
  apply bind_ok in H. destruct H as ([] & s4 & E4 & H).
  pose proof (keeps_at _ _ _ _ _ (confined_sweep h _ _ _) E4) as Hconf.
  apply bind_ok in H. destruct H as (today & s5 & E5 & H).
  injection H as <- <-. cbn [fst snd].
  split; [|now exists inbox].
  exists today. split; [|split; [reflexivity|]].
  - destruct (List.find (isToday h todayTitle) (lists s)) as [l|] eqn:Ht.
    + injection E5 as <- <-.
      apply find_today_some in Ht. destruct Ht as [Hl Htitle].
      apply (confined_kept _ _ _ Hconf); [|exact Hl].
      unfold sweepable. apply orb_false_iff. split.
      * apply String.eqb_neq. intros E.
        assert (l = inbox) by (eapply ids_identify; eauto).
        subst. congruence.
      * apply not_true_is_false. intros Hex.
        apply existsb_exists in Hex. destruct Hex as (y & Hy & E).
        apply String.eqb_eq in E. apply filter_In in Hy.
        destruct Hy as [Hy Hys].
        assert (l = y) by (eapply ids_identify; eauto). subst.
        unfold isStale in Hys. rewrite Htitle, String.eqb_refl in Hys.
        now rewrite andb_false_r in Hys.
    + apply bind_ok in E5. destruct E5 as (l & s6 & E6 & E5).
      apply bind_ok in E5. destruct E5 as ([] & s7 & E7 & E5).
      injection E7 as <-. injection E5 as <- <-.
      unfold ListService.createList, service in E6.
      destruct (fault h _); [discriminate|]. injection E6 as <- <-.
      cbn. apply in_or_app. right. now left.
  - destruct (List.find (isToday h todayTitle) (lists s)) as [l|] eqn:Ht.
    + injection E5 as <- <-. now apply find_today_some in Ht.
    + apply bind_ok in E5. destruct E5 as (l & s6 & E6 & E5).
      apply bind_ok in E5. destruct E5 as ([] & s7 & E7 & E5).
      injection E5 as <- _.
      unfold ListService.createList, service in E6.
      destruct (fault h _); [discriminate|]. now injection E6 as <- _.
Qed.

Lemma rolloverProcess_returns_todays_list_witness :
  let h := Scenario.platform Scenario.late Scenario.noFault in
  let r := rolloverProcess h "July 10, 2025" 0 Cases.desk in
  (exists today,
     In today (lists (snd r)) /\ list_id today = fst ("d10", "inbox") /\
     list_title today = todayListFullName h "July 10, 2025") /\
  (exists inbox,
     In inbox (lists Cases.desk) /\ list_id inbox = snd ("d10", "inbox") /\
     list_title inbox = inboxListName h).
Proof.
  refine (rolloverProcess_returns_todays_list
            (Scenario.platform Scenario.late Scenario.noFault)
            "July 10, 2025" 0 Cases.desk _ ("d10", "inbox") desk_ids _ _).
  - discriminate.
  - apply run_ok. vm_compute. reflexivity.
Defined.

(** * Configuration, logging and set-up *)

(** ** config.js: the two families of getters *)

Section ConfigFacts.
Variable p : ScriptProperties.

Lemma orElse_default (x : option Z) (d : Z) :
  d <> 0%Z -> JsNumber.orElse x d <> 0%Z.
Proof.
  intros Hd. unfold JsNumber.orElse. destruct x as [z|]; [|exact Hd].
  destruct (z =? 0)%Z eqn:E; [exact Hd|]. now apply Z.eqb_neq.
Qed.

(** A getter [parseInt(v, 10) || d] is the getter [parseInt(v || 'd', 10)]
    followed by [|| d], whenever ['d'] reads as a falsy number or as [d]. *)
Lemma defaulted_after_parse (v : option string) (text : string) (d : Z) :
  JsNumber.orElse (JsNumber.parseInt text) d = d ->
  JsNumber.orElse (JsNumber.parseInt (JsNumber.toString v)) d
  = JsNumber.orElse (JsNumber.parseInt (orString v text)) d.
Proof.
  intros Hd. destruct v as [[|c s]|]; unfold orString; cbn [truthy_opt truthy
    or_empty JsNumber.toString]; auto.
Qed.

End ConfigFacts.

(** The getters written [parseInt(prop, 10) || d] never answer zero
    (nor NaN): a property set to 0 yields the default, so the daily trigger
    cannot be set to midnight, the digest cannot be set to Sunday, and the
    time budget cannot be zero. *)
Theorem defaulted_numbers_are_never_zero (p : ScriptProperties) :
  SetupConfig.getDailyTriggerHour p <> 0%Z /\
  SetupConfig.getWeeklyDigestDay p <> 0%Z /\
  SetupConfig.getExecutionTimeoutSeconds p <> 0%Z.
Proof.
  repeat split; apply orElse_default; discriminate.
Qed.

(** The two families of numeric getters differ by the final
    [|| default] only: the arrow getter answers what the function getter
    answers unless that is zero or NaN, where it answers its default. *)
Theorem numeric_getters_differ_by_the_default (p : ScriptProperties) :
  SetupConfig.getDailyTriggerHour p
  = JsNumber.orElse (Config.getDailyTriggerHour p) 2 /\
  SetupConfig.getWeeklyDigestDay p
  = JsNumber.orElse (Config.getWeeklyDigestDay p) 1 /\
  SetupConfig.getExecutionTimeoutSeconds p
  = JsNumber.orElse (Config.getExecutionTimeoutSeconds p) 270.
Proof.
  repeat split; apply defaulted_after_parse; reflexivity.
Qed.

(** The two versions of getTrackRolloverCount agree exactly when the
    property is not set or is one of the texts [true] and [false]; on any
    other text the arrow getter switches tracking off and the function
    getter leaves it on. *)
Theorem tracking_flag_versions_agree (p : ScriptProperties) :
  let prop := p "TRACK_ROLLOVER_COUNT" in
  (SetupConfig.getTrackRolloverCount p = Config.getTrackRolloverCount p
   <-> prop = None \/ prop = Some "true" \/ prop = Some "false") /\
  (Config.getTrackRolloverCount p = false <-> prop = Some "false").
Proof.
  unfold SetupConfig.getTrackRolloverCount, Config.getTrackRolloverCount,
    SetupConfig.getProperties, Config.getProperty, strictEq.
  cbv zeta. destruct (p "TRACK_ROLLOVER_COUNT") as [s|].
  - destruct (String.eqb_spec s "true") as [->|Ht];
      [cbn|destruct (String.eqb_spec s "false") as [->|Hf]; cbn];
      (split; split; intro H; try discriminate; try congruence; auto;
       try (destruct H as [H|[H|H]]; congruence)).
  - cbn [negb]. split; split; auto; discriminate.
Qed.

(** ** logging.js: the sheet of the runs *)

Section SheetFacts.
Variable name : string.

Lemma getSheetByName_name (ss : list Sheet) (sh : Sheet) :
  getSheetByName name ss = Some sh -> sheet_name sh = name.
Proof.
  intros H. apply find_some in H. now apply String.eqb_eq.
Qed.

Lemma appendRow_found (row : list Cell) (ss : list Sheet) (sh : Sheet) :
  getSheetByName name ss = Some sh ->
  getSheetByName name (appendRow name row ss)
  = Some (mkSheet name (sheet_rows sh ++ [row])).
Proof.
  unfold getSheetByName.
  induction ss as [|x ss IH]; cbn [List.find appendRow]; [discriminate|].
  destruct (String.eqb (sheet_name x) name) eqn:E.
  - intros [= ->]. cbn [List.find sheet_name]. rewrite E.
    apply String.eqb_eq in E. now rewrite E.
  - intros H. cbn [List.find]. rewrite E. auto.
Qed.

Lemma appendRow_other (row : list Cell) (ss : list Sheet) (other : string) :
  other <> name ->
  getSheetByName other (appendRow name row ss) = getSheetByName other ss.
Proof.
  intros Hne. unfold getSheetByName.
  induction ss as [|x ss IH]; cbn [List.find appendRow]; [reflexivity|].
  destruct (String.eqb (sheet_name x) name) eqn:E.
  - cbn [List.find sheet_name].
    apply String.eqb_eq in E. rewrite E.
    destruct (String.eqb name other) eqn:E'; [|reflexivity].
    apply String.eqb_eq in E'. congruence.
  - cbn [List.find]. now rewrite IH.
Qed.

Lemma appendRow_names (row : list Cell) (ss : list Sheet) :
  List.map sheet_name (appendRow name row ss) = List.map sheet_name ss.
Proof.
  induction ss as [|x ss IH]; cbn [appendRow List.map]; [reflexivity|].
  destruct (String.eqb (sheet_name x) name); cbn [List.map sheet_name];
    congruence.
Qed.

End SheetFacts.

Lemma truthy_some (id : string) :
  id <> "" -> truthy_opt (Some id) = true.
Proof. destruct id; [congruence|reflexivity]. Qed.

Lemma openById_save (id : string) (ss : list Sheet) (o : Office) :
  openById id (save id ss o) = inl ss.
Proof. unfold openById, save. cbn [spreadsheets]. now rewrite String.eqb_refl. Qed.

Lemma openById_save_other (id k : string) (ss : list Sheet) (o : Office) :
  k <> id -> openById k (save id ss o) = openById k o.
Proof.
  intros H. unfold openById, save. cbn [spreadsheets].
  apply String.eqb_neq in H. now rewrite H.
Qed.

(** The row of a run of main.js: none of the defaults of logRun applies. *)
Lemma rowData_entryOf (r : RunStat) (now : Z) :
  Logging.rowData (Logging.entryOf r) now
  = [DateCell (timestamp r); NumberCell (inboxAdds r);
     NumberCell (listDeleted r); NumberCell (listCreated r);
     TextCell (notes r)].
Proof.
  unfold Logging.rowData, Logging.entryOf, JsNumber.orElse, orString.
  cbn [Logging.entry_timestamp Logging.entry_inboxAdds
       Logging.entry_listDeleted Logging.entry_listCreated
       Logging.entry_notes truthy_opt or_empty].
  assert (Hz : forall z : Z, (if (z =? 0)%Z then 0%Z else z) = z).
  { intros z. destruct (z =? 0)%Z eqn:E; [|reflexivity].
    apply Z.eqb_eq in E. now subst. }
  rewrite !Hz. now destruct (notes r).
Qed.

(** logRun on a configured sheet that opens and has the tab. *)
Lemma logRun_run (stats : Logging.Entry) (now : Z) (o : Office)
  (id : string) (ss : list Sheet) (runs : Sheet) :
  Config.getLogSheetId (scriptProperties o) = Some id -> id <> "" ->
  openById id o = inl ss ->
  getSheetByName "Runs" ss = Some runs ->
  Logging.logRun stats now o
  = save id (appendRow "Runs" (Logging.rowData stats now) ss) o.
Proof.
  intros Hid Hne Hopen Htab. unfold Logging.logRun.
  rewrite Hid, truthy_some by assumption. cbn [negb or_empty].
  rewrite Hopen. unfold Logging.SHEET_NAME. now rewrite Htab.
Qed.

(** On a configured sheet that opens and has the tab, logRun appends
    exactly one row of five cells below the rows of the tab: the timestamp
    and the counters inboxAdds, listDeleted, listCreated, then the note.
    The counter inboxMoves and the completed tasks of the run are not
    written; no other tab, spreadsheet, property or trigger changes and no
    mail is sent. *)
Theorem logRun_appends_one_row
  (r : RunStat) (now : Z) (o : Office) (id : string) (ss : list Sheet)
  (runs : Sheet) :
  Config.getLogSheetId (scriptProperties o) = Some id -> id <> "" ->
  openById id o = inl ss ->
  getSheetByName "Runs" ss = Some runs ->
  let o' := Logging.logRun (Logging.entryOf r) now o in
  exists ss',
    openById id o' = inl ss' /\
    getSheetByName "Runs" ss'
    = Some (mkSheet "Runs"
              (sheet_rows runs
               ++ [[DateCell (timestamp r); NumberCell (inboxAdds r);
                    NumberCell (listDeleted r); NumberCell (listCreated r);
                    TextCell (notes r)]])) /\
    (forall other, other <> "Runs" ->
       getSheetByName other ss' = getSheetByName other ss) /\
    List.map sheet_name ss' = List.map sheet_name ss /\
    (forall k, k <> id -> openById k o' = openById k o) /\
    outbox o' = outbox o /\
    scriptProperties o' = scriptProperties o /\
    projectTriggers o' = projectTriggers o.
Proof.
  intros Hid Hne Hopen Htab o'. subst o'.
  rewrite (logRun_run _ now o id ss runs) by assumption.
  exists (appendRow "Runs" (Logging.rowData (Logging.entryOf r) now) ss).
  split; [apply openById_save|].
  split; [rewrite rowData_entryOf; now apply appendRow_found|].
  split; [intros other Ho; now apply appendRow_other|].
  split; [apply appendRow_names|].
  split; [intros k Hk; now apply openById_save_other|].
  repeat split.
Qed.


Lemma logRun_appends_one_row_witness :
  let o' := Logging.logRun (Logging.entryOf Desk.run) 95000 Desk.office in
  exists ss',
    openById "book" o' = inl ss' /\
    getSheetByName "Runs" ss'
    = Some (mkSheet "Runs"
              (sheet_rows Desk.runs
               ++ [[DateCell (timestamp Desk.run);
                    NumberCell (inboxAdds Desk.run);
                    NumberCell (listDeleted Desk.run);
                    NumberCell (listCreated Desk.run);
                    TextCell (notes Desk.run)]])) /\
    (forall other, other <> "Runs" ->
       getSheetByName other ss' = getSheetByName other Desk.book) /\
    List.map sheet_name ss' = List.map sheet_name Desk.book /\
    (forall k, k <> "book" -> openById k o' = openById k Desk.office) /\
    outbox o' = outbox Desk.office /\
    scriptProperties o' = scriptProperties Desk.office /\
    projectTriggers o' = projectTriggers Desk.office.
Proof.
  apply (logRun_appends_one_row Desk.run 95000 Desk.office "book" Desk.book
           Desk.runs).
  - reflexivity.
  - discriminate.
  - reflexivity.
  - reflexivity.
Defined.

(** Without a configured sheet, or without the tab in it, logRun does
    nothing at all: the record of the run is dropped and no mail tells. *)
Theorem run_is_dropped_without_the_tab
  (stats : Logging.Entry) (now : Z) (o : Office) :
  let sheetId := Config.getLogSheetId (scriptProperties o) in
  truthy_opt sheetId = false \/
  (exists ss, openById (or_empty sheetId) o = inl ss /\
              getSheetByName "Runs" ss = None) ->
  Logging.logRun stats now o = o.
Proof.
  intros sheetId H. unfold Logging.logRun. fold sheetId.
  destruct H as [H|(ss & Hopen & Htab)].
  - now rewrite H.
  - destruct (truthy_opt sheetId); [|reflexivity]. cbn [negb].
    rewrite Hopen. unfold Logging.SHEET_NAME. now rewrite Htab.
Qed.

Lemma run_is_dropped_without_the_tab_witness :
  Logging.logRun (Logging.entryOf Desk.run) 95000
    (save "book" [mkSheet "Sheet1" []] Desk.office)
  = save "book" [mkSheet "Sheet1" []] Desk.office.
Proof.
  apply run_is_dropped_without_the_tab.
  right. exists [mkSheet "Sheet1" []]. split; reflexivity.
Defined.

(** setup on a configured sheet that opens. *)
Lemma logging_setup_run (o : Office) (id : string) (ss : list Sheet) :
  Config.getLogSheetId (scriptProperties o) = Some id -> id <> "" ->
  openById id o = inl ss ->
  Logging.setup o
  = match getSheetByName "Runs" ss with
    | Some _ => o
    | None => save id (mkSheet "Runs" [Logging.HEADER_ROW] :: ss) o
    end.
Proof.
  intros Hid Hne Hopen. unfold Logging.setup.
  rewrite Hid, truthy_some by assumption. cbn [negb or_empty].
  rewrite Hopen. unfold Logging.SHEET_NAME.
  destruct (getSheetByName "Runs" ss); reflexivity.
Qed.

(** setup followed by logRun on a configured sheet that opens. *)
Lemma setup_then_logRun (stats : Logging.Entry) (now : Z) (o : Office)
  (id : string) (ss : list Sheet) :
  Config.getLogSheetId (scriptProperties o) = Some id -> id <> "" ->
  openById id o = inl ss ->
  let o' := Logging.logRun stats now (Logging.setup o) in
  exists ss',
    openById id o' = inl ss' /\
    getSheetByName "Runs" ss'
    = Some (mkSheet "Runs"
              (match getSheetByName "Runs" ss with
               | Some runs => sheet_rows runs
               | None => [Logging.HEADER_ROW]
               end ++ [Logging.rowData stats now])) /\
    (forall k, k <> id -> openById k o' = openById k o) /\
    outbox o' = outbox o /\
    scriptProperties o' = scriptProperties o /\
    projectTriggers o' = projectTriggers o.
Proof.
  intros Hid Hne Hopen o'. subst o'.
  rewrite (logging_setup_run o id ss) by assumption.
  destruct (getSheetByName "Runs" ss) as [runs|] eqn:Htab.
  - rewrite (logRun_run stats now o id ss runs) by assumption.
    eexists. split; [apply openById_save|].
    split; [now apply appendRow_found|].
    split; [intros k Hk; now apply openById_save_other|].
    repeat split.
  - set (ss1 := (mkSheet "Runs" [Logging.HEADER_ROW] :: ss)%list).
    rewrite (logRun_run stats now (save id ss1 o) id ss1
               (mkSheet "Runs" [Logging.HEADER_ROW]));
      [|assumption|assumption|apply openById_save|reflexivity].
    eexists. split; [apply openById_save|].
    split; [reflexivity|].
    split.
    { intros k Hk. rewrite !openById_save_other by assumption. reflexivity. }
    repeat split.
Qed.

(** LoggingSheetUtil.setup followed by logRun, as a run of the
    rollover makes them, always records the run when the configured
    spreadsheet opens: the tab exists afterwards and its last row is the
    row of the run, under the header when setup had to create the tab and
    under the rows already there otherwise.  An existing tab is never
    given a header. *)
Theorem run_is_recorded_after_setup
  (r : RunStat) (now : Z) (o : Office) (id : string) (ss : list Sheet) :
  Config.getLogSheetId (scriptProperties o) = Some id -> id <> "" ->
  openById id o = inl ss ->
  let o' := Logging.logRun (Logging.entryOf r) now (Logging.setup o) in
  exists ss',
    openById id o' = inl ss' /\
    getSheetByName "Runs" ss'
    = Some (mkSheet "Runs"
              (match getSheetByName "Runs" ss with
               | Some runs => sheet_rows runs
               | None => [Logging.HEADER_ROW]
               end
               ++ [[DateCell (timestamp r); NumberCell (inboxAdds r);
                    NumberCell (listDeleted r); NumberCell (listCreated r);
                    TextCell (notes r)]])) /\
    outbox o' = outbox o.
Proof.
  intros Hid Hne Hopen o'.
  destruct (setup_then_logRun (Logging.entryOf r) now o id ss Hid Hne Hopen)
    as (ss' & H1 & H2 & _ & H4 & _).
  exists ss'. rewrite rowData_entryOf in H2. auto.
Qed.

Lemma run_is_recorded_after_setup_witness :
  let o := save "book" [mkSheet "Sheet1" []] Desk.office in
  let o' := Logging.logRun (Logging.entryOf Desk.run) 95000 (Logging.setup o) in
  exists ss',
    openById "book" o' = inl ss' /\
    getSheetByName "Runs" ss'
    = Some (mkSheet "Runs"
              (match getSheetByName "Runs" [mkSheet "Sheet1" []] with
               | Some runs => sheet_rows runs
               | None => [Logging.HEADER_ROW]
               end
               ++ [[DateCell (timestamp Desk.run);
                    NumberCell (inboxAdds Desk.run);
                    NumberCell (listDeleted Desk.run);
                    NumberCell (listCreated Desk.run);
                    TextCell (notes Desk.run)]])) /\
    outbox o' = outbox o.
Proof.
  apply (run_is_recorded_after_setup Desk.run 95000
           (save "book" [mkSheet "Sheet1" []] Desk.office) "book"
           [mkSheet "Sheet1" []]).
  - reflexivity.
  - discriminate.
  - reflexivity.
Defined.

(** LoggingSheetUtil.setup is idempotent unless the spreadsheet fails
    to open: a second call changes nothing, the first having created the
    tab at most once. *)
Theorem logging_setup_is_idempotent (o : Office) :
  (forall message,
     openById (or_empty (Config.getLogSheetId (scriptProperties o))) o
     <> inr message) ->
  Logging.setup (Logging.setup o) = Logging.setup o.
Proof.
  intros Hopen.
  destruct (truthy_opt (Config.getLogSheetId (scriptProperties o))) eqn:Ht.
  - destruct (Config.getLogSheetId (scriptProperties o)) as [id|] eqn:Hid;
      [|discriminate].
    assert (Hne : id <> "") by (intros ->; discriminate).
    cbn [or_empty] in Hopen.
    destruct (openById id o) as [ss|message] eqn:E;
      [|now elim (Hopen message)].
    rewrite (logging_setup_run o id ss) by assumption.
    destruct (getSheetByName "Runs" ss) as [runs|] eqn:Htab.
    + rewrite (logging_setup_run o id ss) by assumption. now rewrite Htab.
    + rewrite (logging_setup_run _ id
                 (mkSheet "Runs" [Logging.HEADER_ROW] :: ss));
        [reflexivity|assumption|assumption|apply openById_save].
  - assert (H : Logging.setup o = o).
    { unfold Logging.setup. now rewrite Ht. }
    now rewrite !H.
Qed.

Lemma logging_setup_is_idempotent_witness :
  Logging.setup
    (Logging.setup (save "book" [mkSheet "Sheet1" []] Desk.office))
  = Logging.setup (save "book" [mkSheet "Sheet1" []] Desk.office).
Proof.
  apply logging_setup_is_idempotent. intros message. discriminate.
Defined.

(** A configured spreadsheet that cannot be opened is reported by mail,
    once by each entry point that opens it: LoggingSheetUtil.setup sends
    a set-up error, logRun a logging failure and
    DigestMailer.sendWeeklyDigest a digest failure, each with the message
    of the exception, and none of them changes anything else.  Called in
    a row, the three send these three mails in this order and leave the
    spreadsheets, the script properties and the triggers as they were. *)
Theorem unopenable_sheet_is_reported_by_mail
  (stats : Logging.Entry) (now : Z) (cal : DigestMailer.Calendar)
  (o : Office) (id message : string) :
  Config.getLogSheetId (scriptProperties o) = Some id -> id <> "" ->
  openById id o = inr message ->
  Logging.setup o
  = mkOffice (scriptProperties o) (spreadsheets o) (projectTriggers o)
      (outbox o
       ++ [mkMail "GTaskManager Setup Error"
             ("Failed to set up logging sheet. Please check that LOG_SHEET_ID is valid. Error: "
              ++ message) None]) /\
  Logging.logRun stats now o
  = mkOffice (scriptProperties o) (spreadsheets o) (projectTriggers o)
      (outbox o
       ++ [mkMail "GTaskManager Logging Failure"
             ("The script could not write to the log sheet." ++ nl ++ nl
              ++ "Error: " ++ message) None]) /\
  DigestMailer.sendWeeklyDigest cal o
  = mkOffice (scriptProperties o) (spreadsheets o) (projectTriggers o)
      (outbox o
       ++ [mkMail "GTaskManager Digest Failure"
             ("The script could not generate or send the weekly digest."
              ++ nl ++ nl ++ "Error: " ++ message) None]) /\
  DigestMailer.sendWeeklyDigest cal
    (Logging.logRun stats now (Logging.setup o))
  = mkOffice (scriptProperties o) (spreadsheets o) (projectTriggers o)
      (outbox o
       ++ [mkMail "GTaskManager Setup Error"
             ("Failed to set up logging sheet. Please check that LOG_SHEET_ID is valid. Error: "
              ++ message) None;
           mkMail "GTaskManager Logging Failure"
             ("The script could not write to the log sheet." ++ nl ++ nl
              ++ "Error: " ++ message) None;
           mkMail "GTaskManager Digest Failure"
             ("The script could not generate or send the weekly digest."
              ++ nl ++ nl ++ "Error: " ++ message) None]).
Proof.
  intros Hid Hne Hopen.
  assert (Hsetup : forall o1,
    Config.getLogSheetId (scriptProperties o1) = Some id ->
    openById id o1 = inr message ->
    Logging.setup o1
    = sendEmail "GTaskManager Setup Error" (Logging.setupError message) o1).
  { intros o1 H1 H2. unfold Logging.setup.
    rewrite H1, truthy_some by assumption. cbn [negb or_empty].
    now rewrite H2. }
  assert (Hlog : forall o1,
    Config.getLogSheetId (scriptProperties o1) = Some id ->
    openById id o1 = inr message ->
    Logging.logRun stats now o1
    = sendEmail "GTaskManager Logging Failure"
        (Logging.loggingFailure message) o1).
  { intros o1 H1 H2. unfold Logging.logRun.
    rewrite H1, truthy_some by assumption. cbn [negb or_empty].
    now rewrite H2. }
  assert (Hdigest : forall o1,
    Config.getLogSheetId (scriptProperties o1) = Some id ->
    openById id o1 = inr message ->
    DigestMailer.sendWeeklyDigest cal o1
    = sendEmail "GTaskManager Digest Failure"
        (DigestMailer.digestFailure message) o1).
  { intros o1 H1 H2. unfold DigestMailer.sendWeeklyDigest.
    rewrite H1, truthy_some by assumption. cbn [negb or_empty].
    now rewrite H2. }
  split; [now rewrite Hsetup|].
  split; [now rewrite Hlog|].
  split; [now rewrite Hdigest|].
  rewrite (Hsetup o Hid Hopen).
  rewrite Hlog by (first [exact Hid | exact Hopen]).
  rewrite Hdigest by (first [exact Hid | exact Hopen]).
  unfold sendEmail.
  cbn [outbox spreadsheets scriptProperties projectTriggers].
  now rewrite <- !app_assoc.
Qed.

Lemma unopenable_sheet_is_reported_by_mail_witness :
  Logging.setup
    (set_properties (setProperty "LOG_SHEET_ID" "gone") Desk.office)
  = mkOffice
      (scriptProperties
         (set_properties (setProperty "LOG_SHEET_ID" "gone") Desk.office))
      (spreadsheets
         (set_properties (setProperty "LOG_SHEET_ID" "gone") Desk.office))
      (projectTriggers
         (set_properties (setProperty "LOG_SHEET_ID" "gone") Desk.office))
      (outbox (set_properties (setProperty "LOG_SHEET_ID" "gone") Desk.office)
       ++ [mkMail "GTaskManager Setup Error"
             ("Failed to set up logging sheet. Please check that LOG_SHEET_ID is valid. Error: "
              ++ "No item with the given ID could be found.") None]) /\
  Logging.logRun (Logging.entryOf Desk.run) 95000
    (set_properties (setProperty "LOG_SHEET_ID" "gone") Desk.office)
  = mkOffice
      (scriptProperties
         (set_properties (setProperty "LOG_SHEET_ID" "gone") Desk.office))
      (spreadsheets
         (set_properties (setProperty "LOG_SHEET_ID" "gone") Desk.office))
      (projectTriggers
         (set_properties (setProperty "LOG_SHEET_ID" "gone") Desk.office))
      (outbox (set_properties (setProperty "LOG_SHEET_ID" "gone") Desk.office)
       ++ [mkMail "GTaskManager Logging Failure"
             ("The script could not write to the log sheet." ++ nl ++ nl
              ++ "Error: " ++ "No item with the given ID could be found.")
             None]) /\
  DigestMailer.sendWeeklyDigest Week.calendar
    (set_properties (setProperty "LOG_SHEET_ID" "gone") Desk.office)
  = mkOffice
      (scriptProperties
         (set_properties (setProperty "LOG_SHEET_ID" "gone") Desk.office))
      (spreadsheets
         (set_properties (setProperty "LOG_SHEET_ID" "gone") Desk.office))
      (projectTriggers
         (set_properties (setProperty "LOG_SHEET_ID" "gone") Desk.office))
      (outbox (set_properties (setProperty "LOG_SHEET_ID" "gone") Desk.office)
       ++ [mkMail "GTaskManager Digest Failure"
             ("The script could not generate or send the weekly digest."
              ++ nl ++ nl ++ "Error: "
              ++ "No item with the given ID could be found.") None]) /\
  DigestMailer.sendWeeklyDigest Week.calendar
    (Logging.logRun (Logging.entryOf Desk.run) 95000
       (Logging.setup
          (set_properties (setProperty "LOG_SHEET_ID" "gone") Desk.office)))
  = mkOffice
      (scriptProperties
         (set_properties (setProperty "LOG_SHEET_ID" "gone") Desk.office))
      (spreadsheets
         (set_properties (setProperty "LOG_SHEET_ID" "gone") Desk.office))
      (projectTriggers
         (set_properties (setProperty "LOG_SHEET_ID" "gone") Desk.office))
      (outbox (set_properties (setProperty "LOG_SHEET_ID" "gone") Desk.office)
       ++ [mkMail "GTaskManager Setup Error"
             ("Failed to set up logging sheet. Please check that LOG_SHEET_ID is valid. Error: "
              ++ "No item with the given ID could be found.") None;
           mkMail "GTaskManager Logging Failure"
             ("The script could not write to the log sheet." ++ nl ++ nl
              ++ "Error: " ++ "No item with the given ID could be found.")
             None;
           mkMail "GTaskManager Digest Failure"
             ("The script could not generate or send the weekly digest."
              ++ nl ++ nl ++ "Error: "
              ++ "No item with the given ID could be found.") None]).
Proof.
  apply (unopenable_sheet_is_reported_by_mail (Logging.entryOf Desk.run) 95000
           Week.calendar
           (set_properties (setProperty "LOG_SHEET_ID" "gone") Desk.office)
           "gone" "No item with the given ID could be found.").
  - reflexivity.
  - discriminate.
  - reflexivity.
Defined.

(** ** config.js: setup *)


Section SetupFacts.

Lemma filter_all {A} (l : list A) : List.filter (fun _ => true) l = l.
Proof. induction l as [|x l IH]; cbn; congruence. Qed.

Lemma filter_filter {A} (f g : A -> bool) (l : list A) :
  List.filter f (List.filter g l) = List.filter (fun x => g x && f x) l.
Proof.
  induction l as [|x l IH]; [reflexivity|].
  cbn [List.filter]. destruct (g x); cbn [List.filter andb]; [|exact IH].
  destruct (f x); congruence.
Qed.



Lemma purge_run (l : list Trigger) (o : Office) :
  projectTriggers (Setup.purge l o)
  = List.filter (fun t => negb (purged l t)) (projectTriggers o) /\
  scriptProperties (Setup.purge l o) = scriptProperties o /\
  spreadsheets (Setup.purge l o) = spreadsheets o /\
  outbox (Setup.purge l o) = outbox o.
Proof.
  revert o. induction l as [|d l IH]; intros o.
  - cbn. now rewrite filter_all.
  - unfold Setup.purge. cbn [List.fold_left]. fold (isDaily d).
    match goal with
    | |- context [List.fold_left ?f l ?x] =>
        change (List.fold_left f l x) with (Setup.purge l x);
        destruct (IH x) as (H1 & H2 & H3 & H4)
    end.
    rewrite H1, H2, H3, H4. clear H1 H2 H3 H4.
    destruct (isDaily d) eqn:E.
    + unfold Setup.deleteTrigger, set_triggers.
      cbn [projectTriggers scriptProperties spreadsheets outbox].
      rewrite filter_filter. repeat split.
      apply filter_ext. intros t. unfold purged. cbn [List.existsb].
      rewrite E. cbn [andb].
      destruct (String.eqb (trigger_uid t) (trigger_uid d)); reflexivity.
    + repeat split. apply filter_ext. intros t. unfold purged.
      cbn [List.existsb]. rewrite E. reflexivity.
Qed.

Lemma purged_own (l : list Trigger) (t : Trigger) :
  NoDup (List.map trigger_uid l) -> In t l -> purged l t = isDaily t.
Proof.
  intros Hnd Hin. unfold purged.
  destruct (isDaily t) eqn:E.
  - apply existsb_exists. exists t. rewrite E, String.eqb_refl. auto.
  - destruct (List.existsb _ l) eqn:Ex; [|reflexivity].
    apply existsb_exists in Ex. destruct Ex as (d & Hd & Hb).
    apply andb_true_iff in Hb. destruct Hb as [Hdaily Huid].
    apply String.eqb_eq in Huid.
    assert (t = d) by (eapply ids_identify; eassumption).
    congruence.
Qed.

Lemma hour_after_setProperty (value : string) (p : ScriptProperties) :
  SetupConfig.getDailyTriggerHour (setProperty "LOG_SHEET_ID" value p)
  = SetupConfig.getDailyTriggerHour p.
Proof. reflexivity. Qed.

End SetupFacts.


Lemma settled_triggers (f : Setup.Fresh) (o : Office) :
  projectTriggers (Setup.settled f o) = projectTriggers o /\
  outbox (Setup.settled f o) = outbox o /\
  SetupConfig.getDailyTriggerHour (scriptProperties (Setup.settled f o))
  = SetupConfig.getDailyTriggerHour (scriptProperties o).
Proof.
  unfold Setup.settled. destruct (negb _); repeat split.
Qed.

Lemma setup_unfold (f : Setup.Fresh) (o : Office) :
  Setup.setup f o
  = set_triggers
      (fun ts =>
         (ts ++ [mkTrigger (Setup.newTriggerId f) "dailyRunner"
                   (EveryDays 1
                      (SetupConfig.getDailyTriggerHour
                         (scriptProperties
                            (Setup.purge (projectTriggers (Setup.settled f o))
                               (Setup.settled f o)))))])%list)
      (Setup.purge (projectTriggers (Setup.settled f o)) (Setup.settled f o)).
Proof. reflexivity. Qed.

(** After setup exactly one trigger runs dailyRunner: the one setup
    created, every day at the configured hour (2 by default, never 0);
    the older triggers of dailyRunner are gone and the triggers of other
    functions are kept, in their order. *)
Theorem setup_leaves_one_daily_trigger (f : Setup.Fresh) (o : Office) :
  NoDup (List.map trigger_uid (projectTriggers o)) ->
  let o' := Setup.setup f o in
  let hour := SetupConfig.getDailyTriggerHour (scriptProperties o) in
  List.filter isDaily (projectTriggers o')
  = [mkTrigger (Setup.newTriggerId f) "dailyRunner" (EveryDays 1 hour)] /\
  List.filter (fun t => negb (isDaily t)) (projectTriggers o')
  = List.filter (fun t => negb (isDaily t)) (projectTriggers o) /\
  hour <> 0%Z /\
  outbox o' = outbox o.
Proof.
  intros Hnd o' hour. subst o'. rewrite setup_unfold.
  destruct (settled_triggers f o) as (Ht & Hout & Hhour).
  destruct (purge_run (projectTriggers (Setup.settled f o)) (Setup.settled f o))
    as (P1 & P2 & P3 & P4).
  unfold set_triggers. cbn [projectTriggers outbox].
  rewrite P1, P2, P4, Hhour, Ht, Hout. fold hour.
  assert (Hkeep :
    List.filter (fun t => negb (purged (projectTriggers o) t))
      (projectTriggers o)
    = List.filter (fun t => negb (isDaily t)) (projectTriggers o)).
  { apply filter_ext_in. intros t Hin. now rewrite purged_own. }
  rewrite Hkeep, !filter_app, !filter_filter.
  set (created := mkTrigger (Setup.newTriggerId f) "dailyRunner"
                    (EveryDays 1 hour)).
  change (List.filter isDaily [created]) with [created].
  change (List.filter (fun t => negb (isDaily t)) [created])
    with (@nil Trigger).
  split; [|split; [|split]].
  - rewrite filter_none; [reflexivity|].
    intros t _. now destruct (isDaily t).
  - rewrite app_nil_r. apply filter_ext. intros t. now destruct (isDaily t).
  - apply orElse_default. discriminate.
  - reflexivity.
Qed.

Lemma desk_triggers :
  NoDup (List.map trigger_uid (projectTriggers Desk.office)).
Proof.
  cbn. repeat constructor; cbn; intuition discriminate.
Qed.


Lemma setup_leaves_one_daily_trigger_witness :
  let o' := Setup.setup Fresh.first Desk.office in
  let hour :=
    SetupConfig.getDailyTriggerHour (scriptProperties Desk.office) in
  List.filter isDaily (projectTriggers o')
  = [mkTrigger (Setup.newTriggerId Fresh.first) "dailyRunner"
       (EveryDays 1 hour)] /\
  List.filter (fun t => negb (isDaily t)) (projectTriggers o')
  = List.filter (fun t => negb (isDaily t)) (projectTriggers Desk.office) /\
  hour <> 0%Z /\
  outbox o' = outbox Desk.office.
Proof.
  exact (setup_leaves_one_daily_trigger Fresh.first Desk.office
           desk_triggers).
Defined.

(** The logging sheet once setup has run. *)
Lemma setup_sheet (f : Setup.Fresh) (o : Office) :
  Setup.newSpreadsheetId f <> "" ->
  exists id ss,
    Config.getLogSheetId (scriptProperties (Setup.setup f o)) = Some id /\
    id <> "" /\
    openById id (Setup.setup f o) = inl ss /\
    outbox (Setup.setup f o) = outbox o /\
    (forall id0 ss0,
       SetupConfig.getLogSheetId (scriptProperties o) = Some id0 ->
       id0 <> "" -> openById id0 o = inl ss0 ->
       id = id0 /\ spreadsheets (Setup.setup f o) = spreadsheets o /\
       scriptProperties (Setup.setup f o) = scriptProperties o).
Proof.
  intros Hnew. rewrite setup_unfold.
  destruct (purge_run (projectTriggers (Setup.settled f o)) (Setup.settled f o))
    as (_ & P2 & P3 & P4).
  unfold set_triggers, openById.
  cbn [scriptProperties spreadsheets outbox]. rewrite P2, P3, P4.
  unfold Setup.settled, Setup.usableSheetId.
  destruct (SetupConfig.getLogSheetId (scriptProperties o)) as [id0|] eqn:Hid.
  - destruct (truthy_opt (Some id0)) eqn:Ht.
    + cbn [or_empty].
      destruct (openById id0 o) as [ss0|message] eqn:Hopen.
      * rewrite Ht. cbn [negb]. exists id0, ss0.
        assert (id0 <> "") by (intros ->; discriminate).
        split; [exact Hid|]. split; [assumption|].
        split; [exact Hopen|]. split; [reflexivity|].
        intros id1 ss1 [= <-] _ _. auto.
      * cbn [truthy_opt negb]. exists (Setup.newSpreadsheetId f).
        eexists. split; [reflexivity|]. split; [assumption|].
        cbn [spreadsheets save scriptProperties set_properties outbox].
        rewrite String.eqb_refl. split; [reflexivity|]. split; [reflexivity|].
        intros id1 ss1 [= <-] _ Hopen'. unfold openById in Hopen.
        congruence.
    + rewrite Ht. cbn [negb]. exists (Setup.newSpreadsheetId f).
      eexists. split; [reflexivity|]. split; [assumption|].
      cbn [spreadsheets save scriptProperties set_properties outbox].
      rewrite String.eqb_refl. split; [reflexivity|]. split; [reflexivity|].
      intros id1 ss1 [= <-] Hne _. destruct id0; [congruence|discriminate].
  - cbn [truthy_opt negb]. exists (Setup.newSpreadsheetId f).
    eexists. split; [reflexivity|]. split; [assumption|].
    cbn [spreadsheets save scriptProperties set_properties outbox].
    rewrite String.eqb_refl. split; [reflexivity|]. split; [reflexivity|].
    intros id1 ss1 [=].
Qed.

(** After setup the property LOG_SHEET_ID names a spreadsheet that
    opens.  A configured spreadsheet that opens is kept, and then setup
    creates nothing and changes no property; otherwise (no identifier, or
    one that fails to open) a new spreadsheet is created and its
    identifier stored. *)
Theorem setup_configures_a_sheet_that_opens (f : Setup.Fresh) (o : Office) :
  Setup.newSpreadsheetId f <> "" ->
  let o' := Setup.setup f o in
  exists id ss,
    Config.getLogSheetId (scriptProperties o') = Some id /\
    id <> "" /\
    openById id o' = inl ss /\
    (forall id0 ss0,
       SetupConfig.getLogSheetId (scriptProperties o) = Some id0 ->
       id0 <> "" -> openById id0 o = inl ss0 ->
       id = id0 /\ spreadsheets o' = spreadsheets o /\
       scriptProperties o' = scriptProperties o) /\
    ((forall ss0,
        openById (or_empty (SetupConfig.getLogSheetId (scriptProperties o))) o
        <> inl ss0) ->
     id = Setup.newSpreadsheetId f /\ ss = Setup.newSpreadsheetTabs f).
Proof.
  intros Hnew o'. subst o'.
  destruct (setup_sheet f o Hnew) as (id & ss & H1 & H2 & H3 & _ & H5).
  exists id, ss. repeat split; auto.
  - now apply (H5 id0 ss0).
  - now apply (H5 id0 ss0).
  - now apply (H5 id0 ss0).
  - revert H1 H3. rewrite setup_unfold.
    destruct (purge_run (projectTriggers (Setup.settled f o)) (Setup.settled f o))
      as (_ & P2 & P3 & _).
    unfold set_triggers, openById. cbn [scriptProperties spreadsheets].
    rewrite P2, P3. unfold Setup.settled, Setup.usableSheetId.
    destruct (truthy_opt (SetupConfig.getLogSheetId (scriptProperties o)))
      eqn:Ht.
    + destruct (openById _ o) as [ss0|message] eqn:Hopen;
        [now elim (H ss0)|].
      cbn [truthy_opt negb scriptProperties set_properties].
      now intros [= <-].
    + rewrite Ht. cbn [negb scriptProperties set_properties].
      now intros [= <-].
  - revert H1 H3. rewrite setup_unfold.
    destruct (purge_run (projectTriggers (Setup.settled f o)) (Setup.settled f o))
      as (_ & P2 & P3 & _).
    unfold set_triggers, openById. cbn [scriptProperties spreadsheets].
    rewrite P2, P3. unfold Setup.settled, Setup.usableSheetId.
    destruct (truthy_opt (SetupConfig.getLogSheetId (scriptProperties o)))
      eqn:Ht.
    + destruct (openById _ o) as [ss0|message] eqn:Hopen;
        [now elim (H ss0)|].
      cbn [truthy_opt negb scriptProperties set_properties spreadsheets save].
      intros [= <-]. rewrite String.eqb_refl. now intros [= <-].
    + rewrite Ht.
      cbn [negb scriptProperties set_properties spreadsheets save].
      intros [= <-]. rewrite String.eqb_refl. now intros [= <-].
Qed.

Lemma setup_configures_a_sheet_that_opens_witness :
  let o := set_properties (setProperty "LOG_SHEET_ID" "gone") Desk.office in
  let o' := Setup.setup Fresh.first o in
  exists id ss,
    Config.getLogSheetId (scriptProperties o') = Some id /\
    id <> "" /\
    openById id o' = inl ss /\
    (forall id0 ss0,
       SetupConfig.getLogSheetId (scriptProperties o) = Some id0 ->
       id0 <> "" -> openById id0 o = inl ss0 ->
       id = id0 /\ spreadsheets o' = spreadsheets o /\
       scriptProperties o' = scriptProperties o) /\
    ((forall ss0,
        openById (or_empty (SetupConfig.getLogSheetId (scriptProperties o))) o
        <> inl ss0) ->
     id = Setup.newSpreadsheetId Fresh.first /\
     ss = Setup.newSpreadsheetTabs Fresh.first).
Proof.
  apply (setup_configures_a_sheet_that_opens Fresh.first
           (set_properties (setProperty "LOG_SHEET_ID" "gone") Desk.office)).
  discriminate.
Defined.

(** The first run after setup is recorded: whatever the office was
    before, once setup has run, LoggingSheetUtil.setup and logRun leave a
    tab of the runs in the configured spreadsheet whose last row is the
    row of the run, and send no mail. *)
Theorem first_run_after_setup_is_recorded
  (f : Setup.Fresh) (r : RunStat) (now : Z) (o : Office) :
  Setup.newSpreadsheetId f <> "" ->
  let o' :=
    Logging.logRun (Logging.entryOf r) now
      (Logging.setup (Setup.setup f o)) in
  exists id ss runs,
    Config.getLogSheetId (scriptProperties o') = Some id /\
    openById id o' = inl ss /\
    getSheetByName "Runs" ss = Some runs /\
    List.last (sheet_rows runs) []
    = [DateCell (timestamp r); NumberCell (inboxAdds r);
       NumberCell (listDeleted r); NumberCell (listCreated r);
       TextCell (notes r)] /\
    outbox o' = outbox o.
Proof.
  intros Hnew o'.
  destruct (setup_sheet f o Hnew) as (id & ss & H1 & H2 & H3 & H4 & _).
  destruct (setup_then_logRun (Logging.entryOf r) now (Setup.setup f o) id ss
              H1 H2 H3) as (ss' & L1 & L2 & _ & L4 & L5 & _).
  fold o' in L1, L2, L4, L5.
  exists id, ss'. eexists. split; [now rewrite L5|].
  split; [exact L1|]. split; [exact L2|].
  cbn [sheet_rows]. rewrite last_last, rowData_entryOf.
  split; [reflexivity|congruence].
Qed.

Lemma first_run_after_setup_is_recorded_witness :
  let o := set_properties (setProperty "LOG_SHEET_ID" "gone") Desk.office in
  let o' :=
    Logging.logRun (Logging.entryOf Desk.run) 95000
      (Logging.setup (Setup.setup Fresh.first o)) in
  exists id ss runs,
    Config.getLogSheetId (scriptProperties o') = Some id /\
    openById id o' = inl ss /\
    getSheetByName "Runs" ss = Some runs /\
    List.last (sheet_rows runs) []
    = [DateCell (timestamp Desk.run); NumberCell (inboxAdds Desk.run);
       NumberCell (listDeleted Desk.run); NumberCell (listCreated Desk.run);
       TextCell (notes Desk.run)] /\
    outbox o' = outbox o.
Proof.
  apply (first_run_after_setup_is_recorded Fresh.first Desk.run 95000
           (set_properties (setProperty "LOG_SHEET_ID" "gone") Desk.office)).
  discriminate.
Defined.


(** ** The inbox only grows *)

#[export] Instance grown_preorder (listId : string) : PreOrder (grown listId).
Proof.
  split.
  - intros s. split; [now exists []|auto].
  - intros a b c [(x & Hx) K1] [(y & Hy) K2]. split; [|auto].
    exists (y ++ x)%list. now rewrite Hy, Hx, app_assoc.
Qed.

Section Grown.
Variable h : Host.
Variable inboxId : string.

Lemma grown_same (s s' : State) :
  tasks s' inboxId = tasks s inboxId -> lists s' = lists s ->
  grown inboxId s s'.
Proof.
  intros Ht Hl. split; [exists []; now rewrite Ht | now rewrite Hl].
Qed.

Lemma grown_record (c : Call) (s : State) : grown inboxId s (record_call c s).
Proof. now apply grown_same. Qed.

Lemma grown_set_tasks_other (l : string) (f : list Task -> list Task)
  (s : State) :
  l <> inboxId -> grown inboxId s (set_tasks l f s).
Proof.
  intros Hl. apply grown_same; [|reflexivity]. cbn [set_tasks tasks].
  destruct (String.eqb_spec inboxId l); [congruence|reflexivity].
Qed.

Lemma grown_insertTask (dst : string) (r : NewTask) :
  keeps (grown inboxId) (TaskService.insertTask h dst r).
Proof.
  unfold TaskService.insertTask. keeps_structure; [apply grown_record|].
  split; [|auto]. cbn [set_tasks tasks].
  destruct (String.eqb inboxId dst); [|now exists []].
  eexists [_]. reflexivity.
Qed.

Lemma grown_removeTask (src taskId : string) :
  src <> inboxId -> keeps (grown inboxId) (TaskService.removeTask h src taskId).
Proof.
  intros Hs. unfold TaskService.removeTask. keeps_structure;
    [apply grown_record|]. now apply grown_set_tasks_other.
Qed.

Lemma grown_move (t : Task) (src dst : string) :
  src <> inboxId -> keeps (grown inboxId) (TaskService.move h t src dst).
Proof.
  intros Hs. unfold TaskService.move. keeps_structure.
  - apply grown_insertTask.
  - now apply grown_removeTask.
Qed.

Lemma grown_updateNotes (l taskId newNotes : string) :
  l <> inboxId ->
  keeps (grown inboxId) (TaskService.updateNotes h l taskId newNotes).
Proof.
  intros Hl. unfold TaskService.updateNotes.
  apply keeps_service; [typeclasses eauto | apply grown_record |].
  intros s. destruct (patch_notes taskId newNotes (tasks s l)) as [[t' l']|];
    simpl; [now apply grown_set_tasks_other | reflexivity].
Qed.

Lemma grown_migrateIncompleteTasks (src dst : string) :
  src <> inboxId -> keeps (grown inboxId) (migrateIncompleteTasks h src dst).
Proof.
  intros Hs. unfold migrateIncompleteTasks, TaskService.listIncompleteTasks.
  keeps_structure; [apply grown_record|].
  destruct (trackRolloverCount h); keeps_structure.
  - now apply grown_updateNotes.
  - now apply grown_move.
  - now apply grown_move.
Qed.

Lemma grown_fetch (l : string) (ps : list (list Task)) (acc : list Task) :
  keeps (grown inboxId) (CompletedTaskService.fetch h l ps acc).
Proof.
  revert acc.
  induction ps as [|p ps IH]; intros acc; cbn [CompletedTaskService.fetch];
    keeps_structure; [apply grown_record | apply IH].
Qed.

Lemma grown_deleteList (l : string) :
  l <> inboxId -> keeps (grown inboxId) (ListService.deleteList h l).
Proof.
  intros Hl. unfold ListService.deleteList. keeps_structure;
    [apply grown_record|].
  split.
  - exists []. cbn [set_tasks set_lists tasks app].
    destruct (String.eqb_spec inboxId l); [congruence|reflexivity].
  - intros x Hx Hin. cbn [set_tasks set_lists lists]. apply filter_In.
    split; [assumption|]. apply negb_true_iff, String.eqb_neq. congruence.
Qed.

Lemma grown_processStaleList (staleList : TaskList) :
  list_id staleList <> inboxId ->
  keeps (grown inboxId) (processStaleList h inboxId staleList).
Proof.
  intros Hl. unfold processStaleList,
    CompletedTaskService.getCompletedTasksFromList,
    CompletedTaskService.listCompletedTasks.
  keeps_structure; try (now apply grown_same).
  - now apply grown_migrateIncompleteTasks.
  - apply grown_fetch.
  - now apply grown_deleteList.
Qed.

Lemma grown_sweep (startTime : Z) (l : list TaskList) :
  Forall (fun x => list_id x <> inboxId) l ->
  keeps (grown inboxId) (sweep h inboxId startTime l).
Proof.
  induction 1 as [|x l Hx _ IH]; cbn [sweep]; keeps_structure.
  - intros s. now apply grown_same.
  - destruct (timedOut h a startTime); keeps_structure.
    + now apply grown_same.
    + now apply grown_processStaleList.
    + exact IH.
Qed.

Lemma grown_createList (title : string) :
  keeps (grown inboxId) (ListService.createList h title).
Proof.
  unfold ListService.createList. keeps_structure; [apply grown_record|].
  split; [now exists []|]. cbn [fst snd set_lists lists].
  intros x _ Hin. apply in_or_app. now left.
Qed.

End Grown.

Lemma startsWith_self_prefix (title p : string) :
  startsWith title p = true -> forall name, startsWith name p = false ->
  title <> name.
Proof. intros H name Hn ->. congruence. Qed.

(** Whatever fails and wherever the sweep pauses, rolloverProcess takes
    nothing from the inbox and does not delete it, provided the name of the
    inbox does not start with the prefix of the daily lists: the tasks the
    inbox had are all there afterwards, below those that the sweep added.
    (An inbox whose name starts with the prefix is a stale list for the
    sweep.) *)
Theorem inbox_only_grows
  (h : Host) (todayTitle : string) (startTime : Z) (s : State)
  (inbox : TaskList) :
  NoDup (List.map list_id (lists s)) ->
  List.find (fun l => String.eqb (list_title l) (inboxListName h)) (lists s)
  = Some inbox ->
  startsWith (inboxListName h) (dailyListPrefix h) = false ->
  let s' := snd (rolloverProcess h todayTitle startTime s) in
  In inbox (lists s') /\
  exists added,
    tasks s' (list_id inbox) = (added ++ tasks s (list_id inbox))%list.
Proof.
  intros Hnd Hfind Hname s'.
  pose proof (find_some _ _ Hfind) as [Hin Htitle].
  apply String.eqb_eq in Htitle.
  assert (Hgrown : grown (list_id inbox) s s').
  { subst s'. unfold rolloverProcess, bind.
    assert (H1 : grown (list_id inbox) s (record_call LogSetup s))
      by apply grown_record.
    destruct (LoggingSheetUtil.setup h s) as [r0 s1] eqn:E1.
    apply setup_run in E1. destruct E1 as [-> Hr0].
    destruct Hr0 as [->|(e & ->)]; [|exact H1].
    destruct (ListService.getListByTitle h (inboxListName h)
                (record_call LogSetup s)) as [r s2] eqn:E2.
    apply getListByTitle_run in E2. destruct E2 as [-> Hr].
    assert (H2 : grown (list_id inbox) s
                   (record_call TasklistsList (record_call LogSetup s)))
      by (etransitivity; [exact H1 | apply grown_record]).
    destruct Hr as [->|(e & ->)]; [|exact H2].
    cbn [record_call lists]. rewrite Hfind.
    destruct (ListService.listAll h _) as [r3 s3] eqn:E3.
    apply listAll_run in E3. destruct E3 as [-> Hr3].
    match goal with
    | |- context [record_call TasklistsList (record_call TasklistsList ?y)] =>
        assert (H3 : grown (list_id inbox) s
                       (record_call TasklistsList
                          (record_call TasklistsList y)))
          by (etransitivity; [exact H2 | apply grown_record])
    end.
    destruct Hr3 as [->|(e & ->)]; [|exact H3].
    cbn [record_call lists].
    assert (Hstale : Forall (fun x => list_id x <> list_id inbox)
                       (List.filter (isStale h todayTitle) (lists s))).
    { apply Forall_forall. intros x Hx. apply filter_In in Hx.
      destruct Hx as [Hx Hst]. unfold isStale in Hst.
      apply andb_true_iff in Hst. destruct Hst as [Hst _].
      intros E.
      assert (x = inbox) by (eapply ids_identify; eauto). subst x.
      rewrite Htitle in Hst. congruence. }
    match goal with
    | |- context [sweep h ?i ?st ?l ?s0] =>
        pose proof (grown_sweep h i st l Hstale s0) as Hsweep;
        destruct (sweep h i st l s0) as [[[]|e] s4]
    end; cbn [snd] in Hsweep;
      assert (H4 : grown (list_id inbox) s s4)
        by (etransitivity; eassumption);
      [|exact H4].
    destruct (List.find (isToday h todayTitle) (lists s)) as [today|];
      [exact H4|].
    cbn [bind]. unfold bind.
    pose proof (grown_createList h (list_id inbox)
                  (todayListFullName h todayTitle) s4) as H5.
    destruct (ListService.createList h (todayListFullName h todayTitle) s4)
      as [[l|e] s5]; cbn in H5 |- *.
    - transitivity s4; [exact H4|]. transitivity s5; [exact H5|].
      now apply grown_same.
    - transitivity s4; [exact H4 | exact H5]. }
  destruct Hgrown as [Ht Hl]. split; [now apply Hl | exact Ht].
Qed.

Lemma inbox_only_grows_witness :
  let h := failing 9 in
  let s' := snd (rolloverProcess h "July 10, 2025" 0 Cases.desk) in
  In Scenario.inbox (lists s') /\
  exists added,
    tasks s' (list_id Scenario.inbox)
    = (added ++ tasks Cases.desk (list_id Scenario.inbox))%list.
Proof.
  apply (inbox_only_grows (failing 9) "July 10, 2025" 0 Cases.desk
           Scenario.inbox).
  - exact desk_ids.
  - reflexivity.
  - reflexivity.
Defined.

(** ** A list is deleted only once its open tasks are in the inbox *)

Section Calm.
Variable h : Host.

Lemma service_calm {A} (c : Call) (effect : M A) (s s' : State) (a : A) :
  service h c effect s = (Ok a, s') ->
  service (calm h) c effect s = (Ok a, s').
Proof.
  unfold service. cbn [calm fault].
  now destruct (fault h (List.length (calls s))).
Qed.

Lemma bind_calm {A B} (m m' : M A) (k k' : A -> M B) (s s' : State) (b : B) :
  (forall a s1, m s = (Ok a, s1) -> m' s = (Ok a, s1)) ->
  (forall a s1 s2, k a s1 = (Ok b, s2) -> k' a s1 = (Ok b, s2)) ->
  bind m k s = (Ok b, s') -> bind m' k' s = (Ok b, s').
Proof.
  intros Hm Hk H. apply bind_ok in H. destruct H as (a & s1 & E1 & E2).
  unfold bind. rewrite (Hm a s1 E1). now apply Hk.
Qed.

Lemma move_calm (t : Task) (src dst : string) (s s' : State) (u : unit) :
  TaskService.move h t src dst s = (Ok u, s') ->
  TaskService.move (calm h) t src dst s = (Ok u, s').
Proof.
  unfold TaskService.move. apply bind_calm.
  - intros a s1. apply service_calm.
  - intros a s1 s2. apply service_calm.
Qed.

Lemma migrateBody_calm (src dst : string) (t : Task) (s s' : State)
  (u : unit) :
  migrateBody h src dst t s = (Ok u, s') ->
  migrateBody (calm h) src dst t s = (Ok u, s').
Proof.
  unfold migrateBody. cbn [calm trackRolloverCount].
  destruct (trackRolloverCount h).
  - apply bind_calm.
    + intros a s1. apply service_calm.
    + intros a s1 s2. apply move_calm.
  - apply move_calm.
Qed.

Lemma forEach_calm {A} (body body' : A -> M unit) (l : list A) :
  (forall x s s' u, body x s = (Ok u, s') -> body' x s = (Ok u, s')) ->
  forall s s' u,
    forEach l body s = (Ok u, s') -> forEach l body' s = (Ok u, s').
Proof.
  intros Hb. induction l as [|x l IH]; intros s s' u; cbn [forEach];
    [auto|].
  apply bind_calm; [intros a s1; apply Hb | intros a s1 s2; apply IH].
Qed.

Lemma migrateIncompleteTasks_calm (src dst : string) (s s' : State)
  (moved : Z) :
  migrateIncompleteTasks h src dst s = (Ok moved, s') ->
  migrateIncompleteTasks (calm h) src dst s = (Ok moved, s').
Proof.
  unfold migrateIncompleteTasks, TaskService.listIncompleteTasks.
  cbn [calm trackRolloverCount].
  apply bind_calm.
  - intros a s1. apply bind_calm; [|auto].
    intros a0 s0. apply service_calm.
  - intros todo s1 s2. apply bind_calm; [|auto].
    intros a s0.
    apply (forEach_calm (migrateBody h src dst) (migrateBody (calm h) src dst)).
    intros x s3 s4 u. apply migrateBody_calm.
Qed.

Lemma lists_move (t : Task) (src dst : string) :
  stable lists (TaskService.move h t src dst).
Proof.
  unfold TaskService.move, TaskService.insertTask, TaskService.removeTask,
    stable.
  keeps_structure; reflexivity.
Qed.

Lemma lists_updateNotes (l taskId newNotes : string) :
  stable lists (TaskService.updateNotes h l taskId newNotes).
Proof.
  unfold TaskService.updateNotes, stable.
  apply keeps_service; [typeclasses eauto | reflexivity |].
  intros s. destruct (patch_notes taskId newNotes (tasks s l)) as [[t' l']|];
    reflexivity.
Qed.

Lemma lists_migrateIncompleteTasks (src dst : string) :
  stable lists (migrateIncompleteTasks h src dst).
Proof.
  unfold migrateIncompleteTasks, TaskService.listIncompleteTasks, stable.
  keeps_structure; try reflexivity.
  destruct (trackRolloverCount h); keeps_structure.
  - apply lists_updateNotes.
  - apply lists_move.
  - apply lists_move.
Qed.

End Calm.

Lemma calm_faultless (h : Host) : faultless (calm h).
Proof. intros n. reflexivity. Qed.

(** Whatever fails, a stale list leaves the store only after every open
    task it held has been copied to the inbox: a failure during the
    migration stops the run before the list is deleted. *)
Theorem stale_list_is_deleted_only_when_migrated
  (h : Host) (inboxId : string) (staleList : TaskList) (s : State) :
  list_id staleList <> inboxId ->
  distinctIds (tasks s (list_id staleList)) ->
  In staleList (lists s) ->
  let s' := snd (processStaleList h inboxId staleList s) in
  ~ In staleList (lists s') ->
  exists copies,
    tasks s' inboxId = (copies ++ tasks s inboxId)%list /\
    Forall2 (fun t c => exists newId,
                          c = copyOf (trackRolloverCount h) newId t)
      (List.rev
         (List.filter (fun t => Status_eqb (task_status t) needsAction)
            (tasks s (list_id staleList))))
      copies.
Proof.
  intros Hne Hnd Hin s' Hgone. subst s'.
  unfold processStaleList in *.
  destruct (migrateIncompleteTasks h (list_id staleList) inboxId s)
    as [[moved|e] s1] eqn:Em.
  - pose proof (migrateIncompleteTasks_calm h _ _ _ _ _ Em) as Ec.
    destruct (migrateIncompleteTasks_all (calm h) (calm_faultless h)
                (list_id staleList) inboxId Hne s Hnd)
      as (s1' & copies & E & _ & Hdst & Hcopies & _).
    rewrite Ec in E. injection E as _ <-.
    exists copies. split; [|exact Hcopies].
    rewrite <- Hdst.
    match goal with
    | |- tasks (snd (bind _ ?k s)) _ = _ =>
        assert (Hrest : forall m,
                  keeps (confined (String.eqb (list_id staleList))) (k m))
    end.
    { intros m. keeps_structure; try apply confined_set_stats.
      - apply confined_getCompletedTasksFromList, String.eqb_refl.
      - apply confined_deleteList, String.eqb_refl. }
    unfold bind at 1. rewrite Em.
    apply (confined_tasks _ _ _ (Hrest moved s1)).
    apply String.eqb_neq. congruence.
  - exfalso. apply Hgone. unfold bind at 1. rewrite Em. cbn [snd].
    pose proof (lists_migrateIncompleteTasks h (list_id staleList) inboxId s)
      as Hl. rewrite Em in Hl. cbn [snd] in Hl. now rewrite Hl.
Qed.

Lemma stale_list_is_deleted_only_when_migrated_witness :
  let h := Scenario.platform Scenario.steady Scenario.noFault in
  let s' := snd (processStaleList h "inbox" Scenario.july9 Cases.desk) in
  exists copies,
    tasks s' "inbox" = (copies ++ tasks Cases.desk "inbox")%list /\
    Forall2 (fun t c => exists newId,
                          c = copyOf (trackRolloverCount h) newId t)
      (List.rev
         (List.filter (fun t => Status_eqb (task_status t) needsAction)
            (tasks Cases.desk (list_id Scenario.july9))))
      copies.
Proof.
  apply (stale_list_is_deleted_only_when_migrated
           (Scenario.platform Scenario.steady Scenario.noFault) "inbox"
           Scenario.july9 Cases.desk).
  - exact inbox_not_d9.
  - exact desk_d9_ids.
  - right. left. reflexivity.
  - vm_compute. intuition discriminate.
Defined.


(** ** digest.js: what the digest shows *)

Section DigestFacts.
Variable cal : DigestMailer.Calendar.
Variable since : Z.

Lemma collectRow_lookup (stats : string -> option DigestMailer.DayStat)
  (row : list Cell) (k : string) :
  DigestMailer.collectRow cal since stats row k
  = if loggedOn cal since k row
    then Some (DigestMailer.mkDayStat
                 (DigestMailer.countOf (DigestMailer.cellAt 1 row))
                 (DigestMailer.noteOf (DigestMailer.cellAt 4 row)))
    else stats k.
Proof.
  unfold DigestMailer.collectRow, loggedOn.
  destruct (DigestMailer.timeOf cal (DigestMailer.cellAt 0 row)) as [t|];
    [|reflexivity].
  destruct (since <=? t)%Z; reflexivity.
Qed.

Lemma collect_lookup (body : list (list Cell))
  (stats : string -> option DigestMailer.DayStat) (k : string) :
  List.fold_left (DigestMailer.collectRow cal since) body stats k
  = match List.find (loggedOn cal since k) (List.rev body) with
    | Some row =>
        Some (DigestMailer.mkDayStat
                (DigestMailer.countOf (DigestMailer.cellAt 1 row))
                (DigestMailer.noteOf (DigestMailer.cellAt 4 row)))
    | None => stats k
    end.
Proof.
  revert stats. induction body as [|row body IH]; intros stats;
    [reflexivity|].
  cbn [List.fold_left List.rev]. rewrite IH, find_in_app.
  destruct (List.find _ (List.rev body)); [reflexivity|].
  cbn [List.find]. rewrite collectRow_lookup.
  destruct (loggedOn cal since k row); reflexivity.
Qed.

End DigestFacts.

Lemma find_none_all {A} (p : A -> bool) (l : list A) :
  (forall x, In x l -> p x = false) -> List.find p l = None.
Proof.
  induction l as [|y l IH]; intros H; [reflexivity|].
  cbn [List.find]. rewrite (H y (or_introl eq_refl)).
  apply IH. intros x Hx. apply H. now right.
Qed.





Lemma collect_last
  (cal : DigestMailer.Calendar) (since : Z) (header : list Cell)
  (earlier : list (list Cell)) (row : list Cell) (later : list (list Cell))
  (dateString : string) :
  loggedOn cal since dateString row = true ->
  Forall (fun r => loggedOn cal since dateString r = false) later ->
  DigestMailer.collect cal since (header :: earlier ++ row :: later)
    dateString
  = Some (DigestMailer.mkDayStat
            (DigestMailer.countOf (DigestMailer.cellAt 1 row))
            (DigestMailer.noteOf (DigestMailer.cellAt 4 row))).
Proof.
  intros Hrow Hlater. unfold DigestMailer.collect. cbn [List.tl].
  rewrite collect_lookup, rev_app_distr. cbn [List.rev].
  rewrite <- app_assoc, find_in_app.
  rewrite find_none_all.
  - cbn [app List.find]. now rewrite Hrow.
  - intros r Hr. apply in_rev in Hr.
    rewrite Forall_forall in Hlater. auto.
Qed.

(** When several rows of the sheet were logged on the same day, the digest
    counts the last of them only: its count replaces those of the earlier
    rows instead of adding to them.  The first row of the sheet, the
    header, is never read. *)
Theorem digest_counts_the_last_run_of_a_day
  (cal : DigestMailer.Calendar) (since : Z) (header : list Cell)
  (earlier : list (list Cell)) (row : list Cell) (later : list (list Cell))
  (dateString : string) :
  loggedOn cal since dateString row = true ->
  Forall (fun r => loggedOn cal since dateString r = false) later ->
  DigestMailer.collect cal since (header :: earlier ++ row :: later)
    dateString
  = Some (DigestMailer.mkDayStat
            (DigestMailer.countOf (DigestMailer.cellAt 1 row))
            (DigestMailer.noteOf (DigestMailer.cellAt 4 row))).
Proof. exact (collect_last cal since header earlier row later dateString). Qed.

Lemma digest_counts_the_last_run_of_a_day_witness :
  DigestMailer.collect Week.calendar 13
    (Logging.HEADER_ROW
     :: [[DateCell 12; NumberCell 9; NumberCell 1; NumberCell 1; TextCell ""];
         [DateCell 18; NumberCell 2; NumberCell 1; NumberCell 1; TextCell ""]]
     ++ [DateCell 18; NumberCell 5; NumberCell 0; NumberCell 0; TextCell ""]
     :: [])
    "yyyy-MM-dd/18"
  = Some (DigestMailer.mkDayStat
            (DigestMailer.countOf
               (DigestMailer.cellAt 1
                  [DateCell 18; NumberCell 5; NumberCell 0; NumberCell 0;
                   TextCell ""]))
            (DigestMailer.noteOf
               (DigestMailer.cellAt 4
                  [DateCell 18; NumberCell 5; NumberCell 0; NumberCell 0;
                   TextCell ""]))).
Proof.
  apply digest_counts_the_last_run_of_a_day.
  - reflexivity.
  - constructor.
Defined.

(** The table of the digest, for the rows [body] below the header. *)
Lemma table_unrolled (cal : DigestMailer.Calendar) (since : Z)
  (header : list Cell) (body : list (list Cell)) :
  DigestMailer.table cal
    (DigestMailer.collect cal since (header :: body)) 7 0 1 ""
  = rowFor cal since body (dayBefore cal 6)
    ++ rowFor cal since body (dayBefore cal 5)
    ++ rowFor cal since body (dayBefore cal 4)
    ++ rowFor cal since body (dayBefore cal 3)
    ++ rowFor cal since body (dayBefore cal 2)
    ++ rowFor cal since body (dayBefore cal 1)
    ++ rowFor cal since body (dayBefore cal 0).
Proof.
  assert (Hshown : forall k,
    match DigestMailer.collect cal since (header :: body) k with
    | Some stats => DigestMailer.rolledOver stats
    | None => 0%Z
    end = shownFor cal since body k).
  { intros k. unfold DigestMailer.collect, shownFor. cbn [List.tl].
    rewrite collect_lookup.
    destruct (List.find _ (List.rev body)); reflexivity. }
  cbn [DigestMailer.table Z.gtb Z.compare Z.sub Z.add Z.opp Z.pos_sub
       Pos.compare Pos.compare_cont Pos.succ Pos.pred_double Z.double
       Z.succ_double Z.pred_double Pos.add].
  rewrite !Hshown. unfold rowFor, dayBefore.
  cbn [Z.of_nat Z.opp Pos.of_succ_nat Pos.succ].
  rewrite append_nil_r, <- !append_assoc. reflexivity.
Qed.

(** With a configured sheet that opens and has the tab, sendWeeklyDigest
    sends exactly one mail, in HTML, whose table has seven rows whatever
    the sheet holds: one for each of the seven days that end with the day
    of the call, oldest first, each with the count of the last run logged
    on that day since seven days, zero for a day without one.  The notes
    of the runs, and the counters other than inboxAdds, are not shown; the
    sheet is not written. *)
Theorem weekly_digest_has_seven_rows
  (cal : DigestMailer.Calendar) (o : Office) (id : string) (ss : list Sheet)
  (sheet : Sheet) :
  Config.getLogSheetId (scriptProperties o) = Some id -> id <> "" ->
  openById id o = inl ss ->
  getSheetByName "Runs" ss = Some sheet ->
  let since := DigestMailer.addDays cal (DigestMailer.nowAt cal 0) (-7) in
  let body := List.tl (sheet_rows sheet) in
  let o' := DigestMailer.sendWeeklyDigest cal o in
  outbox o'
  = (outbox o
     ++ [mkMail "GTaskManager - Weekly Digest" ""
           (Some (DigestMailer.pageHead
                  ++ (rowFor cal since body (dayBefore cal 6)
                      ++ rowFor cal since body (dayBefore cal 5)
                      ++ rowFor cal since body (dayBefore cal 4)
                      ++ rowFor cal since body (dayBefore cal 3)
                      ++ rowFor cal since body (dayBefore cal 2)
                      ++ rowFor cal since body (dayBefore cal 1)
                      ++ rowFor cal since body (dayBefore cal 0))
                  ++ DigestMailer.pageFoot)%string)])%list /\
  spreadsheets o' = spreadsheets o /\
  scriptProperties o' = scriptProperties o /\
  projectTriggers o' = projectTriggers o.
Proof.
  intros Hid Hne Hopen Htab since body o'. subst o'.
  unfold DigestMailer.sendWeeklyDigest.
  rewrite Hid, truthy_some by assumption. cbn [negb or_empty].
  rewrite Hopen, Htab. fold since.
  unfold DigestMailer.sendHtml.
  cbn [outbox spreadsheets scriptProperties projectTriggers].
  split; [|repeat split]. subst body.
  destruct (sheet_rows sheet) as [|header rows]; cbn [List.tl].
  - change (DigestMailer.collect cal since [])
      with (DigestMailer.collect cal since ([] :: [])).
    now rewrite table_unrolled.
  - now rewrite table_unrolled.
Qed.

Lemma weekly_digest_has_seven_rows_witness :
  let cal := Week.calendar in
  let since := DigestMailer.addDays cal (DigestMailer.nowAt cal 0) (-7) in
  let body := List.tl (sheet_rows Week.runs) in
  let o' := DigestMailer.sendWeeklyDigest cal Week.office in
  outbox o'
  = (outbox Week.office
     ++ [mkMail "GTaskManager - Weekly Digest" ""
           (Some (DigestMailer.pageHead
                  ++ (rowFor cal since body (dayBefore cal 6)
                      ++ rowFor cal since body (dayBefore cal 5)
                      ++ rowFor cal since body (dayBefore cal 4)
                      ++ rowFor cal since body (dayBefore cal 3)
                      ++ rowFor cal since body (dayBefore cal 2)
                      ++ rowFor cal since body (dayBefore cal 1)
                      ++ rowFor cal since body (dayBefore cal 0))
                  ++ DigestMailer.pageFoot)%string)])%list /\
  spreadsheets o' = spreadsheets Week.office /\
  scriptProperties o' = scriptProperties Week.office /\
  projectTriggers o' = projectTriggers Week.office.
Proof.
  apply (weekly_digest_has_seven_rows Week.calendar Week.office "book"
           [Week.runs] Week.runs).
  - reflexivity.
  - discriminate.
  - reflexivity.
  - reflexivity.
Defined.

(** The week of the example: the two runs of day 18 show as the later one,
    the run of day 12 is more than seven days old. *)
Example week_table :
  List.map (fun k => shownFor Week.calendar 13
                       (List.tl (sheet_rows Week.runs))
                       (DigestMailer.format Week.calendar
                          (dayBefore Week.calendar k) "yyyy-MM-dd"))
    [6; 5; 4; 3; 2; 1; 0]
  = [0; 0; 0; 0; 5; 0; 0]%Z.
Proof. vm_compute. reflexivity. Qed.


